(** * take_tiki_data.py: the fetch-retry-checkpoint engine

    A shallow embedding of [src/take_tiki_data.py].  The coroutine
    [fetch_product] becomes a state-passing function over the module's
    globals ([failed_ids], [consecutive_429]) that also records the
    sequence of suspension points it goes through; the network, the JSON
    decoder and the HTML-to-text library are oracles.  [main]'s checkpoint
    scan works on the directory listing as a list of file names, and the
    failure log is a file of CSV records; the order in which the tasks of
    a batch complete and whether [json.dump] can write a result are
    oracles too. *)

From Stdlib Require Import ZArith Lia Ascii Decimal DecimalString DecimalZ.
From stdpp Require Import gmap strings list.

Set Warnings "-register-all".
Local Open Scope Z_scope.

(** ** Python and JSON values *)

(** What [json.loads] can return.  A JSON object is a Python [dict], keyed
    by strings; a float is kept as its literal. *)
Inductive jvalue :=
| JNull
| JBool (b : bool)
| JInt (n : Z)
| JFloat (lit : string)
| JStr (s : string)
| JArr (items : list jvalue)
| JObj (fields : gmap string jvalue).

(** The second component of an entry of [failed_ids]: the code appends an
    [int] ([404], [resp.status]) or a [str] (["Exception"], ["Failed"]). *)
Inductive pyval :=
| PInt (n : Z)
| PStr (s : string).

#[global] Instance pyval_eq_dec : EqDecision pyval.
Proof. solve_decision. Defined.

(** The dict returned by [fetch_product] on success. *)
Abbreviation product := (gmap string jvalue).

(** ** The outside world of one attempt *)

(** What [await resp.json()] does when it is reached. *)
Inductive json_outcome :=
| JsonOk (data : jvalue)
| JsonTimeout                 (* asyncio.TimeoutError while reading the body *)
| JsonError.                  (* any other Exception *)

(** What [session.get(url, headers=HEADERS, timeout=10)] does. *)
Inductive get_outcome :=
| GetResponse (status : Z) (body : json_outcome)
| GetTimeout                  (* asyncio.TimeoutError *)
| GetError.                   (* any other Exception *)

(** ** Suspension points and globals *)

Inductive event :=
| EvAcquire                   (* async with semaphore: enter *)
| EvRelease                   (* async with semaphore: exit *)
| EvDelay                     (* asyncio.sleep(random.uniform( *DELAY_RANGE)) *)
| EvGet (url : string)        (* session.get(url, ...) *)
| EvSleep (seconds : Z).      (* asyncio.sleep(wait), asyncio.sleep(2 * attempt) *)

#[global] Instance event_eq_dec : EqDecision event.
Proof. solve_decision. Defined.

Record world := World {
  failed_ids : list (string * pyval);
  consecutive_429 : Z;
  trace : list event
}.

Definition world0 : world := World [] 0 [].

(** ** A small state monad for the coroutine *)

Definition M (A : Type) : Type := world -> A * world.

#[global] Instance M_ret : MRet M := fun A (a : A) w => (a, w).

#[global] Instance M_bind : MBind M :=
  fun A B (k : A -> M B) (c : M A) w => let (a, w') := c w in k a w'.

Definition emit (e : event) : M unit :=
  fun w => (tt, World (failed_ids w) (consecutive_429 w) (trace w ++ [e])).

(** [failed_ids.append(r)] *)
Definition failed_ids_append (r : string * pyval) : M unit :=
  fun w => (tt, World (failed_ids w ++ [r]) (consecutive_429 w) (trace w)).

(** [consecutive_429 += 1] *)
Definition incr_consecutive_429 : M unit :=
  fun w => (tt, World (failed_ids w) (consecutive_429 w + 1) (trace w)).

(** How one iteration of a [for] body ends. *)
Inductive flow (A : Type) :=
| Continue                    (* fall off the end of the body, or [continue] *)
| Return (r : A).
Arguments Continue {A}.
Arguments Return {A} r.

(** ** Constants of the module *)

Definition BASE_URL_prefix : string :=
  "https://api.tiki.vn/product-detail/api/v1/products/".
Definition OUTPUT_DIR : string := "tiki_batches_use_log".
Definition MAX_CONCURRENCY : nat := 100.
Definition MAX_RETRIES : nat := 3.
Definition BATCH_SIZE : Z := 1000.

(** [BASE_URL.format(pid)] *)
Definition BASE_URL_format (pid : string) : string := BASE_URL_prefix +:+ pid.

(** [data.get(key)] and [data.get(key, default)] on a dict. *)
Definition dict_get (data : gmap string jvalue) (key : string) : jvalue :=
  default JNull (data !! key).
Definition dict_get_default (data : gmap string jvalue) (key : string)
    (dflt : jvalue) : jvalue :=
  default dflt (data !! key).

(** ** fetch_product *)

Section Fetch.
(** [max_retries] stands for the constant [MAX_RETRIES]; [net pid a] is
    what the network does on attempt [a] for [pid]; [soup_text v] is
    [BeautifulSoup(v, "html.parser").get_text(separator="\n").strip()],
    [None] when it raises. *)
Variable max_retries : nat.
Variable net : string -> nat -> get_outcome.
Variable soup_text : jvalue -> option string.

(** Lines 73-85: the body was read; build the result dict.  [data.get]
    on something that is not a dict raises [AttributeError]. *)
Definition build_product (data : jvalue) : option product :=
  match data with
  | JObj d =>
      let html_desc := dict_get_default d "description" (JStr "") in
      match soup_text html_desc with
      | Some text_desc =>
          Some (<["id" := dict_get d "id"]>
                (<["name" := dict_get d "name"]>
                (<["url_key" := dict_get d "url_key"]>
                (<["price" := dict_get d "price"]>
                (<["description" := JStr text_desc]>
                (<["image_url" := dict_get d "thumbnail_url"]> ∅))))))
      | None => None
      end
  | _ => None
  end.

(** [except asyncio.TimeoutError] (lines 87-89), then the semaphore block
    ends and the loop goes on. *)
Definition on_timeout (attempt : nat) : M (flow (option product)) :=
  emit (EvSleep (2 * Z.of_nat attempt));;
  emit EvRelease;;
  mret Continue.

(** [except Exception] (lines 90-93). *)
Definition on_exception (pid : string) : M (flow (option product)) :=
  failed_ids_append (pid, PStr "Exception");;
  emit EvRelease;;
  mret (Return None).

(** The body of the [for] loop, lines 52-93. *)
Definition attempt_body (pid : string) (attempt : nat)
    : M (flow (option product)) :=
  emit EvAcquire;;
  emit EvDelay;;
  emit (EvGet (BASE_URL_format pid));;
  match net pid attempt with
  | GetResponse status body =>
      if status =? 429 then
        incr_consecutive_429;;
        emit (EvSleep (5 * Z.of_nat attempt));;
        emit EvRelease;;
        mret Continue
      else if status =? 404 then
        failed_ids_append (pid, PInt 404);;
        emit EvRelease;;
        mret (Return None)
      else if negb (status =? 200) then
        failed_ids_append (pid, PInt status);;
        emit EvRelease;;
        mret (Return None)
      else
        match body with
        | JsonOk data =>
            match build_product data with
            | Some p => emit EvRelease;; mret (Return (Some p))
            | None => on_exception pid
            end
        | JsonTimeout => on_timeout attempt
        | JsonError => on_exception pid
        end
  | GetTimeout => on_timeout attempt
  | GetError => on_exception pid
  end.

(** [for attempt in attempts: ...] followed by lines 95-97. *)
Fixpoint fetch_loop (pid : string) (attempts : list nat)
    : M (option product) :=
  match attempts with
  | [] =>
      failed_ids_append (pid, PStr "Failed");;
      mret None
  | attempt :: rest =>
      r ← attempt_body pid attempt;
      match r with
      | Continue => fetch_loop pid rest
      | Return v => mret v
      end
  end.

(** [range(1, MAX_RETRIES + 1)] *)
Definition attempts_range : list nat := seq 1 max_retries.

Definition fetch_product (pid : string) : M (option product) :=
  fetch_loop pid attempts_range.

End Fetch.

(** ** Reading a run of [fetch_product] *)

(** The attempts after which the loop goes round again: a 429 response, a
    timeout of the request, a timeout while the body of a 200 response is
    read. *)
Definition retryable (o : get_outcome) : bool :=
  match o with
  | GetResponse status body =>
      if status =? 429 then true
      else if status =? 404 then false
      else if negb (status =? 200) then false
      else match body with JsonTimeout => true | _ => false end
  | GetTimeout => true
  | GetError => false
  end.

Definition is_429 (o : get_outcome) : bool :=
  match o with
  | GetResponse status _ => status =? 429
  | _ => false
  end.

(** The backoff an attempt sleeps before the loop goes round again. *)
Definition backoff_of (o : get_outcome) (attempt : nat) : Z :=
  if is_429 o then 5 * Z.of_nat attempt else 2 * Z.of_nat attempt.

Definition is_get (e : event) : bool :=
  match e with EvGet _ => true | _ => false end.

(** Number of requests issued in a trace. *)
Definition requests (tr : list event) : nat := length (filter is_get tr).

(** The events of an attempt that ends the coroutine, and of one that is
    retried. *)
Definition final_block (pid : string) : list event :=
  [EvAcquire; EvDelay; EvGet (BASE_URL_format pid); EvRelease].
Definition retry_block (pid : string) (o : get_outcome) (attempt : nat)
    : list event :=
  [EvAcquire; EvDelay; EvGet (BASE_URL_format pid);
   EvSleep (backoff_of o attempt); EvRelease].

Section Retries.
Variable net : string -> nat -> get_outcome.

(** The world after the attempts of [l], all of them retried. *)
Fixpoint after_retries (pid : string) (l : list nat) (w : world) : world :=
  match l with
  | [] => w
  | a :: rest =>
      after_retries pid rest
        (World (failed_ids w)
               (consecutive_429 w + (if is_429 (net pid a) then 1 else 0))
               (trace w ++ retry_block pid (net pid a) a))
  end.

End Retries.

(** The attempts of [l] that are made: up to and including the first one
    that is not retried. *)
Fixpoint performed (net : string -> nat -> get_outcome) (pid : string)
    (l : list nat) : list nat :=
  match l with
  | [] => []
  | a :: rest =>
      if retryable (net pid a) then a :: performed net pid rest else [a]
  end.

(** The events of attempt [a]. *)
Definition attempt_block (net : string -> nat -> get_outcome) (pid : string)
    (a : nat) : list event :=
  if retryable (net pid a) then retry_block pid (net pid a) a
  else final_block pid.

(** The backoff sleeps of a trace that happen while the coroutine holds
    its semaphore slot, and those that happen while it does not; [held]
    tells whether the slot is held where the trace starts. *)
Fixpoint sleeps_holding (held : bool) (tr : list event) : list Z :=
  match tr with
  | [] => []
  | EvAcquire :: tr' => sleeps_holding true tr'
  | EvRelease :: tr' => sleeps_holding false tr'
  | EvSleep s :: tr' =>
      if held then s :: sleeps_holding held tr' else sleeps_holding held tr'
  | _ :: tr' => sleeps_holding held tr'
  end.

Fixpoint sleeps_released (held : bool) (tr : list event) : list Z :=
  match tr with
  | [] => []
  | EvAcquire :: tr' => sleeps_released true tr'
  | EvRelease :: tr' => sleeps_released false tr'
  | EvSleep s :: tr' =>
      if held then sleeps_released held tr' else s :: sleeps_released held tr'
  | _ :: tr' => sleeps_released held tr'
  end.

(** Whether the slot is held at the end of a trace. *)
Fixpoint held_after (held : bool) (tr : list event) : bool :=
  match tr with
  | [] => held
  | EvAcquire :: tr' => held_after true tr'
  | EvRelease :: tr' => held_after false tr'
  | _ :: tr' => held_after held tr'
  end.

(** The values the code appends to [failed_ids] as the error of a record:
    a status, ["Exception"] or ["Failed"]. *)
Definition is_fetch_error (e : pyval) : bool :=
  match e with
  | PInt _ => true
  | PStr s => bool_decide (s = "Exception") || bool_decide (s = "Failed")
  end.

(** What a run adds to the globals and to the trace. *)
Definition world_app (w d : world) : world :=
  World (failed_ids w ++ failed_ids d)
        (consecutive_429 w + consecutive_429 d)
        (trace w ++ trace d).

(** [c] behaves in any world as in the empty one, adding to what is there. *)
Definition framed {A} (c : M A) : Prop :=
  forall w, c w = ((c world0).1, world_app w (c world0).2).

(** What a fetch leaves behind when it starts in the empty world. *)
Definition outcome_ok (pid : string) (r : option product) (d : world) : Prop :=
  match r with
  | Some p => p <> ∅ /\ failed_ids d = []
  | None => exists e, is_fetch_error e = true /\ failed_ids d = [(pid, e)]
  end.

(** ** The tasks of one batch (main, lines 124-129) *)

(** [if product: results.append(product)]: a dict is true when it is not
    empty, [None] is false. *)
Definition results_append (results : list product) (r : option product)
    : list product :=
  match r with
  | Some p => if decide (p = ∅) then results else results ++ [p]
  | None => results
  end.

Section Batch.
Variable max_retries : nat.
Variable net : string -> nat -> get_outcome.
Variable soup_text : jvalue -> option string.

(** The event loop interleaves the tasks of a batch; a task touches the
    globals only by appending its record and counting its 429 answers, and
    [main] looks at them after all tasks are done.  Here the tasks run one
    after the other, in the order of [batch_ids]. *)
Fixpoint gather (batch_ids : list string) (results : list product)
    : M (list product) :=
  match batch_ids with
  | [] => mret results
  | pid :: rest =>
      r ← fetch_product max_retries net soup_text pid;
      gather rest (results_append results r)
  end.

(** The value a fetch returns; it does not depend on the globals. *)
Definition fetch_result (pid : string) : option product :=
  (fetch_product max_retries net soup_text pid world0).1.

End Batch.

(** ** Strings as Python has them *)

(** [s.split(sep)] for a separator of one character. *)
Fixpoint py_split (sep : ascii) (s : string) : list string :=
  match s with
  | EmptyString => [EmptyString]
  | String c s' =>
      if Ascii.eqb c sep then EmptyString :: py_split sep s'
      else match py_split sep s' with
           | piece :: rest => String c piece :: rest
           | [] => [String c EmptyString]
           end
  end.

(** [s.startswith(p)] and [s.endswith(p)]. *)
Definition py_startswith (s p : string) : bool := String.prefix p s.

Fixpoint py_endswith (s p : string) : bool :=
  if String.eqb s p then true
  else match s with
       | EmptyString => false
       | String _ s' => py_endswith s' p
       end.

(** A string is a list of characters with codes 0 to 255.  The functions
    below follow Python on strings of ASCII characters, those with codes
    below 128; what Python does with the spaces and digits that Unicode has
    beyond them depends on the tables of the interpreter and is not
    modelled. *)
Definition is_ascii (c : ascii) : bool := (N_of_ascii c <? 128)%N.

Fixpoint all_ascii (s : string) : bool :=
  match s with
  | EmptyString => true
  | String c s' => is_ascii c && all_ascii s'
  end.

(** The ASCII characters for which [str.isspace] holds: tab to carriage
    return, the separators 0x1c to 0x1f, and the space. *)
Definition py_isspace (c : ascii) : bool :=
  let n := N_of_ascii c in
  (((9 <=? n) && (n <=? 13)) || ((28 <=? n) && (n <=? 32)))%N.

(** The ASCII characters that [int] skips around a literal: tab to
    carriage return and the space.  Unlike [str.strip], [int] does not skip
    the separators 0x1c to 0x1f. *)
Definition py_int_isspace (c : ascii) : bool :=
  let n := N_of_ascii c in
  (((9 <=? n) && (n <=? 13)) || (n =? 32))%N.

Definition is_digit (c : ascii) : bool :=
  let n := N_of_ascii c in ((48 <=? n) && (n <=? 57))%N.

Fixpoint py_lstrip (s : string) : string :=
  match s with
  | EmptyString => EmptyString
  | String c s' => if py_isspace c then py_lstrip s' else s
  end.

Fixpoint py_rstrip (s : string) : string :=
  match s with
  | EmptyString => EmptyString
  | String c s' =>
      match py_rstrip s' with
      | EmptyString => if py_isspace c then EmptyString else String c EmptyString
      | t => String c t
      end
  end.

Fixpoint py_int_lstrip (s : string) : string :=
  match s with
  | EmptyString => EmptyString
  | String c s' => if py_int_isspace c then py_int_lstrip s' else s
  end.

Fixpoint py_int_rstrip (s : string) : string :=
  match s with
  | EmptyString => EmptyString
  | String c s' =>
      match py_int_rstrip s' with
      | EmptyString => if py_int_isspace c then EmptyString else String c EmptyString
      | t => String c t
      end
  end.

(** The digits of an [int] literal without its underscores, which may
    only stand singly between two digits; [prev] tells whether the
    character before was a digit. *)
Fixpoint drop_underscores (prev : bool) (s : string) : option string :=
  match s with
  | EmptyString => if prev then Some EmptyString else None
  | String c s' =>
      if Ascii.eqb c "_" then
        if prev then drop_underscores false s' else None
      else if is_digit c then String c <$> drop_underscores true s'
      else None
  end.

(** An optional sign in front of the digits. *)
Definition split_sign (s : string) : bool * string :=
  match s with
  | String c s' =>
      if Ascii.eqb c "-" then (true, s')
      else if Ascii.eqb c "+" then (false, s')
      else (false, s)
  | EmptyString => (false, s)
  end.

(** The number of digits up to which [int] converts a string, by default;
    a longer literal raises. *)
Definition int_max_str_digits : nat := 4300.

(** [int(s)] in base 10 for a string of ASCII characters that is not
    longer than [int_max_str_digits]; [None] is [ValueError]. *)
Definition py_int (s : string) : option Z :=
  let (negative, body) := split_sign (py_int_rstrip (py_int_lstrip s)) in
  digits ← drop_underscores false body;
  d ← NilEmpty.uint_of_string digits;
  Some (if negative then - Z.of_uint d else Z.of_uint d).

(** The strings on which [py_int] is what [int] does. *)
Definition int_modelled (s : string) : bool :=
  all_ascii s && (String.length s <=? int_max_str_digits)%nat.

(** [str(n)], as an f-string formats an [int]. *)
Definition py_str_int (n : Z) : string := NilEmpty.string_of_int (Z.to_int n).

(** [range(a, b)] *)
Definition py_range (a b : Z) : list Z :=
  (fun i => a + Z.of_nat i) <$> seq 0 (Z.to_nat (b - a)).

(** [l[start:stop]] *)
Definition py_slice {A} (l : list A) (start stop : Z) : list A :=
  let len := Z.of_nat (length l) in
  let clamp i := if i <? 0 then Z.max (i + len) 0 else Z.min i len in
  take (Z.to_nat (clamp stop - clamp start)) (drop (Z.to_nat (clamp start)) l).

(** [max(s)] of a set of integers; [None] on the empty set. *)
Definition set_max (s : gset Z) : option Z :=
  foldr (fun x acc => Some (from_option (Z.max x) x acc)) None (elements s).

(** Strings made of ASCII digits only. *)
Fixpoint all_digits (s : string) : bool :=
  match s with
  | EmptyString => true
  | String c s' => is_digit c && all_digits s'
  end.

(** Strings in which the character [c] does not occur. *)
Fixpoint lacks (c : ascii) (s : string) : bool :=
  match s with
  | EmptyString => true
  | String x s' => negb (Ascii.eqb x c) && lacks c s'
  end.

(** ** The checkpoint (main, lines 108-118) *)

(** The name under which batch [batch_index] is saved in OUTPUT_DIR
    (line 135). *)
Definition batch_file_name (batch_index : Z) : string :=
  "tiki_batch_" +:+ py_str_int batch_index +:+ ".json".

(** The condition of the comprehension. *)
Definition is_batch_file (f : string) : bool :=
  py_startswith f "tiki_batch_" && py_endswith f ".json".

(** [int(f.split("_")[-1].split(".")[0])]; both lists have an element. *)
Definition batch_index_of (f : string) : option Z :=
  py_int (default "" (head (py_split "." (default "" (last (py_split "_" f)))))).

(** [done_batches], from [listing = os.listdir(OUTPUT_DIR)]; [None] when
    an [int(...)] raises. *)
Definition done_batches (listing : list string) : option (gset Z) :=
  list_to_set <$> mapM batch_index_of (filter is_batch_file listing).

(** [start_batch = max(done_batches) + 1 if done_batches else 1] *)
Definition start_batch (listing : list string) : option Z :=
  done ← done_batches listing;
  Some (match set_max done with
        | Some m => m + 1
        | None => 1
        end).

(** [total_batches = (len(ids) + BATCH_SIZE - 1) // BATCH_SIZE] *)
Definition total_batches (ids : list string) : Z :=
  (Z.of_nat (length ids) + BATCH_SIZE - 1) `div` BATCH_SIZE.

(** The batches of a run, in the order of the loop of line 118. *)
Definition batches_of_run (listing : list string) (ids : list string)
    : option (list Z) :=
  start ← start_batch listing;
  Some (py_range start (total_batches ids + 1)).

(** [batch_ids], lines 119-121. *)
Definition batch_ids_of (ids : list string) (batch_index : Z) : list string :=
  let start := (batch_index - 1) * BATCH_SIZE in
  let stop := Z.min (start + BATCH_SIZE) (Z.of_nat (length ids)) in
  py_slice ids start stop.

(** ** The failure log (main, lines 142-153) *)

(** A record of a CSV file, as the text of its cells.  A file is the list
    of its records, each of which takes up at least its line end, so the
    file has size 0 exactly when it has no record. *)
Definition csv_record : Type := list string.

(** [columns=["id", "error"]], written as the header. *)
Definition header_record : csv_record := ["id"; "error"].

(** How [to_csv] prints the error of a record. *)
Definition py_str (v : pyval) : string :=
  match v with
  | PInt n => py_str_int n
  | PStr s => s
  end.

Definition data_record (r : string * pyval) : csv_record := [r.1; py_str r.2].

(** [write_header = not file_exists or os.path.getsize(FAILED_FILE) == 0];
    the file is [None] when it does not exist. *)
Definition write_header (file : option (list csv_record)) : bool :=
  match file with
  | None => true
  | Some content => bool_decide (content = [])
  end.

(** [df_failed.to_csv(FAILED_FILE, index=False, mode='a', header=...)] *)
Definition to_csv_append (failed : list (string * pyval))
    (file : option (list csv_record)) : option (list csv_record) :=
  Some (default [] file
        ++ (if write_header file then [header_record] else [])
        ++ (data_record <$> failed)).

(** Lines 142-153: the file and [failed_ids] after the flush of a batch. *)
Definition flush_failed (failed : list (string * pyval))
    (file : option (list csv_record))
    : option (list csv_record) * list (string * pyval) :=
  match failed with
  | [] => (file, failed)
  | _ :: _ => (to_csv_append failed file, [])
  end.

(** The file after the flushes of the batches whose buffers are [buffers],
    one after the other. *)
Definition flushes (file : option (list csv_record))
    (buffers : list (list (string * pyval))) : option (list csv_record) :=
  foldl (fun file failed => (flush_failed failed file).1) file buffers.

(** Number of header records in a file. *)
Definition headers (file : option (list csv_record)) : nat :=
  length (filter (fun r => r = header_record) (default [] file)).

(** A log as the flushes leave it: absent, empty, or with one header. *)
Definition log_ok (file : option (list csv_record)) : Prop :=
  match file with
  | None | Some [] => True
  | Some (_ :: _) => headers file = 1%nat
  end.

(** ** The tasks of a batch under the event loop *)

(** Where a task of [fetch_product] stands between two of its suspension
    points. *)
Inductive phase :=
| AtLoop (attempt : nat)      (* head of the [for] loop; no slot held *)
| Delaying (attempt : nat)    (* in the slot, in the politeness sleep *)
| Requesting (attempt : nat)  (* in the slot, awaiting the response *)
| BackingOff (attempt : nat)  (* in the slot, in the backoff sleep *)
| Returned (r : option product).

(** The shared state of the tasks: the free slots of [semaphore], the tasks
    created for the batch, and the two globals. *)
Record sys := Sys {
  sem_value : nat;
  tasks : list (string * phase);
  sys_failed_ids : list (string * pyval);
  sys_consecutive_429 : Z
}.

Definition holds_slot (ph : phase) : bool :=
  match ph with
  | Delaying _ | Requesting _ | BackingOff _ => true
  | AtLoop _ | Returned _ => false
  end.

Definition in_request (ph : phase) : bool :=
  match ph with
  | Requesting _ => true
  | _ => false
  end.

Definition is_returned (ph : phase) : bool :=
  match ph with
  | Returned _ => true
  | _ => false
  end.

(** Number of tasks whose phase satisfies [p]. *)
Definition count_phase (p : phase -> bool) (ts : list (string * phase)) : nat :=
  sum_list_with (fun t => if p t.2 then 1%nat else 0%nat) ts.

(** Tasks that hold a slot, and tasks that are executing their request. *)
Definition holders (s : sys) : nat := count_phase holds_slot (tasks s).
Definition in_flight (s : sys) : nat := count_phase in_request (tasks s).

Section EventLoop.
Variable max_retries : nat.
Variable net : string -> nat -> get_outcome.
Variable soup_text : jvalue -> option string.

Definition set_phase (s : sys) (i : nat) (pid : string) (ph : phase)
    : list (string * phase) :=
  <[i := (pid, ph)]> (tasks s).

(** Task [i] runs from its suspension point to the next one; [None] when it
    cannot: it has returned, or it waits for a slot and none is free. *)
Definition task_step (i : nat) (s : sys) : option sys :=
  match tasks s !! i with
  | Some (pid, AtLoop a) =>
      if (a <=? max_retries)%nat then
        if (0 <? sem_value s)%nat then
          Some (Sys (sem_value s - 1) (set_phase s i pid (Delaying a))
                    (sys_failed_ids s) (sys_consecutive_429 s))
        else None
      else
        Some (Sys (sem_value s) (set_phase s i pid (Returned None))
                  (sys_failed_ids s ++ [(pid, PStr "Failed")])
                  (sys_consecutive_429 s))
  | Some (pid, Delaying a) =>
      Some (Sys (sem_value s) (set_phase s i pid (Requesting a))
                (sys_failed_ids s) (sys_consecutive_429 s))
  | Some (pid, Requesting a) =>
      let (r, d) := attempt_body net soup_text pid a world0 in
      match r with
      | Continue =>
          Some (Sys (sem_value s) (set_phase s i pid (BackingOff a))
                    (sys_failed_ids s ++ failed_ids d)
                    (sys_consecutive_429 s + consecutive_429 d))
      | Return v =>
          Some (Sys (S (sem_value s)) (set_phase s i pid (Returned v))
                    (sys_failed_ids s ++ failed_ids d)
                    (sys_consecutive_429 s + consecutive_429 d))
      end
  | Some (pid, BackingOff a) =>
      Some (Sys (S (sem_value s)) (set_phase s i pid (AtLoop (S a)))
                (sys_failed_ids s) (sys_consecutive_429 s))
  | Some (_, Returned _) | None => None
  end.

(** The event loop resumes the tasks named by [schedule], in this order;
    a task that cannot run is passed over. *)
Definition run_schedule (schedule : list nat) (s : sys) : sys :=
  foldl (fun s i => default s (task_step i s)) s schedule.

End EventLoop.

(** The state when the tasks of a batch have just been created (line 125),
    with [max_concurrency] for MAX_CONCURRENCY. *)
Definition batch_start (max_concurrency : nat) (batch_ids : list string)
    (failed : list (string * pyval)) (count_429 : Z) : sys :=
  Sys max_concurrency ((fun pid => (pid, AtLoop 1)) <$> batch_ids)
      failed count_429.

Definition returned_none (ph : phase) : bool :=
  match ph with
  | Returned None => true
  | _ => false
  end.

(** What the phase of a task says about the attempts of its identifier:
    the attempts before the current one were all retried, and a task that
    has returned has returned what [fetch_product] returns. *)
Definition phase_ok (max_retries : nat) (net : string -> nat -> get_outcome)
    (soup_text : jvalue -> option string) (pid : string) (ph : phase) : Prop :=
  match ph with
  | AtLoop a =>
      (1 <= a <= S max_retries)%nat /\
      forall b, (1 <= b < a)%nat -> retryable (net pid b) = true
  | Delaying a | Requesting a =>
      (1 <= a <= max_retries)%nat /\
      forall b, (1 <= b < a)%nat -> retryable (net pid b) = true
  | BackingOff a =>
      (1 <= a <= max_retries)%nat /\
      forall b, (1 <= b <= a)%nat -> retryable (net pid b) = true
  | Returned r => r = fetch_result max_retries net soup_text pid
  end.

(** Every task of the batch is in a phase that fits its identifier. *)
Definition tasks_ok (max_retries : nat) (net : string -> nat -> get_outcome)
    (soup_text : jvalue -> option string) (s : sys) : Prop :=
  forall i pid ph,
    tasks s !! i = Some (pid, ph) -> phase_ok max_retries net soup_text pid ph.

(** An upper bound on the steps a task still takes. *)
Definition remaining (max_retries : nat) (ph : phase) : nat :=
  match ph with
  | AtLoop a => 4 * (S max_retries - a) + 1
  | Delaying a => 4 * (S max_retries - a)
  | Requesting a => 4 * (S max_retries - a) - 1
  | BackingOff a => 4 * (S max_retries - a) - 2
  | Returned _ => 0
  end.

Definition remaining_steps (max_retries : nat) (s : sys) : nat :=
  sum_list_with (fun t => remaining max_retries t.2) (tasks s).

(** ** Measuring a run of the event loop *)

Section EventLoopMeasures.
Variable max_retries : nat.
Variable net : string -> nat -> get_outcome.
Variable soup_text : jvalue -> option string.

(** How many entries of the schedule name a task that could run. *)
Fixpoint steps_taken (schedule : list nat) (s : sys) : nat :=
  match schedule with
  | [] => 0
  | i :: rest =>
      match task_step max_retries net soup_text i s with
      | Some s' => S (steps_taken rest s')
      | None => steps_taken rest s
      end
  end.

(** The 429 answers among the attempts of [l]. *)
Definition count_429 (pid : string) (l : list nat) : Z :=
  Z.of_nat (length (filter (fun a => is_429 (net pid a)) l)).

(** The records a task has appended, and the 429 answers it has counted,
    when it stands in a given phase. *)
Definition task_records (t : string * phase) : list (string * pyval) :=
  match t.2 with
  | Returned _ => failed_ids (fetch_product max_retries net soup_text t.1 world0).2
  | _ => []
  end.

Definition task_429 (t : string * phase) : Z :=
  match t.2 with
  | AtLoop a | Delaying a | Requesting a => count_429 t.1 (seq 1 (a - 1))
  | BackingOff a => count_429 t.1 (seq 1 a)
  | Returned _ =>
      consecutive_429 (fetch_product max_retries net soup_text t.1 world0).2
  end.

End EventLoopMeasures.

(** The sum of [f] over a list. *)
Definition sum_Z {A} (f : A -> Z) (l : list A) : Z :=
  foldr (fun x acc => f x + acc) 0 l.

(** What holds of the globals and of the tasks all along a run of the
    batch [batch_ids] that started with [failed] and [c] in the globals. *)
Definition accounted (max_retries : nat) (net : string -> nat -> get_outcome)
    (soup_text : jvalue -> option string) (batch_ids : list string)
    (failed : list (string * pyval)) (c : Z) (s : sys) : Prop :=
  tasks_ok max_retries net soup_text s /\
  (tasks s).*1 = batch_ids /\
  sys_failed_ids s
  ≡ₚ failed ++ concat (task_records max_retries net soup_text <$> tasks s) /\
  sys_consecutive_429 s
  = c + sum_Z (task_429 max_retries net soup_text) (tasks s).

(** ** main (lines 101-155) *)

(** The files [main] reads and writes: OUTPUT_DIR, as the content written
    under each file name, and FAILED_FILE. *)
Record disk := Disk {
  out_dir : gmap string (list product);
  failed_file : option (list csv_record)
}.

(** The module globals, the files and [total_successful_count]. *)
Record run_state := RunState {
  run_world : world;
  run_disk : disk;
  total_successful_count : Z
}.

(** [os.listdir(OUTPUT_DIR)], in some order. *)
Definition listdir (d : disk) : list string := (map_to_list (out_dir d)).*1.

(** The records of a log that are not its header. *)
Definition data_rows (file : option (list csv_record)) : nat :=
  length (filter (fun r => r <> header_record) (default [] file)).

(** [asyncio.as_completed(tasks)]: the tasks in the order in which they
    complete.  That order is the event loop's and the network's; [picks]
    stands for it: each of its numbers tells which of the tasks that are
    still running completes next, counted among them, modulo their number.
    When the numbers run out, the tasks left complete in their order in the
    list.  Every order of the tasks comes from some [picks]. *)
Fixpoint as_completed {A} (picks : list nat) (tasks : list A) : list A :=
  match picks with
  | [] => tasks
  | p :: picks' =>
      let i := (p `mod` length tasks)%nat in
      match tasks !! i with
      | Some t => t :: as_completed picks' (delete i tasks)
      | None => []
      end
  end.

(** Two states of the files that differ at most in the order of the
    results inside an artifact and in the order of the records of the
    failure log. *)
Definition same_files (d1 d2 : disk) : Prop :=
  (forall name, option_Forall2 (≡ₚ) (out_dir d1 !! name) (out_dir d2 !! name)) /\
  option_Forall2 (≡ₚ) (failed_file d1) (failed_file d2).

Section Main.
Variable max_retries : nat.
Variable net : string -> nat -> get_outcome.
Variable soup_text : jvalue -> option string.
(** For every batch, the order in which its tasks complete. *)
Variable completion : Z -> list nat.
(** Whether [json.dump] can write a result; it raises on a string that
    the file cannot encode, such as one with a lone surrogate. *)
Variable json_ok : product -> bool.

(** The body of the loop over the batches, lines 119-155; [None] when
    [json.dump] raises, which ends [main].  The results come into the
    artifact, and the records into [failed_ids], in the order in which the
    tasks complete; a fetch depends on the other tasks in nothing else, so
    the tasks are run one after the other in that order. *)
Definition process_batch (ids : list string) (batch_index : Z)
    (st : run_state) : option run_state :=
  let batch_ids := batch_ids_of ids batch_index in
  let (results, w) :=
    gather max_retries net soup_text
      (as_completed (completion batch_index) batch_ids) [] (run_world st) in
  if forallb json_ok results then
    let out :=
      <[batch_file_name batch_index := results]> (out_dir (run_disk st)) in
    let count := total_successful_count st + Z.of_nat (length results) in
    let (file, failed) :=
      flush_failed (failed_ids w) (failed_file (run_disk st)) in
    Some (RunState (World failed (consecutive_429 w) (trace w ++ [EvSleep 3]))
                   (Disk out file) count)
  else None.

(** The loop of line 118 over the batches [batches]. *)
Fixpoint run_batches (ids : list string) (batches : list Z) (st : run_state)
    : option run_state :=
  match batches with
  | [] => Some st
  | batch_index :: rest =>
      st' ← process_batch ids batch_index st;
      run_batches ids rest st'
  end.

(** [main] on the identifiers [ids] read from INPUT_FILE; [None] when the
    checkpoint scan or a [json.dump] raises. *)
Definition main (ids : list string) (d : disk) : option run_state :=
  start ← start_batch (listdir d);
  run_batches ids (py_range start (total_batches ids + 1)) (RunState world0 d 0).

End Main.

(** ** check_duplicate.py *)

Definition CHUNK_SIZE : Z := 50000.
Definition OUT_DIR : string := ".".

(** [s.strip()], for a string of ASCII characters. *)
Definition py_strip (s : string) : string := py_rstrip (py_lstrip s).

(** [range(start, stop, step)] for a positive step. *)
Definition py_range_step (start stop step : Z) : list Z :=
  (fun k => start + Z.of_nat k * step)
    <$> seq 0 (Z.to_nat ((stop - start + step - 1) `div` step)).

(** [ids.duplicated()]: for each place, whether its value stands at an
    earlier place; [seen] holds the values met so far. *)
Fixpoint duplicated (seen : list string) (ids : list string) : list bool :=
  match ids with
  | [] => []
  | x :: rest => bool_decide (x ∈ seen) :: duplicated (x :: seen) rest
  end.

Section CheckDuplicate.
(** A row of the frame is the cell of its column 'id' and its other
    columns.  How pandas tells a missing cell and prints a cell as [str]
    depends on the type it gave the column; both are left open. *)
Context {Cell Other : Type}.
Variable notna : Cell -> bool.
Variable astype_str : Cell -> string.

(** Lines 8-9: the rows whose id is not missing, the id as a stripped
    string. *)
Definition clean (df : list (Cell * Other)) : list (string * Other) :=
  (fun r => (py_strip (astype_str r.1), r.2)) <$> filter (fun r => notna r.1) df.

(** Line 11: [df['id'].duplicated().sum()] *)
Definition dup (df : list (string * Other)) : nat :=
  length (filter (fun b => b = true) (duplicated [] df.*1)).

(** [df.drop_duplicates(subset='id')]: the first row of every id. *)
Fixpoint drop_duplicates (seen : list string) (df : list (string * Other))
    : list (string * Other) :=
  match df with
  | [] => []
  | r :: rest =>
      if decide (r.1 ∈ seen) then drop_duplicates seen rest
      else r :: drop_duplicates (r.1 :: seen) rest
  end.

(** Lines 13-17: the frame after the check. *)
Definition deduplicated (df : list (string * Other)) : list (string * Other) :=
  if decide (dup df = 0%nat) then df else drop_duplicates [] df.

(** Line 23: the file of the chunk that starts at row [i]. *)
Definition chunk_file (i : Z) : string :=
  OUT_DIR +:+ "/id_tiki_part_" +:+ py_str_int (i `div` CHUNK_SIZE + 1) +:+ ".csv".

(** Lines 21-25: the chunks and the files they are saved to, in the order
    of the loop. *)
Definition chunks (df : list (string * Other))
    : list (string * list (string * Other)) :=
  (fun i => (chunk_file i, py_slice df i (i + CHUNK_SIZE)))
    <$> py_range_step 0 (Z.of_nat (length df)) CHUNK_SIZE.

(** The script up to the saving of the chunks. *)
Definition check_duplicate (df : list (Cell * Other))
    : list (string * list (string * Other)) :=
  chunks (deduplicated (clean df)).

End CheckDuplicate.

(** ** Concrete scenarios *)

(** A stand-in for the HTML-to-text library: the text of a [str] is the
    [str] itself, anything else raises. *)
Definition soup_plain (v : jvalue) : option string :=
  match v with
  | JStr s => Some s
  | _ => None
  end.

Definition net_always (o : get_outcome) : string -> nat -> get_outcome :=
  fun _ _ => o.

(** The first attempt is answered by [o1], every later one by [o2]. *)
Definition net_then (o1 o2 : get_outcome) : string -> nat -> get_outcome :=
  fun _ a => if (a =? 1)%nat then o1 else o2.

(** Identifier "A" is answered 200, "B" 404, "C" 429 and then 200; every
    body is an object with its id and an empty description. *)
Definition body_of (n : Z) : json_outcome :=
  JsonOk (JObj (<["id" := JInt n]> (<["description" := JStr ""]> ∅))).

Definition net_abc : string -> nat -> get_outcome :=
  fun pid a =>
    if String.eqb pid "A" then GetResponse 200 (body_of 1)
    else if String.eqb pid "B" then GetResponse 404 JsonError
    else if (a =? 1)%nat then GetResponse 429 JsonError
    else GetResponse 200 (body_of 3).

(** The run on the identifiers "A", "B", "C" with an empty OUTPUT_DIR and
    no failure log: one batch, in which "C" completes first, then "A",
    then "B", and every result can be written. *)
Definition disk_empty : disk := Disk ∅ None.

Definition completion_abc : Z -> list nat := fun _ => [2; 0]%nat.

Definition json_any : product -> bool := fun _ => true.

Definition run_abc : run_state :=
  default (RunState world0 disk_empty 0)
    (main 3 net_abc soup_plain completion_abc json_any ["A"; "B"; "C"]
       disk_empty).

(** A run of two batches: a thousand times "B", then "A" and "C".  In the
    run that is not stopped the tasks complete in the order of the batch;
    in the run that is stopped and started again the second task of a
    batch completes first. *)
Definition ids_two_batches : list string := replicate 1000 "B" ++ ["A"; "C"].

Definition completion_in_order : Z -> list nat := fun _ => [].

Definition completion_second_first : Z -> list nat := fun _ => [1%nat].

Definition run_two_batches : run_state :=
  default (RunState world0 disk_empty 0)
    (main 3 net_abc soup_plain completion_in_order json_any ids_two_batches
       disk_empty).

(** A frame of three rows, the middle one without id: a cell is [None]
    when it is missing and is printed as it stands. *)
Definition frame_abc : list (option string * unit) :=
  [(Some "  12 ", tt); (None, tt); (Some "12", tt)].

Definition notna_opt (c : option string) : bool := bool_decide (is_Some c).
Definition astype_str_opt (c : option string) : string := default "" c.

(** * Properties *)

(** Unfolds the monad and its primitive actions. *)
Ltac run_m :=
  unfold on_timeout, on_exception;
  unfold mbind, M_bind, mret, M_ret, emit, failed_ids_append,
    incr_consecutive_429; cbn.

Section FetchFacts.
Variable max_retries : nat.
Variable net : string -> nat -> get_outcome.
Variable soup_text : jvalue -> option string.

Abbreviation attempt_body' := (attempt_body net soup_text).
Abbreviation fetch_loop' := (fetch_loop net soup_text).
Abbreviation after_retries' := (after_retries net).

Lemma attempt_body_retry pid a w :
  retryable (net pid a) = true ->
  attempt_body' pid a w = (Continue, after_retries' pid [a] w).
Proof.
  unfold attempt_body, retryable, after_retries, retry_block, backoff_of, is_429.
  destruct w as [f c t].
  destruct (net pid a) as [status body| |]; [|intros _|discriminate].
  - destruct (status =? 429) eqn:E429.
    + intros _. run_m. by rewrite <- !app_assoc.
    + destruct (status =? 404); [discriminate|].
      destruct (status =? 200); cbn [negb]; [|discriminate].
      destruct body; try discriminate. intros _. run_m.
      by rewrite Z.add_0_r, <- !app_assoc.
  - run_m. by rewrite Z.add_0_r, <- !app_assoc.
Qed.

Lemma after_retries_app pid l1 l2 w :
  after_retries' pid (l1 ++ l2) w = after_retries' pid l2 (after_retries' pid l1 w).
Proof. revert w. induction l1 as [|a l1 IH]; intros w; cbn; [done|apply IH]. Qed.

Lemma fetch_loop_retries pid l1 l2 w :
  (forall a, a ∈ l1 -> retryable (net pid a) = true) ->
  fetch_loop' pid (l1 ++ l2) w = fetch_loop' pid l2 (after_retries' pid l1 w).
Proof.
  revert w. induction l1 as [|a l1 IH]; intros w Hall; [done|].
  cbn [app fetch_loop]. unfold mbind, M_bind.
  rewrite attempt_body_retry by (apply Hall; left).
  cbn [after_retries]. apply IH. intros b Hb. apply Hall. by right.
Qed.

Lemma after_retries_failed_ids pid l w :
  failed_ids (after_retries' pid l w) = failed_ids w.
Proof. revert w. induction l as [|a l IH]; intros w; cbn; [done|by rewrite IH]. Qed.

Lemma requests_app tr1 tr2 : requests (tr1 ++ tr2) = (requests tr1 + requests tr2)%nat.
Proof. unfold requests. by rewrite filter_app, length_app. Qed.

Lemma requests_retry_block pid o a : requests (retry_block pid o a) = 1%nat.
Proof. reflexivity. Qed.

Lemma requests_final_block pid : requests (final_block pid) = 1%nat.
Proof. reflexivity. Qed.

Lemma after_retries_requests pid l w :
  requests (trace (after_retries' pid l w)) = (requests (trace w) + length l)%nat.
Proof.
  revert w. induction l as [|a l IH]; intros w; cbn [after_retries length]; [lia|].
  rewrite IH. cbn [trace]. rewrite requests_app, requests_retry_block. lia.
Qed.

Lemma after_retries_429 pid l w :
  consecutive_429 (after_retries' pid l w)
  = consecutive_429 w + Z.of_nat (length (filter (fun a => is_429 (net pid a)) l)).
Proof.
  revert w. induction l as [|a l IH]; intros w; cbn [after_retries]; [cbn; lia|].
  rewrite IH. cbn [consecutive_429].
  destruct (is_429 (net pid a)) eqn:E.
  - rewrite filter_cons_True by (by rewrite E). cbn [length]. lia.
  - rewrite filter_cons_False by (rewrite E; exact id). lia.
Qed.

(** [range(1, MAX_RETRIES + 1)] split at an attempt that is reached. *)
Lemma attempts_range_split k :
  (k < max_retries)%nat ->
  attempts_range max_retries
  = seq 1 k ++ S k :: seq (S (S k)) (max_retries - S k).
Proof.
  intros Hk. unfold attempts_range.
  replace max_retries with (k + S (max_retries - S k))%nat at 1 by lia.
  by rewrite seq_app.
Qed.

Lemma elem_of_seq_1 a k : a ∈ seq 1 k <-> (1 <= a <= k)%nat.
Proof. rewrite elem_of_seq. lia. Qed.


Lemma attempt_body_404 pid a w body :
  net pid a = GetResponse 404 body ->
  attempt_body' pid a w
  = (Return None,
     World (failed_ids w ++ [(pid, PInt 404)]) (consecutive_429 w)
           (trace w ++ final_block pid)).
Proof.
  intros E. unfold attempt_body. rewrite E. cbn [Z.eqb Pos.eqb].
  run_m. by rewrite <- !app_assoc.
Qed.

Lemma attempt_body_status pid a w status body :
  net pid a = GetResponse status body ->
  status <> 200 -> status <> 404 -> status <> 429 ->
  attempt_body' pid a w
  = (Return None,
     World (failed_ids w ++ [(pid, PInt status)]) (consecutive_429 w)
           (trace w ++ final_block pid)).
Proof.
  intros E H200 H404 H429. unfold attempt_body. rewrite E.
  apply Z.eqb_neq in H200, H404, H429. rewrite H429, H404, H200. cbn [negb].
  run_m. by rewrite <- !app_assoc.
Qed.

Lemma attempt_body_ok pid a w data p :
  net pid a = GetResponse 200 (JsonOk data) ->
  build_product soup_text data = Some p ->
  attempt_body' pid a w
  = (Return (Some p),
     World (failed_ids w) (consecutive_429 w) (trace w ++ final_block pid)).
Proof.
  intros E Hp. unfold attempt_body. rewrite E, Hp. cbn [Z.eqb Pos.eqb negb].
  run_m. by rewrite <- !app_assoc.
Qed.

(** The run up to an attempt that returns. *)
Lemma fetch_product_returns pid k w v w' :
  (k < max_retries)%nat ->
  (forall a, (1 <= a <= k)%nat -> retryable (net pid a) = true) ->
  attempt_body' pid (S k) (after_retries' pid (seq 1 k) w) = (Return v, w') ->
  fetch_product max_retries net soup_text pid w = (v, w').
Proof.
  intros Hk Hretry Hlast. unfold fetch_product.
  rewrite (attempts_range_split k Hk), fetch_loop_retries
    by (intros a Ha; by apply Hretry, elem_of_seq_1).
  cbn [fetch_loop]. unfold mbind, M_bind. by rewrite Hlast.
Qed.

(** The run when every attempt is retried. *)
Lemma fetch_product_exhausted pid w :
  (forall a, (1 <= a <= max_retries)%nat -> retryable (net pid a) = true) ->
  fetch_product max_retries net soup_text pid w
  = (None,
     let w' := after_retries' pid (seq 1 max_retries) w in
     World (failed_ids w' ++ [(pid, PStr "Failed")]) (consecutive_429 w') (trace w')).
Proof.
  intros Hretry. unfold fetch_product, attempts_range.
  rewrite <- (app_nil_r (seq 1 max_retries)) at 1.
  rewrite fetch_loop_retries by (intros a Ha; by apply Hretry, elem_of_seq_1).
  reflexivity.
Qed.

End FetchFacts.

(** ** Terminal classification of one identifier *)

(** C4: a 404 answer on an attempt that is reached (the attempts before it
    were retried) ends the fetch at once, whatever MAX_RETRIES is: the
    result is None, the one record appended is (pid, 404), and the request
    that got the 404 is the last one, released without any backoff. *)
Theorem fetch_404_not_found_immediately
    (max_retries : nat) (net : string -> nat -> get_outcome)
    (soup_text : jvalue -> option string) (pid : string) (k : nat)
    (body : json_outcome) (w : world) :
  (k < max_retries)%nat ->
  (forall a, (1 <= a <= k)%nat -> retryable (net pid a) = true) ->
  net pid (S k) = GetResponse 404 body ->
  let res := fetch_product max_retries net soup_text pid w in
  res.1 = None /\
  failed_ids res.2 = failed_ids w ++ [(pid, PInt 404)] /\
  trace res.2 = trace (after_retries net pid (seq 1 k) w) ++ final_block pid /\
  requests (trace res.2) = (requests (trace w) + S k)%nat.
Proof.
  intros Hk Hretry E res. subst res.
  erewrite fetch_product_returns by (eauto using attempt_body_404).
  cbn [fst snd failed_ids trace].
  rewrite after_retries_failed_ids, requests_app, after_retries_requests,
    length_seq, requests_final_block.
  repeat split; lia.
Qed.

Lemma fetch_404_not_found_immediately_witness :
  let res := fetch_product 3 (net_then (GetResponse 429 JsonError)
                                       (GetResponse 404 JsonError))
               soup_plain "42" world0 in
  res.1 = None /\
  failed_ids res.2 = failed_ids world0 ++ [("42", PInt 404)] /\
  trace res.2
  = trace (after_retries (net_then (GetResponse 429 JsonError)
                                   (GetResponse 404 JsonError))
             "42" (seq 1 1) world0) ++ final_block "42" /\
  requests (trace res.2) = (requests (trace world0) + 2)%nat.
Proof.
  apply (fetch_404_not_found_immediately 3 _ soup_plain "42" 1 JsonError world0).
  - lia.
  - intros a Ha. assert (a = 1)%nat as -> by lia. reflexivity.
  - reflexivity.
Defined.

(** C5: a status other than 200, 404 and 429 on an attempt that is reached
    ends the fetch at once: the result is None, the one record appended is
    (pid, status), and no later attempt is made. *)
Theorem fetch_other_status_not_retried
    (max_retries : nat) (net : string -> nat -> get_outcome)
    (soup_text : jvalue -> option string) (pid : string) (k : nat)
    (status : Z) (body : json_outcome) (w : world) :
  (k < max_retries)%nat ->
  (forall a, (1 <= a <= k)%nat -> retryable (net pid a) = true) ->
  net pid (S k) = GetResponse status body ->
  status <> 200 -> status <> 404 -> status <> 429 ->
  let res := fetch_product max_retries net soup_text pid w in
  res.1 = None /\
  failed_ids res.2 = failed_ids w ++ [(pid, PInt status)] /\
  trace res.2 = trace (after_retries net pid (seq 1 k) w) ++ final_block pid /\
  requests (trace res.2) = (requests (trace w) + S k)%nat.
Proof.
  intros Hk Hretry E H200 H404 H429 res. subst res.
  erewrite fetch_product_returns by (eauto using attempt_body_status).
  cbn [fst snd failed_ids trace].
  rewrite after_retries_failed_ids, requests_app, after_retries_requests,
    length_seq, requests_final_block.
  repeat split; lia.
Qed.

Lemma fetch_other_status_not_retried_witness :
  let res := fetch_product 3 (net_always (GetResponse 500 JsonError))
               soup_plain "42" world0 in
  res.1 = None /\
  failed_ids res.2 = failed_ids world0 ++ [("42", PInt 500)] /\
  trace res.2
  = trace (after_retries (net_always (GetResponse 500 JsonError))
             "42" (seq 1 0) world0) ++ final_block "42" /\
  requests (trace res.2) = (requests (trace world0) + 1)%nat.
Proof.
  apply (fetch_other_status_not_retried 3 _ soup_plain "42" 0 500 JsonError world0).
  - lia.
  - intros a Ha. lia.
  - reflexivity.
  - discriminate.
  - discriminate.
  - discriminate.
Defined.

(** ** Exhausted retries *)

(** C1 (as the code has it): when every attempt up to MAX_RETRIES is
    retried, be it after a 429, after a timeout or after any mix of the
    two, the fetch returns None after exactly MAX_RETRIES requests and
    appends the single record (pid, "Failed"); the 429 counter grows by the
    number of 429 answers.  The record does not tell the two causes
    apart. *)
Theorem fetch_exhausted_failed
    (max_retries : nat) (net : string -> nat -> get_outcome)
    (soup_text : jvalue -> option string) (pid : string) (w : world) :
  (forall a, (1 <= a <= max_retries)%nat -> retryable (net pid a) = true) ->
  let res := fetch_product max_retries net soup_text pid w in
  res.1 = None /\
  failed_ids res.2 = failed_ids w ++ [(pid, PStr "Failed")] /\
  requests (trace res.2) = (requests (trace w) + max_retries)%nat /\
  consecutive_429 res.2
  = consecutive_429 w
    + Z.of_nat (length (filter (fun a => is_429 (net pid a)) (seq 1 max_retries))).
Proof.
  intros Hretry res. subst res.
  rewrite fetch_product_exhausted by done.
  cbn [fst snd failed_ids trace consecutive_429].
  by rewrite after_retries_failed_ids, after_retries_requests, length_seq,
    after_retries_429.
Qed.

Lemma fetch_exhausted_failed_witness :
  let res := fetch_product 3 (net_then GetTimeout (GetResponse 429 JsonError))
               soup_plain "42" world0 in
  res.1 = None /\
  failed_ids res.2 = failed_ids world0 ++ [("42", PStr "Failed")] /\
  requests (trace res.2) = (requests (trace world0) + 3)%nat /\
  consecutive_429 res.2
  = consecutive_429 world0
    + Z.of_nat (length (filter
        (fun a => is_429 (net_then GetTimeout (GetResponse 429 JsonError) "42" a))
        (seq 1 3))).
Proof.
  apply (fetch_exhausted_failed 3 _ soup_plain "42" world0).
  intros a Ha.
  assert (a = 1 \/ a = 2 \/ a = 3)%nat as [-> | [-> | ->]] by lia; reflexivity.
Defined.

(** C1 as stated fails: with MAX_RETRIES = 3, three 429 answers and three
    timeouts leave the very same record ("42", "Failed"), so the two causes
    of exhaustion do not get distinct reasons. *)
Lemma exhaustion_reasons_not_distinct :
  let w429 := (fetch_product 3 (net_always (GetResponse 429 JsonError))
                 soup_plain "42" world0).2 in
  let wto := (fetch_product 3 (net_always GetTimeout)
                 soup_plain "42" world0).2 in
  failed_ids w429 = [("42", PStr "Failed")] /\
  failed_ids wto = [("42", PStr "Failed")] /\
  ~ (exists r429 rto : pyval,
        r429 <> rto /\
        failed_ids w429 = [("42", r429)] /\ failed_ids wto = [("42", rto)]).
Proof.
  cbv zeta. split; [reflexivity|]. split; [reflexivity|].
  intros (r1 & r2 & Hne & H1 & H2).
  vm_compute in H1, H2. congruence.
Qed.

(** ** Successful responses *)

Section Success.
Variable soup_text : jvalue -> option string.

Lemma build_product_Some d text_desc :
  soup_text (dict_get_default d "description" (JStr "")) = Some text_desc ->
  exists p,
    build_product soup_text (JObj d) = Some p /\
    p !! "id" = Some (dict_get d "id") /\
    p !! "name" = Some (dict_get d "name") /\
    p !! "url_key" = Some (dict_get d "url_key") /\
    p !! "price" = Some (dict_get d "price") /\
    p !! "description" = Some (JStr text_desc) /\
    p !! "image_url" = Some (dict_get d "thumbnail_url").
Proof.
  intros Htext. unfold build_product. rewrite Htext.
  eexists. split; [reflexivity|].
  repeat split; by simplify_map_eq.
Qed.

(** A result dict is never empty, so [if product:] takes it. *)
Lemma build_product_nonempty data p :
  build_product soup_text data = Some p -> p <> ∅.
Proof.
  unfold build_product. destruct data; try discriminate.
  destruct (soup_text _); [|discriminate].
  intros [= <-]. apply insert_non_empty.
Qed.

End Success.

(** A key that is absent reads as null through [data.get(key)]. *)
Lemma dict_get_missing (d : gmap string jvalue) key :
  d !! key = None -> dict_get d key = JNull.
Proof. unfold dict_get. by intros ->. Qed.

(** C9 (as the code has it): a 200 answer whose body is a JSON object,
    reached after retried attempts, gives a result dict whatever keys the
    body lacks, provided the text of the description can be extracted.
    Each of id, name, url_key, price and image_url (read from
    thumbnail_url) is the body's value, null when the key is absent; the
    description is the text extracted from the body's description, or from
    the empty string when that key is absent, so it is a string and not
    null.  The id is the body's, not the requested identifier. *)
Theorem fetch_200_missing_fields
    (max_retries : nat) (net : string -> nat -> get_outcome)
    (soup_text : jvalue -> option string) (pid : string) (k : nat)
    (d : gmap string jvalue) (text_desc : string) (w : world) :
  (k < max_retries)%nat ->
  (forall a, (1 <= a <= k)%nat -> retryable (net pid a) = true) ->
  net pid (S k) = GetResponse 200 (JsonOk (JObj d)) ->
  soup_text (default (JStr "") (d !! "description")) = Some text_desc ->
  let res := fetch_product max_retries net soup_text pid w in
  failed_ids res.2 = failed_ids w /\
  exists p : product,
    res.1 = Some p /\
    p !! "id" = Some (default JNull (d !! "id")) /\
    p !! "name" = Some (default JNull (d !! "name")) /\
    p !! "url_key" = Some (default JNull (d !! "url_key")) /\
    p !! "price" = Some (default JNull (d !! "price")) /\
    p !! "description" = Some (JStr text_desc) /\
    p !! "image_url" = Some (default JNull (d !! "thumbnail_url")).
Proof.
  intros Hk Hretry E Htext res. subst res.
  destruct (build_product_Some soup_text d text_desc Htext) as (p & Hp & Hfields).
  erewrite fetch_product_returns by (eauto using attempt_body_ok).
  cbn [fst snd failed_ids]. rewrite after_retries_failed_ids.
  split; [done|]. by exists p.
Qed.

Lemma fetch_200_missing_fields_witness :
  let res := fetch_product 3
               (net_always (GetResponse 200 (JsonOk (JObj {["id" := JInt 7]}))))
               soup_plain "42" world0 in
  failed_ids res.2 = failed_ids world0 /\
  exists p : product,
    res.1 = Some p /\
    p !! "id" = Some (default JNull (({["id" := JInt 7]} : gmap string jvalue) !! "id")) /\
    p !! "name" = Some (default JNull (({["id" := JInt 7]} : gmap string jvalue) !! "name")) /\
    p !! "url_key" = Some (default JNull (({["id" := JInt 7]} : gmap string jvalue) !! "url_key")) /\
    p !! "price" = Some (default JNull (({["id" := JInt 7]} : gmap string jvalue) !! "price")) /\
    p !! "description" = Some (JStr "") /\
    p !! "image_url" = Some (default JNull (({["id" := JInt 7]} : gmap string jvalue) !! "thumbnail_url")).
Proof.
  apply (fetch_200_missing_fields 3 _ soup_plain "42" 0 {["id" := JInt 7]} "" world0).
  - lia.
  - intros a Ha. lia.
  - reflexivity.
  - reflexivity.
Defined.

(** C9 as stated fails for the description: a 200 answer with the empty
    object as body gives a result whose description is the empty string,
    not null, while the other five fields are null. *)
Lemma missing_description_not_null :
  exists p : product,
    (fetch_product 3 (net_always (GetResponse 200 (JsonOk (JObj ∅))))
       soup_plain "42" world0).1 = Some p /\
    (∅ : gmap string jvalue) !! "description" = None /\
    p !! "id" = Some JNull /\
    p !! "description" = Some (JStr "") /\
    p !! "description" <> Some JNull.
Proof.
  eexists. split; [reflexivity|].
  repeat split; try reflexivity. vm_compute. discriminate.
Qed.

(** ** Frame: a run only adds to the globals *)

Lemma world_app_0_l d : world_app world0 d = d.
Proof. by destruct d. Qed.

Lemma world_app_0_r w : world_app w world0 = w.
Proof.
  destruct w as [f c t]. unfold world_app; cbn.
  by rewrite !app_nil_r, Z.add_0_r.
Qed.

Lemma world_app_assoc w1 w2 w3 :
  world_app (world_app w1 w2) w3 = world_app w1 (world_app w2 w3).
Proof.
  unfold world_app; cbn. by rewrite <- !app_assoc, Z.add_assoc.
Qed.

Lemma framed_mret {A} (a : A) : framed (mret a : M A).
Proof. intros w. cbn. by rewrite world_app_0_r. Qed.

Lemma framed_emit e : framed (emit e).
Proof. intros [f c t]. unfold emit, world_app; cbn. by rewrite app_nil_r, Z.add_0_r. Qed.

Lemma framed_failed_ids_append r : framed (failed_ids_append r).
Proof.
  intros [f c t]. unfold failed_ids_append, world_app; cbn.
  by rewrite app_nil_r, Z.add_0_r.
Qed.

Lemma framed_incr_consecutive_429 : framed incr_consecutive_429.
Proof.
  intros [f c t]. unfold incr_consecutive_429, world_app; cbn.
  by rewrite !app_nil_r.
Qed.

Lemma framed_bind {A B} (c : M A) (k : A -> M B) :
  framed c -> (forall a, framed (k a)) -> framed (c ≫= k).
Proof.
  intros Hc Hk w. unfold mbind, M_bind.
  rewrite (Hc w). destruct (c world0) as [a d]. cbn [fst snd].
  rewrite (Hk a (world_app w d)), (Hk a d). cbn [fst snd].
  by rewrite world_app_assoc.
Qed.

Create HintDb framed.

#[local] Hint Resolve framed_mret framed_emit framed_failed_ids_append
  framed_incr_consecutive_429 : framed.

Ltac framed_tac :=
  repeat first
    [ apply framed_bind; [|intros ?]
    | progress auto with framed ].

Section FrameFetch.
Variable max_retries : nat.
Variable net : string -> nat -> get_outcome.
Variable soup_text : jvalue -> option string.

Lemma framed_attempt_body pid a : framed (attempt_body net soup_text pid a).
Proof.
  unfold attempt_body, on_timeout, on_exception.
  framed_tac.
  destruct (net pid a) as [status body| |]; [|framed_tac..].
  destruct (status =? 429); [framed_tac|].
  destruct (status =? 404); [framed_tac|].
  destruct (negb (status =? 200)); [framed_tac|].
  destruct body as [data| |]; [|framed_tac..].
  destruct (build_product soup_text data); framed_tac.
Qed.

Lemma framed_fetch_loop pid l : framed (fetch_loop net soup_text pid l).
Proof.
  induction l as [|a l IH]; cbn [fetch_loop].
  - framed_tac.
  - apply framed_bind; [apply framed_attempt_body|].
    intros [|v]; [apply IH|apply framed_mret].
Qed.

Lemma framed_fetch_product pid :
  framed (fetch_product max_retries net soup_text pid).
Proof. apply framed_fetch_loop. Qed.

End FrameFetch.

(** ** Every fetch ends, with a result or with one record *)

Ltac finish :=
  run_m; repeat split; eauto;
  try (eexists; split; [|reflexivity]; reflexivity).

Section Outcome.
Variable max_retries : nat.
Variable net : string -> nat -> get_outcome.
Variable soup_text : jvalue -> option string.

Lemma attempt_body_outcome pid a :
  let res := attempt_body net soup_text pid a world0 in
  trace res.2 = attempt_block net pid a /\
  match res.1 with
  | Continue => retryable (net pid a) = true /\ failed_ids res.2 = []
  | Return r => retryable (net pid a) = false /\ outcome_ok pid r res.2
  end.
Proof.
  pose proof build_product_nonempty.
  unfold attempt_body, attempt_block, retryable, retry_block, backoff_of, is_429.
  destruct (net pid a) as [status body| |]; cbn zeta.
  - destruct (status =? 429); [finish|].
    destruct (status =? 404); [finish|].
    destruct (status =? 200); cbn [negb]; [|finish].
    destruct body as [data| |]; [|finish..].
    destruct (build_product soup_text data) as [p|] eqn:Hp; [|finish].
    finish.
  - finish.
  - finish.
Qed.

Lemma fetch_loop_outcome pid l :
  let res := fetch_loop net soup_text pid l world0 in
  trace res.2 = concat (attempt_block net pid <$> performed net pid l) /\
  outcome_ok pid res.1 res.2.
Proof.
  induction l as [|a l IH]; cbn zeta.
  - finish.
  - cbn [fetch_loop performed]. unfold mbind, M_bind.
    destruct (attempt_body_outcome pid a) as [Htr Hres].
    destruct (attempt_body net soup_text pid a world0) as [[|r] d];
      cbn [fst snd] in *; destruct Hres as [-> Hres].
    + rewrite (framed_fetch_loop net soup_text pid l d). cbn [fst snd].
      destruct IH as [IHtr IHres]. split.
      * cbn [world_app trace fmap list_fmap concat]. by rewrite Htr, IHtr.
      * revert IHres. unfold outcome_ok, world_app. cbn [failed_ids].
        rewrite Hres. by destruct (fetch_loop _ _ _ _ _).1.
    + split; [|done]. cbn. by rewrite app_nil_r.
Qed.

Lemma gather_spec batch_ids results w :
  let res := gather max_retries net soup_text batch_ids results w in
  res.1 = results ++ omap (fetch_result max_retries net soup_text) batch_ids /\
  exists fails,
    failed_ids res.2 = failed_ids w ++ fails /\
    fails.*1
    = filter (fun pid => fetch_result max_retries net soup_text pid = None)
        batch_ids /\
    Forall (fun r => is_fetch_error r.2 = true) fails.
Proof.
  revert results w. induction batch_ids as [|pid rest IH]; intros results w.
  - cbn. rewrite !app_nil_r. split; [done|]. exists []. by rewrite app_nil_r.
  - cbn [gather]. unfold mbind, M_bind.
    rewrite (framed_fetch_product max_retries net soup_text pid w).
    destruct (fetch_loop_outcome pid (attempts_range max_retries)) as [_ Hout].
    fold (fetch_product max_retries net soup_text pid world0) in Hout.
    cbn zeta. cbn [omap list_omap].
    fold (fetch_result max_retries net soup_text pid) in *.
    set (d := (fetch_product max_retries net soup_text pid world0).2) in *.
    destruct (fetch_result max_retries net soup_text pid) as [p|] eqn:Hr;
      unfold outcome_ok in Hout.
    + destruct Hout as [Hne Hd].
      assert (results_append results (Some p) = results ++ [p]) as ->
        by (cbn; by rewrite decide_False).
      destruct (IH (results ++ [p]) (world_app w d))
        as [IHres (fails & IHf & IHpids & IHerr)].
      rewrite IHres, <- app_assoc. split; [done|].
      exists fails. rewrite IHf. cbn [world_app failed_ids]. rewrite Hd, app_nil_r.
      split; [done|]. split; [|done].
      rewrite filter_cons_False; [done|]. by rewrite Hr.
    + destruct Hout as (e & He & Hd). cbn [results_append].
      destruct (IH results (world_app w d))
        as [IHres (fails & IHf & IHpids & IHerr)].
      split; [done|].
      exists ((pid, e) :: fails). rewrite IHf. cbn [world_app failed_ids].
      rewrite Hd, <- app_assoc. split; [done|]. split.
      * rewrite filter_cons_True by done. cbn. by rewrite IHpids.
      * by constructor.
Qed.

End Outcome.

(** ** The semaphore slot along one fetch *)

Lemma sleeps_released_block net pid a held tr :
  sleeps_released held (attempt_block net pid a ++ tr) = sleeps_released false tr.
Proof. unfold attempt_block. by destruct (retryable _). Qed.

Lemma sleeps_holding_block net pid a held tr :
  sleeps_holding held (attempt_block net pid a ++ tr)
  = (if retryable (net pid a) then [backoff_of (net pid a) a] else [])
    ++ sleeps_holding false tr.
Proof. unfold attempt_block. by destruct (retryable _). Qed.

Lemma held_after_block net pid a held tr :
  held_after held (attempt_block net pid a ++ tr) = held_after false tr.
Proof. unfold attempt_block. by destruct (retryable _). Qed.

(** C2 (as the code has it): the events of a fetch are those of its
    attempts, one block per attempt made: acquire the slot, politeness
    delay, request, the backoff sleep when the attempt is retried, release.
    So the slot is held for one attempt at a time and is free at the end,
    and every backoff sleep, after a 429 as after a timeout, happens while
    the slot is held; none happens after the release. *)
Theorem slot_held_through_backoff
    (max_retries : nat) (net : string -> nat -> get_outcome)
    (soup_text : jvalue -> option string) (pid : string) (w : world) :
  let made := performed net pid (attempts_range max_retries) in
  let tr := concat (attempt_block net pid <$> made) in
  trace (fetch_product max_retries net soup_text pid w).2 = trace w ++ tr /\
  sleeps_released false tr = [] /\
  sleeps_holding false tr
  = (fun a => backoff_of (net pid a) a)
      <$> filter (fun a => retryable (net pid a) = true) made /\
  held_after false tr = false.
Proof.
  intros made tr. split.
  - rewrite (framed_fetch_product max_retries net soup_text pid w).
    cbn [snd world_app trace]. f_equal.
    apply (fetch_loop_outcome net soup_text pid (attempts_range max_retries)).
  - subst tr. generalize made. clear.
    induction made as [|a made (IH1 & IH2 & IH3)]; [done|].
    cbn [fmap list_fmap concat].
    rewrite sleeps_released_block, sleeps_holding_block, held_after_block.
    repeat split; [done| |done].
    rewrite IH2. destruct (retryable (net pid a)) eqn:E.
    + by rewrite filter_cons_True by done.
    + rewrite filter_cons_False; [done|]. by rewrite E.
Qed.

(** C2 as stated fails: after a 429 on the first attempt the fetch sleeps
    its 5 seconds of backoff between acquiring and releasing the slot, and
    after a timeout its 2 seconds. *)
Lemma slot_held_while_backing_off :
  let tr429 := trace (fetch_product 3
                   (net_then (GetResponse 429 JsonError) (GetResponse 404 JsonError))
                   soup_plain "42" world0).2 in
  let trto := trace (fetch_product 3
                   (net_then GetTimeout (GetResponse 404 JsonError))
                   soup_plain "42" world0).2 in
  tr429 = [EvAcquire; EvDelay; EvGet (BASE_URL_format "42"); EvSleep 5; EvRelease;
           EvAcquire; EvDelay; EvGet (BASE_URL_format "42"); EvRelease] /\
  sleeps_holding false tr429 = [5] /\
  sleeps_holding false trto = [2] /\
  ~ (sleeps_holding false tr429 = [] /\ sleeps_holding false trto = []).
Proof.
  cbv zeta. repeat split; try reflexivity.
  intros [H _]. vm_compute in H. discriminate.
Qed.

(** ** Strings: printing and reading back a batch index *)

Lemma app_String c s t : String c s +:+ t = String c (s +:+ t).
Proof. reflexivity. Qed.

Lemma app_EmptyString t : "" +:+ t = t.
Proof. reflexivity. Qed.

Lemma string_of_uint_digits d : all_digits (NilEmpty.string_of_uint d) = true.
Proof. induction d; cbn [NilEmpty.string_of_uint all_digits]; by rewrite ?IHd. Qed.

(** A digit is no space, no sign and no separator. *)
Lemma is_digit_other c :
  is_digit c = true ->
  py_isspace c = false /\ Ascii.eqb c "_" = false /\ Ascii.eqb c "." = false /\
  Ascii.eqb c "-" = false /\ Ascii.eqb c "+" = false.
Proof.
  destruct c as [[] [] [] [] [] [] [] []]; vm_compute; intros; by repeat split.
Qed.

Lemma is_digit_no_space c : is_digit c = true -> py_int_isspace c = false.
Proof. destruct c as [[] [] [] [] [] [] [] []]; vm_compute; by intros. Qed.

Lemma py_int_lstrip_digits s : all_digits s = true -> py_int_lstrip s = s.
Proof.
  destruct s as [|c s]; [done|]. cbn [all_digits py_int_lstrip].
  intros [Hc _]%andb_prop. by rewrite (is_digit_no_space c Hc).
Qed.

Lemma py_int_rstrip_digits s : all_digits s = true -> py_int_rstrip s = s.
Proof.
  induction s as [|c s IH]; [done|]. cbn [all_digits py_int_rstrip].
  intros [Hc Hs]%andb_prop. rewrite (IH Hs).
  rewrite (is_digit_no_space c Hc). by destruct s.
Qed.

Lemma drop_underscores_digits s :
  all_digits s = true -> drop_underscores true s = Some s.
Proof.
  induction s as [|c s IH]; [done|]. cbn [all_digits drop_underscores].
  intros [Hc Hs]%andb_prop.
  destruct (is_digit_other c Hc) as (_ & -> & _). by rewrite Hc, (IH Hs).
Qed.

(** [int] reads back the digits of a number that is not negative. *)
Lemma py_int_digits d :
  d <> Nil -> py_int (NilEmpty.string_of_uint d) = Some (Z.of_uint d).
Proof.
  intros Hd. pose proof (string_of_uint_digits d) as Hdig.
  pose proof (NilEmpty.usu d) as Husu.
  unfold py_int. rewrite py_int_lstrip_digits, py_int_rstrip_digits by done.
  destruct (NilEmpty.string_of_uint d) as [|c s] eqn:E; [by destruct d|].
  cbn [all_digits] in Hdig. apply andb_prop in Hdig as [Hc Hs].
  unfold split_sign.
  destruct (is_digit_other c Hc) as (_ & Hu & _ & -> & ->).
  cbn [drop_underscores]. rewrite Hu, Hc, (drop_underscores_digits s Hs).
  cbn [fmap option_fmap option_map mbind option_bind]. by rewrite Husu.
Qed.

Lemma to_uint_not_Nil p : Pos.to_uint p <> Nil.
Proof.
  intros E. pose proof (DecimalZ.of_to (Z.pos p)) as H.
  cbn in H. by rewrite E in H.
Qed.

Lemma py_int_str n : 0 <= n -> py_int (py_str_int n) = Some n.
Proof.
  intros Hn. pose proof (DecimalZ.of_to n) as Hof.
  unfold py_str_int. destruct n as [|p|p]; [done| |lia].
  cbn [Z.to_int NilEmpty.string_of_int] in *.
  rewrite py_int_digits by apply to_uint_not_Nil. by f_equal.
Qed.

Lemma py_str_int_digits n : 0 <= n -> all_digits (py_str_int n) = true.
Proof.
  intros Hn. unfold py_str_int. destruct n as [|p|p]; [done| |lia].
  apply string_of_uint_digits.
Qed.


Lemma app_EmptyString_r s : s +:+ "" = s.
Proof. induction s as [|c s IH]; [done|]. by rewrite app_String, IH. Qed.


Lemma py_endswith_app s p : py_endswith (s +:+ p) p = true.
Proof.
  induction s as [|c s IH].
  - rewrite app_EmptyString. destruct p; cbn [py_endswith]; by rewrite String.eqb_refl.
  - rewrite app_String. cbn [py_endswith]. rewrite IH. by case_match.
Qed.

Lemma is_batch_file_name i : is_batch_file (batch_file_name i) = true.
Proof.
  unfold is_batch_file, batch_file_name. apply andb_true_intro. split.
  - unfold py_startswith. rewrite !app_String, app_EmptyString. cbn.
    by destruct (_ +:+ _).
  - rewrite !app_String, app_EmptyString. cbn [py_endswith String.eqb Ascii.eqb Bool.eqb].
    apply py_endswith_app.
Qed.

(** ** The checkpoint *)

Lemma foldr_max_spec (l : list Z) :
  match foldr (fun x acc => Some (from_option (Z.max x) x acc)) None l with
  | Some m => m ∈ l /\ forall x, x ∈ l -> x <= m
  | None => l = []
  end.
Proof.
  induction l as [|y l IH]; [done|]. cbn [foldr].
  destruct (foldr _ None l) as [m|]; cbn [from_option].
  - destruct IH as [Hm Hle]. split.
    + destruct (Z.max_spec y m) as [[_ ->]|[_ ->]]; [by right|by left].
    + intros x [->|Hx]%elem_of_cons; [lia|]. specialize (Hle x Hx). lia.
  - subst l. split; [by left|]. by intros x ->%list_elem_of_singleton.
Qed.

Lemma set_max_spec (s : gset Z) :
  match set_max s with
  | Some m => m ∈ s /\ forall x, x ∈ s -> x <= m
  | None => s = ∅
  end.
Proof.
  unfold set_max. pose proof (foldr_max_spec (elements s)) as H.
  destruct (foldr _ None (elements s)) as [m|].
  - destruct H as [Hm Hle]. split; [by apply elem_of_elements|].
    intros x Hx. by apply Hle, elem_of_elements.
  - by apply elements_empty_inv, leibniz_equiv in H.
Qed.

(** The maximum of a set is the member that bounds the others. *)
Lemma set_max_is (s : gset Z) m :
  m ∈ s -> (forall x, x ∈ s -> x <= m) -> set_max s = Some m.
Proof.
  intros Hm Hle. pose proof (set_max_spec s) as H.
  destruct (set_max s) as [m'|].
  - destruct H as [Hm' Hle']. f_equal.
    specialize (Hle m' Hm'). specialize (Hle' m Hm). lia.
  - subst s. set_solver.
Qed.

Lemma elem_of_py_range a b i : i ∈ py_range a b <-> a <= i < b.
Proof.
  unfold py_range. rewrite list_elem_of_fmap. split.
  - intros (n & -> & Hn%elem_of_seq). lia.
  - intros Hi. exists (Z.to_nat (i - a)). split; [lia|].
    apply elem_of_seq. lia.
Qed.

(** What the comprehension collects: the index of every listed file that
    passes the condition, provided each of them can be read. *)
Lemma done_batches_spec listing :
  (forall f, f ∈ listing -> is_batch_file f = true ->
             is_Some (batch_index_of f)) ->
  exists done,
    done_batches listing = Some done /\
    forall i, i ∈ done <->
      exists f, f ∈ listing /\ is_batch_file f = true /\
                batch_index_of f = Some i.
Proof.
  intros Hread. unfold done_batches.
  induction listing as [|f listing IH].
  - exists ∅. split; [done|]. intros i. split; [set_solver|].
    intros (f & Hf & _). by apply elem_of_nil in Hf.
  - destruct IH as (done & Hdone & Hmem).
    { intros g Hg. apply Hread. by right. }
    destruct (is_batch_file f) eqn:Hf.
    + rewrite filter_cons_True by (by rewrite Hf).
      destruct (Hread f) as [i Hi]; [by left|done|].
      cbn [mapM]. rewrite Hi. cbn [mbind option_bind].
      destruct (mapM batch_index_of (filter is_batch_file listing)) as [l|];
        [|discriminate].
      injection Hdone as <-. exists (list_to_set (i :: l)).
      split; [done|]. intros j. cbn [list_to_set].
      rewrite elem_of_union, elem_of_singleton, Hmem. split.
      * intros [->|(g & Hg & Hgb & Hgi)].
        -- exists f. split; [by left|done].
        -- exists g. split; [by right|done].
      * intros (g & [->|Hg]%elem_of_cons & Hgb & Hgi).
        -- left. congruence.
        -- right. by exists g.
    + rewrite filter_cons_False by (rewrite Hf; exact id).
      exists done. split; [done|]. intros j. rewrite Hmem. split.
      * intros (g & Hg & Hgb & Hgi). exists g. split; [by right|done].
      * intros (g & [->|Hg]%elem_of_cons & Hgb & Hgi); [congruence|].
        by exists g.
Qed.

Lemma BATCH_SIZE_pos : 0 < BATCH_SIZE.
Proof. done. Qed.

(** Cutting a list into pieces of [n] and gluing them gives the list. *)
Lemma concat_pieces {A} (n m : nat) (l : list A) :
  (0 < n)%nat -> (length l <= m * n)%nat ->
  concat ((fun k => take n (drop (k * n) l)) <$> seq 0 m) = l.
Proof.
  intros Hn. revert l. induction m as [|m IH]; intros l Hl.
  - cbn. destruct l; [done|]. cbn in Hl. lia.
  - cbn [seq fmap list_fmap concat]. rewrite Nat.mul_0_l, drop_0.
    rewrite <- fmap_S_seq, <- list_fmap_compose.
    trans (take n l ++ drop n l); [|apply take_drop]. f_equal.
    etrans; [|apply (IH (drop n l)); rewrite length_drop; lia].
    f_equal. apply list_fmap_ext. intros _ k _. cbn.
    by rewrite drop_drop, (Nat.add_comm n).
Qed.

(** For an index from 1 on, the slice of lines 119-121 is the piece of
    BATCH_SIZE identifiers that starts at position
    [(batch_index - 1) * BATCH_SIZE]. *)
Lemma batch_ids_of_piece ids i :
  1 <= i ->
  batch_ids_of ids i
  = take (Z.to_nat BATCH_SIZE) (drop (Z.to_nat ((i - 1) * BATCH_SIZE)) ids).
Proof.
  intros Hi. pose proof BATCH_SIZE_pos as Hb.
  unfold batch_ids_of, py_slice.
  set (len := Z.of_nat (length ids)). set (start := (i - 1) * BATCH_SIZE).
  assert (0 <= start) as Hstart by (subst start; nia).
  assert (0 <= len) as Hlen by (subst len; lia).
  rewrite !(proj2 (Z.ltb_ge _ 0)) by lia.
  destruct (decide (len <= start)) as [Hout|Hin].
  - rewrite !drop_ge by lia. by rewrite !take_nil.
  - rewrite (Z.min_l start len) by lia.
    rewrite (Z.min_l (Z.min (start + BATCH_SIZE) len) len) by lia.
    destruct (decide (start + BATCH_SIZE <= len)) as [Hfull|Hlast].
    + rewrite Z.min_l by lia. do 2 f_equal. lia.
    + rewrite Z.min_r by lia.
      rewrite !take_ge; [done|rewrite length_drop; lia..].
Qed.

Lemma total_batches_bounds ids :
  let n := Z.of_nat (length ids) in
  BATCH_SIZE * (total_batches ids - 1) < n <= BATCH_SIZE * total_batches ids.
Proof.
  cbn zeta. unfold total_batches. pose proof BATCH_SIZE_pos as Hb.
  set (n := Z.of_nat (length ids)).
  pose proof (Z.div_mod (n + BATCH_SIZE - 1) BATCH_SIZE ltac:(lia)) as Hdm.
  pose proof (Z.mod_pos_bound (n + BATCH_SIZE - 1) BATCH_SIZE Hb) as Hmod.
  lia.
Qed.

Lemma batches_partition_pieces (ids : list string) :
  concat (batch_ids_of ids <$> py_range 1 (total_batches ids + 1)) = ids.
Proof.
  pose proof BATCH_SIZE_pos as Hb.
  pose proof (total_batches_bounds ids) as Hbounds. cbn zeta in Hbounds.
  assert (0 <= total_batches ids) as Htotal by nia.
  unfold py_range. rewrite <- list_fmap_compose.
  replace (Z.to_nat (total_batches ids + 1 - 1))
    with (Z.to_nat (total_batches ids)) by lia.
  etrans; [|apply (concat_pieces (Z.to_nat BATCH_SIZE)
                     (Z.to_nat (total_batches ids)) ids); nia].
  f_equal. apply list_fmap_ext. intros _ k _. cbn.
  rewrite batch_ids_of_piece by lia. do 2 f_equal. nia.
Qed.







(** C10: the run starts one past the largest index found, whatever
    indices are missing below it; so a batch whose index is at most that
    maximum is not among the batches of the run, also when it has no
    artifact.  It stays so in every later run, as long as the artifacts
    found now are still there: that run starts beyond the maximum too. *)
Theorem resume_skips_gaps_below_max
    (listing ids : list string) (done : gset Z) (m : Z) :
  done_batches listing = Some done ->
  m ∈ done ->
  (forall x, x ∈ done -> x <= m) ->
  start_batch listing = Some (m + 1) /\
  batches_of_run listing ids = Some (py_range (m + 1) (total_batches ids + 1)) /\
  (forall j, j <= m -> j ∉ py_range (m + 1) (total_batches ids + 1)) /\
  (forall later ids' done',
     done_batches later = Some done' -> done ⊆ done' ->
     exists start,
       start_batch later = Some start /\ m < start /\
       batches_of_run later ids' = Some (py_range start (total_batches ids' + 1)) /\
       forall j, j <= m -> j ∉ py_range start (total_batches ids' + 1)).
Proof.
  intros Hdone Hm Hle.
  assert (start_batch listing = Some (m + 1)) as Hstart.
  { unfold start_batch. rewrite Hdone. cbn [mbind option_bind].
    by rewrite (set_max_is done m). }
  split; [done|]. split; [|split].
  - unfold batches_of_run. by rewrite Hstart.
  - intros j Hj. rewrite elem_of_py_range. lia.
  - intros later ids' done' Hdone' Hsub.
    pose proof (set_max_spec done') as Hmax.
    destruct (set_max done') as [m'|] eqn:E;
      [|specialize (Hsub m Hm); rewrite Hmax in Hsub;
        by apply not_elem_of_empty in Hsub].
    destruct Hmax as [_ Hle']. specialize (Hle' m (Hsub m Hm)).
    assert (start_batch later = Some (m' + 1)) as Hstart'.
    { unfold start_batch. rewrite Hdone'. cbn [mbind option_bind]. by rewrite E. }
    exists (m' + 1). split; [done|]. split; [lia|]. split.
    + unfold batches_of_run. by rewrite Hstart'.
    + intros j Hj. rewrite elem_of_py_range. lia.
Qed.

Lemma resume_skips_gaps_below_max_witness :
  let listing := ["tiki_batch_1.json"; "tiki_batch_3.json"] in
  let ids := replicate 4500 "7" in
  let done : gset Z := list_to_set [1; 3] in
  start_batch listing = Some (3 + 1) /\
  batches_of_run listing ids = Some (py_range (3 + 1) (total_batches ids + 1)) /\
  (forall j, j <= 3 -> j ∉ py_range (3 + 1) (total_batches ids + 1)) /\
  (forall later ids' done',
     done_batches later = Some done' -> done ⊆ done' ->
     exists start,
       start_batch later = Some start /\ 3 < start /\
       batches_of_run later ids' = Some (py_range start (total_batches ids' + 1)) /\
       forall j, j <= 3 -> j ∉ py_range start (total_batches ids' + 1)).
Proof.
  apply (resume_skips_gaps_below_max
           ["tiki_batch_1.json"; "tiki_batch_3.json"] (replicate 4500 "7")
           (list_to_set [1; 3]) 3).
  - reflexivity.
  - apply elem_of_list_to_set, list_elem_of_In. vm_compute. tauto.
  - intros x Hx. apply elem_of_list_to_set, list_elem_of_In in Hx.
    destruct Hx as [<- | [<- | []]]; lia.
Defined.

(** ** The failure log *)

Lemma py_str_int_not_error n : py_str_int n <> "error".
Proof.
  destruct (Z.lt_ge_cases n 0) as [Hn|Hn].
  - unfold py_str_int. by destruct n.
  - pose proof (py_str_int_digits n Hn) as Hdig.
    intros E. by rewrite E in Hdig.
Qed.

(** No record of a failure reads like the header. *)
Lemma data_record_not_header r :
  is_fetch_error r.2 = true -> data_record r <> header_record.
Proof.
  destruct r as [pid [n|s]]; unfold data_record, header_record; cbn.
  - intros _ [= _ E]. by apply py_str_int_not_error in E.
  - intros [->%bool_decide_eq_true| ->%bool_decide_eq_true]%orb_prop; discriminate.
Qed.

Lemma filter_header_data failed :
  Forall (fun r => is_fetch_error r.2 = true) failed ->
  filter (fun r => r = header_record) (data_record <$> failed) = [].
Proof.
  induction 1 as [|r failed Hr _ IH]; [done|]. cbn [fmap list_fmap].
  rewrite filter_cons_False by (by apply data_record_not_header). apply IH.
Qed.

Lemma headers_to_csv_append failed file :
  Forall (fun r => is_fetch_error r.2 = true) failed ->
  headers (to_csv_append failed file)
  = (headers file + if write_header file then 1 else 0)%nat.
Proof.
  intros Herr. unfold headers, to_csv_append. cbn [from_option id].
  rewrite !filter_app, !length_app, filter_header_data by done.
  destruct (write_header file); [|cbn; lia].
  rewrite filter_cons_True by done. cbn. lia.
Qed.

Lemma flush_failed_ok failed file :
  Forall (fun r => is_fetch_error r.2 = true) failed ->
  log_ok file -> log_ok (flush_failed failed file).1.
Proof.
  intros Herr Hok. destruct failed as [|r failed]; [done|].
  cbn [flush_failed fst].
  assert (exists rec content, to_csv_append (r :: failed) file = Some (rec :: content))
    as (rec & content & E).
  { unfold to_csv_append.
    destruct file as [[|rec content]|]; cbn; eauto. }
  pose proof (headers_to_csv_append (r :: failed) file Herr) as Hh.
  rewrite E in *. cbn [log_ok]. rewrite Hh.
  destruct file as [[|rec' content']|]; [done| |done].
  cbn [log_ok] in Hok. rewrite Hok. unfold write_header.
  by rewrite bool_decide_eq_false_2.
Qed.

Lemma flush_failed_appends failed file :
  exists added, (flush_failed failed file).1
                = match failed, file with
                  | [], None => None
                  | _, _ => Some (default [] file ++ added)
                  end.
Proof.
  destruct failed as [|r failed].
  - exists []. destruct file; cbn; by rewrite ?app_nil_r.
  - eexists. by destruct file.
Qed.

Lemma flushes_app file buffers1 buffers2 :
  flushes file (buffers1 ++ buffers2) = flushes (flushes file buffers1) buffers2.
Proof. apply foldl_app. Qed.

Lemma flushes_ok file buffers :
  Forall (Forall (fun r => is_fetch_error r.2 = true)) buffers ->
  log_ok file -> log_ok (flushes file buffers).
Proof.
  intros Herr. revert file.
  induction Herr as [|failed buffers Hf _ IH]; intros file Hok; [done|].
  cbn [flushes foldl]. apply IH. by apply flush_failed_ok.
Qed.

Lemma flushes_appends content buffers :
  exists added, flushes (Some content) buffers = Some (content ++ added).
Proof.
  revert content. induction buffers as [|failed buffers IH]; intros content.
  - exists []. by rewrite app_nil_r.
  - cbn [flushes foldl].
    destruct (flush_failed_appends failed (Some content)) as [added ->].
    assert (match failed with
            | [] | _ => Some (default [] (Some content) ++ added)
            end = Some (content ++ added)) as -> by (by destruct failed).
    destruct (IH (content ++ added)) as [added' E]. unfold flushes in E.
    rewrite E. exists (added ++ added'). by rewrite app_assoc.
Qed.

Lemma flush_failed_nonempty failed file :
  failed <> [] \/ (exists r c, file = Some (r :: c)) ->
  exists r c, (flush_failed failed file).1 = Some (r :: c).
Proof.
  destruct failed as [|x failed].
  - intros [?|Hfile]; [done|]. exact Hfile.
  - intros _. cbn [flush_failed fst]. unfold to_csv_append.
    destruct file as [[|r c]|]; cbn; eauto.
Qed.

Lemma flushes_nonempty file buffers :
  (exists failed, failed ∈ buffers /\ failed <> []) \/
  (exists r c, file = Some (r :: c)) ->
  exists r c, flushes file buffers = Some (r :: c).
Proof.
  revert file. induction buffers as [|failed buffers IH]; intros file H.
  - destruct H as [(failed & Hin & _)|H]; [by apply elem_of_nil in Hin|done].
  - cbn [flushes foldl]. apply IH.
    destruct H as [(x & [->|Hin]%elem_of_cons & Hne)|H].
    + right. apply flush_failed_nonempty. by left.
    + left. by exists x.
    + right. apply flush_failed_nonempty. by right.
Qed.

(** C6: take a failure log that is absent, empty, or has its header once,
    and any two runs after one another, each flushing the buffers of its
    batches, the second run against the file the first one left.  The log
    stays absent or empty or has its header exactly once, after each run;
    it has it exactly once as soon as one buffer was not empty.  What was
    in the file stays in front, the flushes only add behind it.  One flush
    with an empty buffer leaves the file alone; otherwise it appends the
    header when the file is absent or empty, and only then, followed by one
    record per failure. *)
Theorem failure_log_header_once
    (file : option (list csv_record))
    (run1 run2 : list (list (string * pyval))) :
  log_ok file ->
  Forall (Forall (fun r => is_fetch_error r.2 = true)) (run1 ++ run2) ->
  let after1 := flushes file run1 in
  let after2 := flushes after1 run2 in
  log_ok after1 /\ log_ok after2 /\
  after2 = flushes file (run1 ++ run2) /\
  ((exists failed, failed ∈ run1 ++ run2 /\ failed <> []) ->
   headers after2 = 1%nat) /\
  (forall content, file = Some content ->
     exists added1 added2,
       after1 = Some (content ++ added1) /\
       after2 = Some (content ++ added1 ++ added2)) /\
  (forall failed f,
     (flush_failed failed f).1
     = match failed with
       | [] => f
       | _ :: _ =>
           Some (default [] f
                 ++ (if write_header f then [header_record] else [])
                 ++ (data_record <$> failed))
       end) /\
  (forall f, write_header f = true <-> f = None \/ f = Some []).
Proof.
  intros Hok [Herr1 Herr2]%Forall_app after1 after2.
  assert (log_ok after1) as Hok1 by (by apply flushes_ok).
  assert (log_ok after2) as Hok2 by (by apply flushes_ok).
  assert (after2 = flushes file (run1 ++ run2)) as Happ
    by (by rewrite flushes_app).
  repeat split; try done.
  - intros Hne.
    destruct (flushes_nonempty file (run1 ++ run2)) as (r & c & E); [by left|].
    rewrite <- Happ in E. by rewrite E in *.
  - intros content ->.
    destruct (flushes_appends content run1) as [added1 E1].
    destruct (flushes_appends (content ++ added1) run2) as [added2 E2].
    exists added1, added2. subst after2 after1.
    by rewrite E1, E2, <- app_assoc.
  - intros failed f. by destruct failed.
  - destruct f as [[|r c]|]; cbn; intros H; try done; by eauto.
  - intros [->| ->]; done.
Qed.

Lemma failure_log_header_once_witness :
  let file := Some [header_record; ["42"; "404"]] in
  let run1 := [[("7", PInt 500)]; []] in
  let run2 := [[("8", PStr "Failed"); ("9", PStr "Exception")]] in
  let after1 := flushes file run1 in
  let after2 := flushes after1 run2 in
  log_ok after1 /\ log_ok after2 /\
  after2 = flushes file (run1 ++ run2) /\
  ((exists failed, failed ∈ run1 ++ run2 /\ failed <> []) ->
   headers after2 = 1%nat) /\
  (forall content, file = Some content ->
     exists added1 added2,
       after1 = Some (content ++ added1) /\
       after2 = Some (content ++ added1 ++ added2)) /\
  (forall failed f,
     (flush_failed failed f).1
     = match failed with
       | [] => f
       | _ :: _ =>
           Some (default [] f
                 ++ (if write_header f then [header_record] else [])
                 ++ (data_record <$> failed))
       end) /\
  (forall f, write_header f = true <-> f = None \/ f = Some []).
Proof.
  apply (failure_log_header_once
           (Some [header_record; ["42"; "404"]])
           [[("7", PInt 500)]; []]
           [[("8", PStr "Failed"); ("9", PStr "Exception")]]).
  - reflexivity.
  - repeat constructor.
Defined.

(** ** The semaphore under the event loop *)

Lemma count_phase_insert p (ts : list (string * phase)) i t t' :
  ts !! i = Some t' ->
  (count_phase p (<[i := t]> ts) + (if p t'.2 then 1 else 0)
   = count_phase p ts + (if p t.2 then 1 else 0))%nat.
Proof.
  intros Hi. unfold count_phase.
  rewrite insert_take_drop by (by eapply lookup_lt_Some).
  rewrite <- (take_drop_middle ts i t' Hi) at 3.
  rewrite !sum_list_with_app. cbn [sum_list_with]. lia.
Qed.

Lemma in_request_holds ph : in_request ph = true -> holds_slot ph = true.
Proof. by destruct ph. Qed.

Lemma in_flight_le_holders s : (in_flight s <= holders s)%nat.
Proof.
  unfold in_flight, holders, count_phase.
  induction (tasks s) as [|[pid ph] ts IH]; [done|]. cbn [sum_list_with snd].
  pose proof (in_request_holds ph).
  destruct (in_request ph), (holds_slot ph); try lia.
Qed.

Section EventLoopFacts.
Variable max_retries : nat.
Variable net : string -> nat -> get_outcome.
Variable soup_text : jvalue -> option string.

Abbreviation task_step' := (task_step max_retries net soup_text).
Abbreviation run_schedule' := (run_schedule max_retries net soup_text).

(** A step moves a slot between the semaphore and the task, or moves
    none. *)
Lemma task_step_slots i s s' :
  task_step' i s = Some s' ->
  (sem_value s' + holders s' = sem_value s + holders s)%nat.
Proof.
  unfold task_step, holders, set_phase.
  destruct (tasks s !! i) as [[pid ph]|] eqn:Hi; [|discriminate].
  destruct ph as [a|a|a|a|r].
  - destruct (a <=? max_retries)%nat.
    + destruct (0 <? sem_value s)%nat eqn:Hsem; [|discriminate].
      apply Nat.ltb_lt in Hsem. intros [= <-]. cbn [sem_value tasks].
      pose proof (count_phase_insert holds_slot _ i (pid, Delaying a) _ Hi) as H.
      cbn in H. lia.
    + intros [= <-]. cbn [sem_value tasks].
      pose proof (count_phase_insert holds_slot _ i (pid, Returned None) _ Hi) as H.
      cbn in H. lia.
  - intros [= <-]. cbn [sem_value tasks].
    pose proof (count_phase_insert holds_slot _ i (pid, Requesting a) _ Hi) as H.
    cbn in H. lia.
  - destruct (attempt_body net soup_text pid a world0) as [[|v] d];
      intros [= <-]; cbn [sem_value tasks].
    + pose proof (count_phase_insert holds_slot _ i (pid, BackingOff a) _ Hi) as H.
      cbn in H. lia.
    + pose proof (count_phase_insert holds_slot _ i (pid, Returned v) _ Hi) as H.
      cbn in H. lia.
  - intros [= <-]. cbn [sem_value tasks].
    pose proof (count_phase_insert holds_slot _ i (pid, AtLoop (S a)) _ Hi) as H.
    cbn in H. lia.
  - discriminate.
Qed.

Lemma run_schedule_slots schedule s :
  let s' := run_schedule' schedule s in
  (sem_value s' + holders s' = sem_value s + holders s)%nat.
Proof.
  revert s. induction schedule as [|i schedule IH]; intros s; [done|].
  cbn [run_schedule foldl]. cbn zeta in IH. unfold run_schedule in IH.
  rewrite IH. destruct (task_step' i s) as [s1|] eqn:E; [|done].
  by apply task_step_slots in E.
Qed.

End EventLoopFacts.

Lemma batch_start_holders max_concurrency batch_ids failed count_429 :
  holders (batch_start max_concurrency batch_ids failed count_429) = 0%nat.
Proof.
  unfold holders, batch_start, count_phase. cbn [tasks].
  induction batch_ids as [|pid ids IH]; [done|]. cbn. by rewrite IH.
Qed.

(** C7: however the event loop interleaves the tasks of a batch, of any
    size, the tasks that hold a slot and the free slots always add up to
    MAX_CONCURRENCY; a task executes its request only while it holds a
    slot, so at no point are more than MAX_CONCURRENCY requests being
    executed. *)
Theorem in_flight_bounded
    (max_concurrency max_retries : nat) (net : string -> nat -> get_outcome)
    (soup_text : jvalue -> option string) (batch_ids : list string)
    (failed : list (string * pyval)) (count_429 : Z) (schedule : list nat) :
  let s := run_schedule max_retries net soup_text schedule
             (batch_start max_concurrency batch_ids failed count_429) in
  (sem_value s + holders s = max_concurrency)%nat /\
  (in_flight s <= holders s)%nat /\
  (in_flight s <= max_concurrency)%nat.
Proof.
  intros s.
  pose proof (run_schedule_slots max_retries net soup_text schedule
                (batch_start max_concurrency batch_ids failed count_429)) as H.
  cbn zeta in H. fold s in H. rewrite batch_start_holders in H. cbn [sem_value batch_start] in H.
  pose proof (in_flight_le_holders s). lia.
Qed.

(** ** What the tasks return under the event loop *)

Section EventLoopResults.
Variable max_retries : nat.
Variable net : string -> nat -> get_outcome.
Variable soup_text : jvalue -> option string.

Abbreviation phase_ok' := (phase_ok max_retries net soup_text).
Abbreviation fetch_result' := (fetch_result max_retries net soup_text).

Abbreviation tasks_ok' := (tasks_ok max_retries net soup_text).

(** The phase a step gives to the task it runs. *)
Lemma task_step_inv i s s' :
  task_step max_retries net soup_text i s = Some s' ->
  exists pid ph ph',
    tasks s !! i = Some (pid, ph) /\
    tasks s' = <[i := (pid, ph')]> (tasks s) /\
    (phase_ok' pid ph -> phase_ok' pid ph') /\
    (phase_ok' pid ph -> remaining max_retries ph' < remaining max_retries ph)%nat /\
    (length (sys_failed_ids s') + (if returned_none ph then 1 else 0)
     = length (sys_failed_ids s) + (if returned_none ph' then 1 else 0))%nat.
Proof.
  unfold task_step, set_phase.
  destruct (tasks s !! i) as [[pid ph]|] eqn:Hi; [|discriminate].
  destruct ph as [a|a|a|a|r].
  - destruct (a <=? max_retries)%nat eqn:Ha.
    + apply Nat.leb_le in Ha.
      destruct (0 <? sem_value s)%nat; [|discriminate].
      intros [= <-]. exists pid, (AtLoop a), (Delaying a).
      cbn [tasks sys_failed_ids phase_ok remaining returned_none].
      split; [done|]. split; [done|]. split; [|split].
      * intros [? ?]. split; [lia|done].
      * lia.
      * lia.
    + apply Nat.leb_gt in Ha.
      intros [= <-]. exists pid, (AtLoop a), (Returned None).
      cbn [tasks sys_failed_ids phase_ok remaining returned_none].
      split; [done|]. split; [done|]. split; [|split].
      * intros [Hrange Hretry]. unfold fetch_result.
        rewrite fetch_product_exhausted; [done|].
        intros b Hb. apply Hretry. lia.
      * lia.
      * rewrite length_app. cbn [length]. lia.
  - intros [= <-]. exists pid, (Delaying a), (Requesting a).
    cbn [tasks sys_failed_ids phase_ok remaining returned_none].
    split; [done|]. split; [done|]. split; [done|split].
    + intros [? _]. lia.
    + lia.
  - destruct (attempt_body_outcome net soup_text pid a) as [_ Hout].
    destruct (attempt_body net soup_text pid a world0) as [[|v] d] eqn:Hbody;
      cbn [fst snd] in Hout; intros [= <-].
    + destruct Hout as [Hretry Hfailed].
      exists pid, (Requesting a), (BackingOff a).
      cbn [tasks sys_failed_ids phase_ok remaining returned_none].
      split; [done|]. split; [done|]. split; [|split].
      * intros [Hrange Hprev]. split; [done|]. intros b Hb.
        destruct (decide (b = a)) as [->|]; [done|]. apply Hprev. lia.
      * intros [? _]. lia.
      * rewrite length_app, Hfailed. cbn [length]. lia.
    + destruct Hout as [_ Hout].
      exists pid, (Requesting a), (Returned v).
      cbn [tasks sys_failed_ids phase_ok remaining].
      split; [done|]. split; [done|]. split; [|split].
      * intros [Hrange Hprev]. unfold fetch_result.
        destruct a as [|k]; [lia|].
        erewrite (fetch_product_returns max_retries net soup_text pid k world0);
          [done|lia| |].
        -- intros b Hb. apply Hprev. lia.
        -- by rewrite framed_attempt_body, Hbody.
      * intros [? _]. lia.
      * rewrite length_app. unfold outcome_ok in Hout.
        destruct v as [p|].
        -- destruct Hout as [_ ->]. cbn. lia.
        -- destruct Hout as (e & _ & ->). cbn. lia.
  - intros [= <-]. exists pid, (BackingOff a), (AtLoop (S a)).
    cbn [tasks sys_failed_ids phase_ok remaining returned_none].
    split; [done|]. split; [done|]. split; [|split].
    + intros [Hrange Hprev]. split; [lia|]. intros b Hb. apply Hprev. lia.
    + intros [? _]. lia.
    + lia.
  - discriminate.
Qed.

Lemma task_step_ok i s s' :
  task_step max_retries net soup_text i s = Some s' -> tasks_ok' s -> tasks_ok' s'.
Proof.
  intros (pid & ph & ph' & Hi & Ht & Hok & _)%task_step_inv Hall j pid' ph'' Hj.
  rewrite Ht in Hj. destruct (decide (i = j)) as [<-|Hne].
  - rewrite list_lookup_insert_eq in Hj by (by eapply lookup_lt_Some).
    injection Hj as <- <-. eauto.
  - rewrite list_lookup_insert_ne in Hj by done. eauto.
Qed.

Lemma task_step_failed i s s' :
  task_step max_retries net soup_text i s = Some s' ->
  (length (sys_failed_ids s') + count_phase returned_none (tasks s)
   = length (sys_failed_ids s) + count_phase returned_none (tasks s'))%nat.
Proof.
  intros (pid & ph & ph' & Hi & -> & _ & _ & Hlen)%task_step_inv.
  pose proof (count_phase_insert returned_none _ i (pid, ph') _ Hi) as H.
  cbn [snd] in H. lia.
Qed.

Lemma task_step_remaining i s s' :
  task_step max_retries net soup_text i s = Some s' -> tasks_ok' s ->
  (remaining_steps max_retries s' < remaining_steps max_retries s)%nat.
Proof.
  intros (pid & ph & ph' & Hi & Ht & _ & Hlt & _)%task_step_inv Hall.
  specialize (Hlt (Hall _ _ _ Hi)). unfold remaining_steps. rewrite Ht.
  rewrite insert_take_drop by (by eapply lookup_lt_Some).
  rewrite <- (take_drop_middle (tasks s) i _ Hi) at 3.
  rewrite !sum_list_with_app. cbn [sum_list_with snd]. lia.
Qed.

Lemma run_schedule_cons i schedule s :
  run_schedule max_retries net soup_text (i :: schedule) s
  = run_schedule max_retries net soup_text schedule
      (default s (task_step max_retries net soup_text i s)).
Proof. reflexivity. Qed.

Lemma run_schedule_ok schedule s :
  tasks_ok' s ->
  let s' := run_schedule max_retries net soup_text schedule s in
  tasks_ok' s' /\
  (length (sys_failed_ids s') + count_phase returned_none (tasks s)
   = length (sys_failed_ids s) + count_phase returned_none (tasks s'))%nat /\
  (remaining_steps max_retries s' <= remaining_steps max_retries s)%nat.
Proof.
  revert s. induction schedule as [|i schedule IH]; intros s Hok; [done|].
  rewrite run_schedule_cons.
  destruct (task_step max_retries net soup_text i s) as [s1|] eqn:E;
    cbn [from_option id]; [|by apply IH].
  destruct (IH s1) as (Hok' & Hlen & Hrem); [by eapply task_step_ok|].
  pose proof (task_step_failed _ _ _ E). pose proof (task_step_remaining _ _ _ E Hok).
  cbn zeta. split; [done|]. lia.
Qed.

End EventLoopResults.

(** ** No task gets stuck *)

Lemma count_phase_pos p (ts : list (string * phase)) :
  (0 < count_phase p ts)%nat ->
  exists j pid ph, ts !! j = Some (pid, ph) /\ p ph = true.
Proof.
  unfold count_phase. induction ts as [|[pid ph] ts IH]; cbn [sum_list_with snd].
  - lia.
  - destruct (p ph) eqn:Hp.
    + intros _. by exists 0%nat, pid, ph.
    + intros H. destruct IH as (j & pid' & ph' & Hj & Hp'); [lia|].
      by exists (S j), pid', ph'.
Qed.

Lemma count_phase_zero p (ts : list (string * phase)) i pid ph :
  count_phase p ts = 0%nat -> ts !! i = Some (pid, ph) -> p ph = false.
Proof.
  unfold count_phase. revert i.
  induction ts as [|[pid' ph'] ts IH]; intros i; cbn [sum_list_with snd]; [done|].
  destruct i as [|i]; cbn [lookup list_lookup].
  - intros H [= -> ->]. destruct (p ph); [lia|done].
  - intros H. apply IH. lia.
Qed.

Section Progress.
Variable max_retries : nat.
Variable net : string -> nat -> get_outcome.
Variable soup_text : jvalue -> option string.

Lemma holder_steps j s pid ph :
  tasks s !! j = Some (pid, ph) -> holds_slot ph = true ->
  is_Some (task_step max_retries net soup_text j s).
Proof.
  intros Hj Hh. unfold task_step. rewrite Hj.
  destruct ph as [a|a|a|a|r]; try done.
  by destruct (attempt_body net soup_text pid a world0) as [[|v] d].
Qed.

(** While a task has not returned, some task can run, as long as the
    semaphore has a slot at all. *)
Lemma some_task_steps s i pid ph :
  (0 < sem_value s + holders s)%nat ->
  tasks s !! i = Some (pid, ph) -> is_returned ph = false ->
  exists j, is_Some (task_step max_retries net soup_text j s).
Proof.
  intros Hslots Hi Hph.
  destruct (holds_slot ph) eqn:Hh; [exists i; by eapply holder_steps|].
  destruct ph as [a|a|a|a|r]; try done.
  destruct (decide (0 < sem_value s)%nat) as [Hsem|Hsem].
  - exists i. unfold task_step. rewrite Hi.
    destruct (a <=? max_retries)%nat; [|done].
    apply Nat.ltb_lt in Hsem. by rewrite Hsem.
  - destruct (count_phase_pos holds_slot (tasks s)) as (j & pid' & ph' & Hj & Hh');
      [unfold holders in Hslots; lia|].
    exists j. by eapply holder_steps.
Qed.

(** From any state the tasks can be run to the end. *)
Lemma runs_to_the_end (n : nat) s :
  (0 < sem_value s + holders s)%nat ->
  tasks_ok max_retries net soup_text s ->
  (remaining_steps max_retries s <= n)%nat ->
  exists more,
    count_phase (fun ph => negb (is_returned ph))
      (tasks (run_schedule max_retries net soup_text more s)) = 0%nat.
Proof.
  revert s. induction n as [|n IH]; intros s Hslots Hok Hrem.
  - exists []. cbn [run_schedule foldl].
    destruct (count_phase (fun ph => negb (is_returned ph)) (tasks s)) eqn:E; [done|].
    destruct (count_phase_pos (fun ph => negb (is_returned ph)) (tasks s))
      as (j & pid & ph & Hj & Hph); [lia|].
    pose proof (sum_list_with_in (pid, ph)
                  (fun t => remaining max_retries t.2) (tasks s)) as Hin.
    unfold remaining_steps in Hrem. specialize (Hok j pid ph Hj).
    assert (remaining max_retries ph <= 0)%nat as Hz.
    { etrans; [apply Hin|done]. by eapply list_elem_of_lookup_2. }
    destruct ph as [a|a|a|a|r]; cbn in *; try lia; done.
  - destruct (count_phase (fun ph => negb (is_returned ph)) (tasks s)) eqn:E;
      [by exists []|].
    destruct (count_phase_pos (fun ph => negb (is_returned ph)) (tasks s))
      as (i & pid & ph & Hi & Hph); [lia|].
    apply negb_true_iff in Hph.
    destruct (some_task_steps s i pid ph Hslots Hi Hph) as [j [s1 Hstep]].
    pose proof (task_step_slots max_retries net soup_text j s s1 Hstep) as Hs1.
    pose proof (task_step_ok max_retries net soup_text j s s1 Hstep Hok) as Hok1.
    pose proof (task_step_remaining max_retries net soup_text j s s1 Hstep Hok) as Hr1.
    destruct (IH s1) as [more Hmore]; [lia|done|lia|].
    exists (j :: more). by rewrite run_schedule_cons, Hstep.
Qed.

End Progress.

Lemma batch_start_ok max_retries net soup_text max_concurrency batch_ids failed c :
  tasks_ok max_retries net soup_text
    (batch_start max_concurrency batch_ids failed c).
Proof.
  intros i pid ph. unfold batch_start. cbn [tasks].
  rewrite list_lookup_fmap. destruct (batch_ids !! i); [|done].
  intros [= <- <-]. cbn. split; [lia|]. intros b Hb. lia.
Qed.

Lemma batch_start_returned_none max_concurrency batch_ids failed c :
  count_phase returned_none (tasks (batch_start max_concurrency batch_ids failed c))
  = 0%nat.
Proof.
  unfold batch_start, count_phase. cbn [tasks].
  induction batch_ids as [|pid ids IH]; [done|]. cbn. by rewrite IH.
Qed.

(** ** Failures are data *)

(** C8: a fetch always ends by returning: either a result dict, leaving
    [failed_ids] as it was, or None, having appended exactly one record
    for its identifier, whose error is a status, "Exception" or "Failed".
    In a batch every identifier gets its own outcome whatever the others
    do: the results are those of the identifiers whose fetch gave a dict,
    the records appended are those of the identifiers whose fetch gave
    None, one each, and together they account for the whole batch.  The
    same holds under the event loop, for every interleaving of the tasks
    (MAX_CONCURRENCY being at least 1): a task that has returned has
    returned what its fetch returns on its own, the buffer has grown by one
    record per task that returned None, and whatever has happened so far,
    the tasks can all be run to their return. *)
Theorem failures_are_recorded_not_raised
    (max_concurrency max_retries : nat) (net : string -> nat -> get_outcome)
    (soup_text : jvalue -> option string) :
  (0 < max_concurrency)%nat ->
  (forall pid w,
     let res := fetch_product max_retries net soup_text pid w in
     (exists p, res.1 = Some p /\ failed_ids res.2 = failed_ids w) \/
     (res.1 = None /\
      exists e, is_fetch_error e = true /\
                failed_ids res.2 = failed_ids w ++ [(pid, e)])) /\
  (forall batch_ids w,
     let res := gather max_retries net soup_text batch_ids [] w in
     res.1 = omap (fetch_result max_retries net soup_text) batch_ids /\
     exists fails,
       failed_ids res.2 = failed_ids w ++ fails /\
       fails.*1
       = filter (fun pid => fetch_result max_retries net soup_text pid = None)
           batch_ids /\
       (length res.1 + length fails = length batch_ids)%nat) /\
  (forall batch_ids failed count_429 schedule,
     let start := batch_start max_concurrency batch_ids failed count_429 in
     let s := run_schedule max_retries net soup_text schedule start in
     (forall i pid r,
        tasks s !! i = Some (pid, Returned r) ->
        r = fetch_result max_retries net soup_text pid) /\
     length (sys_failed_ids s)
     = (length failed + count_phase returned_none (tasks s))%nat /\
     exists more,
       let s' := run_schedule max_retries net soup_text (schedule ++ more) start in
       forall i pid ph,
         tasks s' !! i = Some (pid, ph) ->
         ph = Returned (fetch_result max_retries net soup_text pid)).
Proof.
  intros Hmc. split; [|split].
  - intros pid w res. subst res.
    rewrite (framed_fetch_product max_retries net soup_text pid w).
    destruct (fetch_loop_outcome net soup_text pid (attempts_range max_retries))
      as [_ Hout].
    fold (fetch_product max_retries net soup_text pid world0) in Hout.
    cbn [fst snd world_app failed_ids]. unfold outcome_ok in Hout.
    destruct (fetch_product max_retries net soup_text pid world0).1 as [p|].
    + left. exists p. destruct Hout as [_ ->]. by rewrite app_nil_r.
    + right. destruct Hout as (e & He & ->). eauto.
  - intros batch_ids w res. subst res.
    destruct (gather_spec max_retries net soup_text batch_ids [] w)
      as [Hres (fails & Hf & Hpids & _)].
    rewrite Hres. cbn [app]. split; [done|]. exists fails.
    split; [done|]. split; [done|].
    rewrite <- (length_fmap fst fails), Hpids.
    clear. induction batch_ids as [|pid rest IH]; [done|].
    cbn [omap list_omap length].
    destruct (fetch_result max_retries net soup_text pid) eqn:Hr.
    + rewrite filter_cons_False by (by rewrite Hr). cbn [length]. lia.
    + rewrite filter_cons_True by done. cbn [length]. lia.
  - intros batch_ids failed count_429 schedule start s.
    pose proof (batch_start_ok max_retries net soup_text max_concurrency
                  batch_ids failed count_429) as Hok0.
    destruct (run_schedule_ok max_retries net soup_text schedule start Hok0)
      as (Hok & Hlen & _).
    fold s in Hok, Hlen.
    pose proof (run_schedule_slots max_retries net soup_text schedule start) as Hslots.
    cbn zeta in Hslots. fold s in Hslots.
    split; [|split].
    + intros i pid r Hi. apply (Hok i pid _ Hi).
    + subst start. rewrite batch_start_returned_none in Hlen.
      cbn [sys_failed_ids batch_start] in Hlen. lia.
    + destruct (runs_to_the_end max_retries net soup_text
                  (remaining_steps max_retries s) s) as [more Hmore]; [|done|done|].
      { rewrite Hslots. subst start. cbn [sem_value batch_start]. lia. }
      exists more. intros s' i pid ph Hi. subst s'.
      unfold run_schedule in Hi. rewrite foldl_app in Hi.
      fold (run_schedule max_retries net soup_text schedule start) in Hi.
      fold s in Hi.
      fold (run_schedule max_retries net soup_text more s) in Hi.
      destruct (run_schedule_ok max_retries net soup_text more s Hok) as (Hok' & _).
      specialize (Hok' i pid ph Hi).
      pose proof (count_phase_zero _ _ i pid ph Hmore Hi) as Hret.
      destruct ph as [a|a|a|a|r]; try discriminate Hret.
      by rewrite Hok'.
Qed.

Lemma failures_are_recorded_not_raised_witness :
  let max_concurrency := 2%nat in
  let max_retries := 3%nat in
  let net := net_then (GetResponse 429 JsonError) (GetResponse 404 JsonError) in
  let soup_text := soup_plain in
  (forall pid w,
     let res := fetch_product max_retries net soup_text pid w in
     (exists p, res.1 = Some p /\ failed_ids res.2 = failed_ids w) \/
     (res.1 = None /\
      exists e, is_fetch_error e = true /\
                failed_ids res.2 = failed_ids w ++ [(pid, e)])) /\
  (forall batch_ids w,
     let res := gather max_retries net soup_text batch_ids [] w in
     res.1 = omap (fetch_result max_retries net soup_text) batch_ids /\
     exists fails,
       failed_ids res.2 = failed_ids w ++ fails /\
       fails.*1
       = filter (fun pid => fetch_result max_retries net soup_text pid = None)
           batch_ids /\
       (length res.1 + length fails = length batch_ids)%nat) /\
  (forall batch_ids failed count_429 schedule,
     let start := batch_start max_concurrency batch_ids failed count_429 in
     let s := run_schedule max_retries net soup_text schedule start in
     (forall i pid r,
        tasks s !! i = Some (pid, Returned r) ->
        r = fetch_result max_retries net soup_text pid) /\
     length (sys_failed_ids s)
     = (length failed + count_phase returned_none (tasks s))%nat /\
     exists more,
       let s' := run_schedule max_retries net soup_text (schedule ++ more) start in
       forall i pid ph,
         tasks s' !! i = Some (pid, ph) ->
         ph = Returned (fetch_result max_retries net soup_text pid)).
Proof.
  apply (failures_are_recorded_not_raised 2 3
           (net_then (GetResponse 429 JsonError) (GetResponse 404 JsonError))
           soup_plain).
  lia.
Defined.

(** The batch ["A"; "B"; "C"] with MAX_RETRIES = 3: two results, the one
    record ("B", 404), one 429 counted; the flush writes the header and
    that record to a log that did not exist. *)
Example batch_abc :
  let res := gather 3 net_abc soup_plain ["A"; "B"; "C"] [] world0 in
  (fun p => p !! "id") <$> res.1 = [Some (JInt 1); Some (JInt 3)] /\
  failed_ids res.2 = [("B", PInt 404)] /\
  consecutive_429 res.2 = 1 /\
  flush_failed (failed_ids res.2) None
  = (Some [header_record; ["B"; "404"]], []).
Proof. cbv zeta. repeat split; reflexivity. Qed.

(** The same batch under the event loop with two slots, the tasks taken
    in turn: the same results and the same record. *)
Example batch_abc_interleaved :
  let s := run_schedule 3 net_abc soup_plain
             (concat (replicate 12 [0; 1; 2]%nat))
             (batch_start 2 ["A"; "B"; "C"] [] 0) in
  tasks s = [("A", Returned (fetch_result 3 net_abc soup_plain "A"));
             ("B", Returned None);
             ("C", Returned (fetch_result 3 net_abc soup_plain "C"))] /\
  sys_failed_ids s = [("B", PInt 404)] /\
  sys_consecutive_429 s = 1 /\
  sem_value s = 2%nat.
Proof. cbv zeta. repeat split; reflexivity. Qed.

(** * Further properties of the code *)

(** ** The name of an artifact and its index *)

Lemma lacks_digits c s : is_digit c = false -> all_digits s = true -> lacks c s = true.
Proof.
  intros Hc. induction s as [|x s IH]; [done|]. cbn [all_digits lacks].
  intros [Hx Hs]%andb_prop. rewrite (IH Hs), andb_true_r.
  destruct (Ascii.eqb_spec x c) as [->|]; [congruence|done].
Qed.

Lemma py_str_int_neg p :
  py_str_int (Z.neg p) = String "-" (NilEmpty.string_of_uint (Pos.to_uint p)).
Proof. reflexivity. Qed.

Lemma py_str_int_lacks c n :
  is_digit c = false -> c <> "-"%char -> lacks c (py_str_int n) = true.
Proof.
  intros Hc Hm. destruct n as [|p|p].
  - by apply lacks_digits.
  - apply lacks_digits; [done|]. by apply (py_str_int_digits (Z.pos p)).
  - rewrite py_str_int_neg. cbn [lacks].
    rewrite lacks_digits by (done || apply string_of_uint_digits).
    destruct (Ascii.eqb_spec "-" c) as [<-|]; done.
Qed.

(** Splitting a string whose front part has no separator. *)
Lemma py_split_lacks sep ds r :
  lacks sep ds = true ->
  py_split sep (ds +:+ r)
  = match py_split sep r with
    | piece :: rest => (ds +:+ piece) :: rest
    | [] => [ds]
    end.
Proof.
  intros Hds. induction ds as [|c ds IH].
  - rewrite app_EmptyString. destruct (py_split sep r) eqn:E; [|done].
    by destruct r as [|c r]; cbn in E; repeat case_match.
  - cbn [lacks] in Hds. apply andb_prop in Hds as [Hc Hds].
    rewrite app_String. cbn [py_split].
    destruct (Ascii.eqb c sep); [done|].
    rewrite (IH Hds). by destruct (py_split sep r).
Qed.

(** [int] reads back what [str] prints, for every integer. *)
Lemma py_int_str_all n : py_int (py_str_int n) = Some n.
Proof.
  destruct (Z.lt_ge_cases n 0) as [Hn|Hn]; [|by apply py_int_str].
  destruct n as [|p|p]; try lia. rewrite py_str_int_neg.
  pose proof (string_of_uint_digits (Pos.to_uint p)) as Hdig.
  pose proof (NilEmpty.usu (Pos.to_uint p)) as Husu.
  pose proof (to_uint_not_Nil p) as Hnil.
  pose proof (DecimalZ.of_to (Z.neg p)) as Hof. cbn [Z.to_int Z.of_int] in Hof.
  unfold py_int. cbn [py_int_lstrip]. change (py_int_isspace "-") with false.
  cbv iota. cbn [py_int_rstrip]. rewrite py_int_rstrip_digits by done.
  destruct (NilEmpty.string_of_uint (Pos.to_uint p)) as [|c s] eqn:E;
    [by destruct (Pos.to_uint p)|].
  cbn [split_sign]. change (Ascii.eqb "-" "-") with true. cbv iota.
  cbn [all_digits] in Hdig. apply andb_prop in Hdig as [Hc Hs].
  destruct (is_digit_other c Hc) as (_ & Hu & _).
  cbn [drop_underscores]. rewrite Hu, Hc, (drop_underscores_digits s Hs).
  cbn [fmap option_fmap option_map mbind option_bind]. rewrite Husu.
  cbn [mbind option_bind]. by rewrite Hof.
Qed.

Lemma batch_index_of_name_all i : batch_index_of (batch_file_name i) = Some i.
Proof.
  assert (py_split "_" (py_str_int i +:+ ".json") = [py_str_int i +:+ ".json"])
    as Hlast by (by rewrite py_split_lacks by (by apply py_str_int_lacks)).
  assert (py_split "." (py_str_int i +:+ ".json") = [py_str_int i; "json"])
    as Hhead.
  { rewrite py_split_lacks by (by apply py_str_int_lacks).
    change (py_split "." ".json") with [""; "json"]. cbv iota.
    by rewrite app_EmptyString_r. }
  unfold batch_index_of, batch_file_name.
  rewrite !app_String, app_EmptyString. cbn [py_split].
  change ("t" =? "_")%char with false. change ("i" =? "_")%char with false.
  change ("k" =? "_")%char with false. change ("_" =? "_")%char with true.
  change ("b" =? "_")%char with false. change ("a" =? "_")%char with false.
  change ("c" =? "_")%char with false. change ("h" =? "_")%char with false.
  cbv iota. rewrite Hlast. cbn [last from_option id]. rewrite Hhead.
  cbn [hd_error from_option id]. apply py_int_str_all.
Qed.

Lemma batch_file_name_inj i j : batch_file_name i = batch_file_name j -> i = j.
Proof.
  intros E. pose proof (batch_index_of_name_all i) as Hi.
  rewrite E, batch_index_of_name_all in Hi. by injection Hi.
Qed.

(** X1: the name under which a batch is saved passes the condition of the
    checkpoint scan and is read back to the index of the batch, for every
    integer index; so two batches are never saved under one name. *)
Theorem batch_file_name_round_trip :
  (forall i, is_batch_file (batch_file_name i) = true /\
             batch_index_of (batch_file_name i) = Some i) /\
  (forall i j, batch_file_name i = batch_file_name j -> i = j).
Proof.
  split.
  - intros i. split; [apply is_batch_file_name|apply batch_index_of_name_all].
  - apply batch_file_name_inj.
Qed.

(** ** The checkpoint scan on any directory *)

Lemma done_batches_unreadable listing f :
  f ∈ listing -> is_batch_file f = true -> batch_index_of f = None ->
  done_batches listing = None.
Proof.
  intros Hin Hb Hidx. unfold done_batches.
  induction listing as [|g listing IH]; [by apply elem_of_nil in Hin|].
  apply elem_of_cons in Hin as [<-|Hin].
  - rewrite filter_cons_True by (by rewrite Hb). cbn [mapM]. by rewrite Hidx.
  - specialize (IH Hin). destruct (is_batch_file g) eqn:Hg.
    + rewrite filter_cons_True by (by rewrite Hg). cbn [mapM].
      destruct (batch_index_of g); [|done]. cbn [mbind option_bind].
      by destruct (mapM batch_index_of (filter is_batch_file listing)).
    + by rewrite filter_cons_False by (rewrite Hg; exact id).
Qed.

(** Either some listed file passes the condition and cannot be read, and
    the scan raises, or the scan collects the indices of the files that
    pass. *)
Lemma done_batches_cases listing :
  (exists f, f ∈ listing /\ is_batch_file f = true /\ batch_index_of f = None) \/
  (exists done,
     done_batches listing = Some done /\
     forall i, i ∈ done <->
       exists f, f ∈ listing /\ is_batch_file f = true /\
                 batch_index_of f = Some i).
Proof.
  destruct (decide (Exists (fun f => is_batch_file f = true /\ batch_index_of f = None)
                      listing)) as [Hex|Hall].
  - left. apply Exists_exists in Hex as (f & Hf & Hb & Hidx). by exists f.
  - right. apply done_batches_spec. intros f Hf Hb.
    destruct (batch_index_of f) eqn:E; [done|].
    destruct Hall. apply Exists_exists. by exists f.
Qed.

(** X2: in a directory whose batch files have names of ASCII characters,
    not longer than the literals [int] converts, the scan of OUTPUT_DIR
    raises, and with it [main] before any batch, exactly when some listed
    file starts with "tiki_batch_", ends with ".json" and has something
    else than an integer between its last underscore and the following
    dot.  How [int] reads the other names is not modelled. *)
Theorem scan_raises_iff_unreadable_index (listing ids : list string) :
  (forall f, f ∈ listing -> is_batch_file f = true -> int_modelled f = true) ->
  (start_batch listing = None <->
   exists f, f ∈ listing /\ is_batch_file f = true /\ batch_index_of f = None) /\
  (batches_of_run listing ids = None <-> start_batch listing = None).
Proof.
  intros _. split.
  - split.
    + intros Hnone. destruct (done_batches_cases listing)
        as [Hbad|(dn & Hdone & _)]; [done|].
      unfold start_batch in Hnone. by rewrite Hdone in Hnone.
    + intros (f & Hf & Hb & Hidx). unfold start_batch.
      by rewrite (done_batches_unreadable listing f).
  - unfold batches_of_run. by destruct (start_batch listing).
Qed.

Lemma scan_raises_iff_unreadable_index_witness :
  let listing := ["tiki_batch_x.json"; "notes.txt"; "tiki_batch_1.json"] in
  (start_batch listing = None <->
   exists f, f ∈ listing /\ is_batch_file f = true /\ batch_index_of f = None) /\
  (batches_of_run listing ["A"] = None <-> start_batch listing = None).
Proof.
  apply (scan_raises_iff_unreadable_index
           ["tiki_batch_x.json"; "notes.txt"; "tiki_batch_1.json"] ["A"]).
  intros f Hf _. apply list_elem_of_In in Hf.
  destruct Hf as [<- | [<- | [<- | []]]]; reflexivity.
Defined.

Lemma done_batches_ext listing1 listing2 :
  (forall f, is_batch_file f = true -> (f ∈ listing1 <-> f ∈ listing2)) ->
  done_batches listing1 = done_batches listing2.
Proof.
  intros Hsame.
  destruct (done_batches_cases listing1) as [(f & Hf & Hb & Hidx)|(d1 & Hd1 & Hm1)].
  - rewrite (done_batches_unreadable listing1 f) by done.
    rewrite (done_batches_unreadable listing2 f); [done|by apply Hsame|done..].
  - destruct (done_batches_cases listing2)
      as [(f & Hf & Hb & Hidx)|(d2 & Hd2 & Hm2)].
    + rewrite (done_batches_unreadable listing1 f) in Hd1; [done| |done..].
      by apply Hsame.
    + rewrite Hd1, Hd2. f_equal. apply set_eq. intros i.
      rewrite Hm1, Hm2. split; intros (f & Hf & Hb & Hidx); exists f;
        (split; [by apply (Hsame f Hb)|done]).
Qed.

(** X3: the scan looks at the listing only through the set of its files
    that pass the condition: the order in which the directory is listed,
    repetitions and all other files change neither the set of done batches
    nor the batch at which the run starts. *)
Theorem scan_depends_on_batch_files_only (listing1 listing2 : list string) :
  (forall f, is_batch_file f = true -> (f ∈ listing1 <-> f ∈ listing2)) ->
  done_batches listing1 = done_batches listing2 /\
  start_batch listing1 = start_batch listing2.
Proof.
  intros Hsame. pose proof (done_batches_ext listing1 listing2 Hsame) as Hdone.
  split; [done|]. unfold start_batch. by rewrite Hdone.
Qed.

Lemma scan_depends_on_batch_files_only_witness :
  done_batches ["tiki_batch_2.json"; "notes.txt"; "tiki_batch_1.json"]
  = done_batches ["tiki_batch_1.json"; "tiki_batch_2.json"; "tiki_batch_1.json"] /\
  start_batch ["tiki_batch_2.json"; "notes.txt"; "tiki_batch_1.json"]
  = start_batch ["tiki_batch_1.json"; "tiki_batch_2.json"; "tiki_batch_1.json"].
Proof.
  apply (scan_depends_on_batch_files_only
           ["tiki_batch_2.json"; "notes.txt"; "tiki_batch_1.json"]
           ["tiki_batch_1.json"; "tiki_batch_2.json"; "tiki_batch_1.json"]).
  intros f Hb. rewrite !list_elem_of_In. cbn [In]. split.
  - intros [<-|[<-|[<-|[]]]]; [tauto|discriminate Hb|tauto].
  - intros [<-|[<-|[<-|[]]]]; tauto.
Defined.

(** ** The batches of the identifier list *)

(** X4: the batches 1 .. total_batches cut the identifier list into
    consecutive pieces.  The identifier at place [k] of batch [i] is the
    one at place [(i - 1) * BATCH_SIZE + k] of the list; glued in order
    the batches give back the list, so each position is in exactly one
    batch; every batch before the last has BATCH_SIZE identifiers, the
    last has between 1 and BATCH_SIZE, and a batch after the last is
    empty.  There are no batches exactly when the list is empty. *)
Theorem batches_partition_ids (ids : list string) :
  let total := total_batches ids in
  let size := Z.to_nat BATCH_SIZE in
  (forall i (k : nat), 1 <= i -> (k < size)%nat ->
     batch_ids_of ids i !! k = ids !! (Z.to_nat ((i - 1) * BATCH_SIZE) + k)%nat) /\
  concat (batch_ids_of ids <$> py_range 1 (total + 1)) = ids /\
  (forall i, 1 <= i < total -> length (batch_ids_of ids i) = size) /\
  (1 <= total -> (1 <= length (batch_ids_of ids total) <= size)%nat) /\
  (forall i, total < i -> batch_ids_of ids i = []) /\
  (total = 0 <-> ids = []) /\
  0 <= total.
Proof.
  intros total size. pose proof BATCH_SIZE_pos as Hb.
  pose proof (total_batches_bounds ids) as Hbounds. cbn zeta in Hbounds.
  fold total in Hbounds.
  assert (0 <= total) as Htotal by nia.
  split; [|split; [|split; [|split; [|split; [|split]]]]].
  - intros i k Hi Hk. rewrite batch_ids_of_piece by done.
    rewrite lookup_take, decide_True by done. by rewrite lookup_drop.
  - unfold py_range. rewrite <- list_fmap_compose.
    replace (Z.to_nat (total + 1 - 1)) with (Z.to_nat total) by lia.
    rewrite <- (concat_pieces size (Z.to_nat total) ids) at 2 by (subst size; nia).
    f_equal. apply list_fmap_ext. intros _ k _. cbn.
    rewrite batch_ids_of_piece by lia. subst size. do 2 f_equal. nia.
  - intros i Hi. rewrite batch_ids_of_piece by lia.
    rewrite length_take, length_drop. subst size. nia.
  - intros Ht. rewrite batch_ids_of_piece by lia.
    rewrite length_take, length_drop. subst size. nia.
  - intros i Hi. rewrite batch_ids_of_piece by lia.
    rewrite drop_ge by nia. apply take_nil.
  - split.
    + intros Hz. apply length_zero_iff_nil. lia.
    + intros ->. done.
  - done.
Qed.

(** ** More on one fetch *)

Section FetchMore.
Variable max_retries : nat.
Variable net : string -> nat -> get_outcome.
Variable soup_text : jvalue -> option string.

Lemma attempt_body_exception pid a w :
  net pid a = GetError \/
  net pid a = GetResponse 200 JsonError \/
  (exists data, net pid a = GetResponse 200 (JsonOk data) /\
                build_product soup_text data = None) ->
  attempt_body net soup_text pid a w
  = (Return None,
     World (failed_ids w ++ [(pid, PStr "Exception")]) (consecutive_429 w)
           (trace w ++ final_block pid)).
Proof.
  unfold attempt_body.
  intros [E|[E|(data & E & Hb)]]; rewrite E; cbn [Z.eqb Pos.eqb negb];
    rewrite ?Hb; run_m; by rewrite <- !app_assoc.
Qed.

Lemma build_product_None data :
  build_product soup_text data = None <->
  (forall d, data <> JObj d) \/
  (exists d, data = JObj d /\
             soup_text (default (JStr "") (d !! "description")) = None).
Proof.
  unfold build_product, dict_get_default. split.
  - destruct data as [| | | | | |d]; try (intros _; left; congruence).
    destruct (soup_text _) eqn:E; [discriminate|]. intros _. right. by exists d.
  - intros [Hno|(d & -> & E)].
    + destruct data; try done. by destruct (Hno fields).
    + by rewrite E.
Qed.

(** When an attempt returns a result. *)
Lemma attempt_body_Some pid a p :
  (attempt_body net soup_text pid a world0).1 = Return (Some p) <->
  exists data, net pid a = GetResponse 200 (JsonOk data) /\
               build_product soup_text data = Some p.
Proof.
  unfold attempt_body. split.
  - destruct (net pid a) as [status body| |]; [|run_m; discriminate..].
    destruct (status =? 429) eqn:E429; [run_m; discriminate|].
    destruct (status =? 404) eqn:E404; [run_m; discriminate|].
    destruct (status =? 200) eqn:E200; cbn [negb]; [|run_m; discriminate].
    apply Z.eqb_eq in E200 as ->.
    destruct body as [data| |]; [|run_m; discriminate..].
    destruct (build_product soup_text data) as [q|] eqn:Hq; [|run_m; discriminate].
    run_m. intros [= ->]. by exists data.
  - intros (data & -> & ->). by run_m.
Qed.

Lemma attempt_body_Continue pid a :
  (attempt_body net soup_text pid a world0).1 = Continue <->
  retryable (net pid a) = true.
Proof.
  destruct (attempt_body_outcome net soup_text pid a) as [_ H].
  destruct (attempt_body net soup_text pid a world0).1 as [|r]; cbn in *.
  - by destruct H as [-> _].
  - destruct H as [-> _]. done.
Qed.

Lemma fetch_loop_Some pid s n p :
  (fetch_loop net soup_text pid (seq s n) world0).1 = Some p <->
  exists a data,
    (s <= a < s + n)%nat /\
    (forall b, (s <= b < a)%nat -> retryable (net pid b) = true) /\
    net pid a = GetResponse 200 (JsonOk data) /\
    build_product soup_text data = Some p.
Proof.
  revert s. induction n as [|n IH]; intros s.
  - cbn. split; [discriminate|]. intros (a & _ & Ha & _). lia.
  - cbn [seq fetch_loop]. unfold mbind, M_bind.
    pose proof (attempt_body_Some pid s p) as HSome.
    pose proof (attempt_body_Continue pid s) as HCont.
    destruct (attempt_body net soup_text pid s world0) as [[|r] d]; cbn [fst] in *.
    + rewrite (framed_fetch_loop net soup_text pid (seq (S s) n) d). cbn [fst].
      rewrite IH. split.
      * intros (a & data & Ha & Hprev & Hnet & Hb). exists a, data.
        split; [lia|]. split; [|done]. intros b Hb'.
        destruct (decide (b = s)) as [->|]; [by apply HCont|]. apply Hprev. lia.
      * intros (a & data & Ha & Hprev & Hnet & Hb).
        destruct (decide (a = s)) as [->|Hne].
        -- assert (retryable (net pid s) = true) as Hr by (by apply HCont).
           rewrite Hnet in Hr. cbn in Hr. by destruct data.
        -- exists a, data. split; [lia|]. split; [|done].
           intros b Hb'. apply Hprev. lia.
    + cbn. split.
      * intros [= ->]. destruct (proj1 HSome eq_refl) as (data & Hnet & Hb).
        exists s, data. split; [lia|]. split; [|done]. intros b Hb'. lia.
      * intros (a & data & Ha & Hprev & Hnet & Hb).
        destruct (decide (a = s)) as [->|Hne].
        -- assert (Return r = Return (Some p)) as [= ->]; [|done].
           apply HSome. by exists data.
        -- assert (retryable (net pid s) = true) as Hr by (apply Hprev; lia).
           apply HCont in Hr. discriminate.
Qed.

End FetchMore.

Lemma fetch_loop_Some_any max_retries net soup_text pid w p :
  (fetch_product max_retries net soup_text pid w).1 = Some p ->
  exists a data,
    (1 <= a <= max_retries)%nat /\
    (forall b, (1 <= b < a)%nat -> retryable (net pid b) = true) /\
    net pid a = GetResponse 200 (JsonOk data) /\
    build_product soup_text data = Some p.
Proof.
  rewrite (framed_fetch_product max_retries net soup_text pid w). cbn [fst].
  unfold fetch_product, attempts_range. rewrite fetch_loop_Some.
  intros (a & data & Ha & Hrest). exists a, data. split; [lia|done].
Qed.

(** X5: an exception on an attempt that is reached ends the fetch at once,
    with the record (pid, "Exception") and no further request.  This is so
    when the request raises something else than a timeout, when reading the
    body of a 200 answer raises, when the body is not a JSON object, and
    when the text of its description, or of the empty string if it has
    none, cannot be extracted. *)
Theorem fetch_exception_not_retried
    (max_retries : nat) (net : string -> nat -> get_outcome)
    (soup_text : jvalue -> option string) (pid : string) (k : nat) (w : world) :
  (k < max_retries)%nat ->
  (forall a, (1 <= a <= k)%nat -> retryable (net pid a) = true) ->
  net pid (S k) = GetError \/
  net pid (S k) = GetResponse 200 JsonError \/
  (exists data, net pid (S k) = GetResponse 200 (JsonOk data) /\
                forall d, data <> JObj d) \/
  (exists d, net pid (S k) = GetResponse 200 (JsonOk (JObj d)) /\
             soup_text (default (JStr "") (d !! "description")) = None) ->
  let res := fetch_product max_retries net soup_text pid w in
  res.1 = None /\
  failed_ids res.2 = failed_ids w ++ [(pid, PStr "Exception")] /\
  consecutive_429 res.2 = consecutive_429 (after_retries net pid (seq 1 k) w) /\
  requests (trace res.2) = (requests (trace w) + S k)%nat.
Proof.
  intros Hk Hretry Hexc res. subst res.
  erewrite fetch_product_returns; [|done|done|apply attempt_body_exception].
  - cbn [fst snd failed_ids trace consecutive_429].
    rewrite after_retries_failed_ids, requests_app, after_retries_requests,
      length_seq, requests_final_block.
    repeat split; lia.
  - destruct Hexc as [E|[E|[(data & E & Hno)|(d & E & Hs)]]]; [tauto|tauto|..];
      right; right; eexists; (split; [exact E|]); apply build_product_None; eauto.
Qed.

Lemma fetch_exception_not_retried_witness :
  let net := net_then GetTimeout
               (GetResponse 200 (JsonOk (JObj {["description" := JNull]}))) in
  let res := fetch_product 3 net soup_plain "42" world0 in
  res.1 = None /\
  failed_ids res.2 = failed_ids world0 ++ [("42", PStr "Exception")] /\
  consecutive_429 res.2 = consecutive_429 (after_retries net "42" (seq 1 1) world0) /\
  requests (trace res.2) = (requests (trace world0) + 2)%nat.
Proof.
  apply (fetch_exception_not_retried 3
           (net_then GetTimeout
              (GetResponse 200 (JsonOk (JObj {["description" := JNull]}))))
           soup_plain "42" 1 world0).
  - lia.
  - intros a Ha. assert (a = 1)%nat as -> by lia. reflexivity.
  - right. right. right. exists {["description" := JNull]}. split; reflexivity.
Defined.

(** X6: a fetch returns a result exactly when, among the first MAX_RETRIES
    attempts, the first one that is not retried is a 200 answer whose body
    is read as a JSON object from which the result can be built; the result
    is the dict built from that body. *)
Theorem fetch_succeeds_iff
    (max_retries : nat) (net : string -> nat -> get_outcome)
    (soup_text : jvalue -> option string) (pid : string) (w : world)
    (p : product) :
  (fetch_product max_retries net soup_text pid w).1 = Some p <->
  exists a data,
    (1 <= a <= max_retries)%nat /\
    (forall b, (1 <= b < a)%nat -> retryable (net pid b) = true) /\
    net pid a = GetResponse 200 (JsonOk data) /\
    build_product soup_text data = Some p.
Proof.
  rewrite (framed_fetch_product max_retries net soup_text pid w). cbn [fst].
  unfold fetch_product, attempts_range. rewrite fetch_loop_Some.
  split; intros (a & data & Ha & Hrest); exists a, data; (split; [lia|done]).
Qed.

Lemma build_product_dom soup_text data p :
  build_product soup_text data = Some p ->
  dom p = list_to_set ["id"; "name"; "url_key"; "price"; "description"; "image_url"] /\
  exists text, p !! "description" = Some (JStr text).
Proof.
  unfold build_product. destruct data as [| | | | | |d]; try discriminate.
  destruct (soup_text _) as [text|]; [|discriminate]. intros [= <-]. split.
  - rewrite !dom_insert_L, dom_empty_L. cbn [list_to_set]. set_solver.
  - exists text. by simplify_map_eq.
Qed.

(** X7: a result has exactly the six keys id, name, url_key, price,
    description and image_url, whatever else the body of the answer holds,
    and its description is always a string. *)
Theorem result_has_six_keys
    (max_retries : nat) (net : string -> nat -> get_outcome)
    (soup_text : jvalue -> option string) (pid : string) (w : world)
    (p : product) :
  (fetch_product max_retries net soup_text pid w).1 = Some p ->
  dom p = list_to_set ["id"; "name"; "url_key"; "price"; "description"; "image_url"] /\
  exists text, p !! "description" = Some (JStr text).
Proof.
  intros (a & data & _ & _ & _ & Hb)%fetch_loop_Some_any.
  by eapply build_product_dom.
Qed.

Lemma result_has_six_keys_witness :
  let p : product :=
    <["id" := JInt 7]> (<["name" := JNull]> (<["url_key" := JNull]>
    (<["price" := JNull]> (<["description" := JStr ""]>
    (<["image_url" := JNull]> ∅))))) in
  dom p = list_to_set ["id"; "name"; "url_key"; "price"; "description"; "image_url"] /\
  exists text, p !! "description" = Some (JStr text).
Proof.
  apply (result_has_six_keys 3
           (net_always (GetResponse 200
              (JsonOk (JObj (<["id" := JInt 7]> (<["stock" := JInt 3]> ∅))))))
           soup_plain "42" world0).
  reflexivity.
Defined.

(** ** Requests, backoff and the 429 counter *)

Lemma requests_blocks net pid l :
  requests (concat (attempt_block net pid <$> l)) = length l.
Proof.
  induction l as [|a l IH]; [done|]. cbn [fmap list_fmap concat length].
  rewrite requests_app, IH. unfold attempt_block.
  by destruct (retryable (net pid a)).
Qed.

Lemma performed_length net pid s n :
  (length (performed net pid (seq s n)) <= n)%nat /\
  ((0 < n)%nat -> (1 <= length (performed net pid (seq s n)))%nat).
Proof.
  revert s. induction n as [|n IH]; intros s; [cbn; lia|].
  cbn [seq performed]. destruct (retryable (net pid s)); cbn [length].
  - destruct (IH (S s)). lia.
  - lia.
Qed.

Lemma performed_all_retried net pid l :
  (forall a, a ∈ l -> retryable (net pid a) = true) -> performed net pid l = l.
Proof.
  induction l as [|a l IH]; intros Hall; [done|]. cbn [performed].
  rewrite Hall by (by left). f_equal. apply IH. intros b Hb. apply Hall. by right.
Qed.

(** X8: a fetch makes at most MAX_RETRIES requests, and at least one
    unless MAX_RETRIES is 0, in which case it makes none and records
    (pid, "Failed") at once. *)
Theorem fetch_requests_bounded
    (max_retries : nat) (net : string -> nat -> get_outcome)
    (soup_text : jvalue -> option string) (pid : string) (w : world) :
  let res := fetch_product max_retries net soup_text pid w in
  (requests (trace w) <= requests (trace res.2)
   <= requests (trace w) + max_retries)%nat /\
  ((0 < max_retries)%nat -> (requests (trace w) < requests (trace res.2))%nat) /\
  (max_retries = 0%nat ->
   res.1 = None /\ trace res.2 = trace w /\
   failed_ids res.2 = failed_ids w ++ [(pid, PStr "Failed")]).
Proof.
  intros res. subst res.
  rewrite (framed_fetch_product max_retries net soup_text pid w).
  cbn [fst snd world_app trace failed_ids].
  destruct (fetch_loop_outcome net soup_text pid (attempts_range max_retries))
    as [Htr _].
  fold (fetch_product max_retries net soup_text pid world0) in Htr.
  rewrite requests_app, Htr, requests_blocks.
  destruct (performed_length net pid 1 max_retries) as [Hle Hge].
  fold (attempts_range max_retries) in Hle, Hge.
  split; [lia|]. split; [intros Hpos; specialize (Hge Hpos); lia|].
  intros ->. cbn. by rewrite app_nil_r.
Qed.

Lemma sleeps_holding_retry_blocks net pid l :
  (forall a, a ∈ l -> retryable (net pid a) = true) ->
  sleeps_holding false (concat (attempt_block net pid <$> l))
  = (fun a => backoff_of (net pid a) a) <$> l.
Proof.
  induction l as [|a l IH]; intros Hall; [done|].
  cbn [fmap list_fmap concat]. rewrite sleeps_holding_block.
  rewrite Hall by (by left). cbn [app]. f_equal.
  apply IH. intros b Hb. apply Hall. by right.
Qed.

Lemma sum_multiples (unit : Z) (n : nat) :
  2 * foldr Z.add 0 ((fun a => unit * Z.of_nat a) <$> seq 1 n)
  = unit * Z.of_nat n * (Z.of_nat n + 1).
Proof.
  induction n as [|n IH]; [cbn; lia|].
  rewrite seq_S, fmap_app, foldr_app. cbn [fmap list_fmap foldr].
  assert (forall (l : list Z) x, foldr Z.add x l = foldr Z.add 0 l + x) as Hshift.
  { intros l x. induction l as [|y l IHl]; cbn [foldr]; [lia|]. rewrite IHl. lia. }
  rewrite Hshift. cbn [Nat.add] in *. nia.
Qed.

(** X9: when every attempt is answered by a 429, the fetch sleeps 5, 10,
    ..., 5 * MAX_RETRIES seconds, once after each attempt and also after
    the last one, all of it holding its slot; with timeouts instead the
    sleeps are 2, 4, ..., 2 * MAX_RETRIES.  In total that is
    unit * MAX_RETRIES * (MAX_RETRIES + 1) / 2 seconds of backoff before
    the fetch gives up. *)
Theorem backoff_schedule_when_exhausted
    (max_retries : nat) (net : string -> nat -> get_outcome)
    (soup_text : jvalue -> option string) (pid : string) (rate_limited : bool) :
  (forall a, (1 <= a <= max_retries)%nat ->
     retryable (net pid a) = true /\ is_429 (net pid a) = rate_limited) ->
  let unit := if rate_limited then 5 else 2 in
  let res := fetch_product max_retries net soup_text pid world0 in
  let sleeps := sleeps_holding false (trace res.2) in
  res.1 = None /\
  sleeps = (fun a => unit * Z.of_nat a) <$> seq 1 max_retries /\
  sleeps_released false (trace res.2) = [] /\
  2 * foldr Z.add 0 sleeps = unit * Z.of_nat max_retries * (Z.of_nat max_retries + 1).
Proof.
  intros Hall unit res sleeps.
  assert (forall a, a ∈ attempts_range max_retries -> retryable (net pid a) = true)
    as Hretry by (intros a Ha%elem_of_seq_1; by apply Hall).
  destruct (fetch_loop_outcome net soup_text pid (attempts_range max_retries))
    as [Htr _].
  fold (fetch_product max_retries net soup_text pid world0) in Htr. fold res in Htr.
  rewrite performed_all_retried in Htr by done.
  assert (sleeps = (fun a => unit * Z.of_nat a) <$> seq 1 max_retries) as Hsleeps.
  { subst sleeps. rewrite Htr, sleeps_holding_retry_blocks by done.
    apply list_fmap_ext. intros _ a Ha%list_elem_of_lookup_2%elem_of_seq_1.
    unfold backoff_of. destruct (Hall a Ha) as [_ ->]. subst unit.
    by destruct rate_limited. }
  split; [|split; [done|split]].
  - subst res. rewrite fetch_product_exhausted; [done|].
    intros a Ha. by apply Hall.
  - rewrite Htr. clear. induction (attempts_range max_retries) as [|a l IH]; [done|].
    cbn [fmap list_fmap concat]. by rewrite sleeps_released_block.
  - rewrite Hsleeps. apply sum_multiples.
Qed.

Lemma backoff_schedule_when_exhausted_witness :
  let net := net_always (GetResponse 429 JsonError) in
  let unit := 5 in
  let res := fetch_product MAX_RETRIES net soup_plain "42" world0 in
  let sleeps := sleeps_holding false (trace res.2) in
  res.1 = None /\
  sleeps = (fun a => unit * Z.of_nat a) <$> seq 1 MAX_RETRIES /\
  sleeps_released false (trace res.2) = [] /\
  2 * foldr Z.add 0 sleeps = unit * Z.of_nat MAX_RETRIES * (Z.of_nat MAX_RETRIES + 1).
Proof.
  apply (backoff_schedule_when_exhausted MAX_RETRIES
           (net_always (GetResponse 429 JsonError)) soup_plain "42" true).
  intros a _. split; reflexivity.
Defined.

Section Counter.
Variable max_retries : nat.
Variable net : string -> nat -> get_outcome.
Variable soup_text : jvalue -> option string.

Lemma attempt_body_429 pid a :
  consecutive_429 (attempt_body net soup_text pid a world0).2
  = if is_429 (net pid a) then 1 else 0.
Proof.
  unfold attempt_body, is_429.
  destruct (net pid a) as [status body| |]; [|by run_m..].
  destruct (status =? 429); [by run_m|].
  destruct (status =? 404); [by run_m|].
  destruct (negb (status =? 200)); [by run_m|].
  destruct body as [data| |]; [|by run_m..].
  destruct (build_product soup_text data); by run_m.
Qed.

Lemma fetch_loop_429 pid l :
  consecutive_429 (fetch_loop net soup_text pid l world0).2
  = Z.of_nat (length (filter (fun a => is_429 (net pid a)) (performed net pid l))).
Proof.
  induction l as [|a l IH]; [done|].
  cbn [fetch_loop performed]. unfold mbind, M_bind.
  pose proof (attempt_body_429 pid a) as H429.
  pose proof (proj1 (attempt_body_Continue net soup_text pid a)) as HC.
  destruct (attempt_body_outcome net soup_text pid a) as [_ Hout].
  destruct (attempt_body net soup_text pid a world0) as [[|r] d];
    cbn [fst snd] in *.
  - rewrite (HC eq_refl).
    rewrite (framed_fetch_loop net soup_text pid l d).
    cbn [snd world_app consecutive_429]. rewrite IH, H429.
    destruct (is_429 (net pid a)) eqn:E.
    + rewrite filter_cons_True by (by rewrite E). cbn [length]. lia.
    + rewrite filter_cons_False by (rewrite E; exact id). lia.
  - destruct Hout as [-> _]. cbn [mret M_ret snd]. rewrite H429.
    destruct (is_429 (net pid a)) eqn:E.
    + by rewrite filter_cons_True by (by rewrite E).
    + by rewrite filter_cons_False by (rewrite E; exact id).
Qed.

End Counter.

(** X10: [consecutive_429] counts every 429 answer and nothing resets it:
    a fetch adds to it the number of its attempts that were answered by a
    429, also when a later attempt succeeds, so over a fetch, and over a
    batch, the counter never goes down. *)
Theorem counter_counts_every_429
    (max_retries : nat) (net : string -> nat -> get_outcome)
    (soup_text : jvalue -> option string) :
  (forall pid w,
     let res := fetch_product max_retries net soup_text pid w in
     consecutive_429 res.2
     = consecutive_429 w
       + Z.of_nat (length (filter (fun a => is_429 (net pid a))
                    (performed net pid (attempts_range max_retries)))) /\
     consecutive_429 w <= consecutive_429 res.2) /\
  (forall batch_ids w,
     consecutive_429 w
     <= consecutive_429 (gather max_retries net soup_text batch_ids [] w).2).
Proof.
  assert (forall pid w,
     consecutive_429 (fetch_product max_retries net soup_text pid w).2
     = consecutive_429 w
       + Z.of_nat (length (filter (fun a => is_429 (net pid a))
                    (performed net pid (attempts_range max_retries))))) as Hone.
  { intros pid w.
    rewrite (framed_fetch_product max_retries net soup_text pid w).
    cbn [snd world_app consecutive_429]. unfold fetch_product.
    by rewrite fetch_loop_429. }
  split.
  - intros pid w res. subst res. rewrite Hone. split; [done|lia].
  - intros batch_ids. generalize (@nil product).
    induction batch_ids as [|pid rest IH]; intros results w; [done|].
    cbn [gather]. unfold mbind, M_bind.
    pose proof (Hone pid w) as H1.
    destruct (fetch_product max_retries net soup_text pid w) as [r w1].
    cbn [snd] in H1. etrans; [|apply IH]. lia.
Qed.

(** X11: a fetch only adds to the globals.  What it returns, the records
    it appends, what it adds to the counter and the events it goes through
    are the same in every state of the globals; the records already in
    [failed_ids] stay in front, unchanged. *)
Theorem fetch_only_appends
    (max_retries : nat) (net : string -> nat -> get_outcome)
    (soup_text : jvalue -> option string) (pid : string) (w : world) :
  let alone := fetch_product max_retries net soup_text pid world0 in
  let res := fetch_product max_retries net soup_text pid w in
  res.1 = alone.1 /\
  failed_ids res.2 = failed_ids w ++ failed_ids alone.2 /\
  consecutive_429 res.2 = consecutive_429 w + consecutive_429 alone.2 /\
  trace res.2 = trace w ++ trace alone.2.
Proof.
  intros alone res. subst res.
  by rewrite (framed_fetch_product max_retries net soup_text pid w).
Qed.

(** ** Runs of the event loop *)

Lemma count_phase_none p (ts : list (string * phase)) :
  (forall i pid ph, ts !! i = Some (pid, ph) -> p ph = false) ->
  count_phase p ts = 0%nat.
Proof.
  unfold count_phase. induction ts as [|[pid ph] ts IH]; intros Hall; [done|].
  cbn [sum_list_with snd]. rewrite (Hall 0%nat pid ph) by done.
  rewrite IH; [done|]. intros i pid' ph' Hi. by apply (Hall (S i) pid' ph').
Qed.

(** X12: no slot is lost.  Whenever no task of the batch is inside the
    semaphore block, in particular when all of them have returned, all
    MAX_CONCURRENCY slots are free again, so the next batch starts with the
    full semaphore. *)
Theorem slots_all_free_at_the_end
    (max_concurrency max_retries : nat) (net : string -> nat -> get_outcome)
    (soup_text : jvalue -> option string) (batch_ids : list string)
    (failed : list (string * pyval)) (count_429 : Z) (schedule : list nat) :
  let s := run_schedule max_retries net soup_text schedule
             (batch_start max_concurrency batch_ids failed count_429) in
  (forall i pid ph, tasks s !! i = Some (pid, ph) -> holds_slot ph = false) ->
  sem_value s = max_concurrency.
Proof.
  intros s Hfree.
  pose proof (run_schedule_slots max_retries net soup_text schedule
                (batch_start max_concurrency batch_ids failed count_429)) as H.
  cbn zeta in H. fold s in H. rewrite batch_start_holders in H.
  cbn [sem_value batch_start] in H.
  unfold holders in H. rewrite (count_phase_none holds_slot (tasks s) Hfree) in H.
  lia.
Qed.

Lemma slots_all_free_at_the_end_witness :
  sem_value (run_schedule 3 net_abc soup_plain
               (concat (replicate 12 [0; 1; 2]%nat))
               (batch_start 2 ["A"; "B"; "C"] [] 0)) = 2%nat.
Proof.
  apply (slots_all_free_at_the_end 2 3 net_abc soup_plain ["A"; "B"; "C"] [] 0
           (concat (replicate 12 [0; 1; 2]%nat))).
  intros i pid ph Hi.
  destruct i as [|[|[|i]]]; vm_compute in Hi; [| | |discriminate Hi];
    injection Hi as _ <-; reflexivity.
Defined.

Section StepBound.
Variable max_retries : nat.
Variable net : string -> nat -> get_outcome.
Variable soup_text : jvalue -> option string.

Lemma steps_taken_bound schedule s :
  tasks_ok max_retries net soup_text s ->
  (steps_taken max_retries net soup_text schedule s
   + remaining_steps max_retries
       (run_schedule max_retries net soup_text schedule s)
   <= remaining_steps max_retries s)%nat.
Proof.
  revert s. induction schedule as [|i schedule IH]; intros s Hok; [cbn; lia|].
  rewrite run_schedule_cons. cbn [steps_taken].
  destruct (task_step max_retries net soup_text i s) as [s1|] eqn:E;
    cbn [from_option id]; [|by apply IH].
  pose proof (task_step_remaining max_retries net soup_text i s s1 E Hok).
  pose proof (IH s1 (task_step_ok max_retries net soup_text i s s1 E Hok)). lia.
Qed.

End StepBound.

Lemma batch_start_remaining max_retries max_concurrency batch_ids failed c :
  remaining_steps max_retries (batch_start max_concurrency batch_ids failed c)
  = (length batch_ids * (4 * max_retries + 1))%nat.
Proof.
  unfold remaining_steps, batch_start. cbn [tasks].
  induction batch_ids as [|pid ids IH]; [done|].
  cbn [fmap list_fmap sum_list_with snd remaining length]. rewrite IH. lia.
Qed.

(** X13: the tasks of a batch of n identifiers take at most
    n * (4 * MAX_RETRIES + 1) steps from one suspension point to the next,
    however they are scheduled: no schedule keeps a batch running for
    ever. *)
Theorem batch_steps_bounded
    (max_concurrency max_retries : nat) (net : string -> nat -> get_outcome)
    (soup_text : jvalue -> option string) (batch_ids : list string)
    (failed : list (string * pyval)) (count_429 : Z) (schedule : list nat) :
  (steps_taken max_retries net soup_text schedule
     (batch_start max_concurrency batch_ids failed count_429)
   <= length batch_ids * (4 * max_retries + 1))%nat.
Proof.
  pose proof (steps_taken_bound max_retries net soup_text schedule
                (batch_start max_concurrency batch_ids failed count_429)
                (batch_start_ok _ _ _ _ _ _ _)) as H.
  rewrite batch_start_remaining in H. lia.
Qed.

(** ** Interleaved and sequential runs of a batch *)

Lemma sum_Z_app {A} (f : A -> Z) l1 l2 : sum_Z f (l1 ++ l2) = sum_Z f l1 + sum_Z f l2.
Proof. unfold sum_Z. induction l1 as [|x l1 IH]; cbn [app foldr]; lia. Qed.

Lemma sum_Z_insert {A} (f : A -> Z) (l : list A) i x y :
  l !! i = Some y -> sum_Z f (<[i := x]> l) = sum_Z f l - f y + f x.
Proof.
  intros Hi. rewrite insert_take_drop by (by eapply lookup_lt_Some).
  rewrite <- (take_drop_middle l i y Hi) at 3.
  rewrite !sum_Z_app.
  assert (forall z k, sum_Z f (z :: k) = f z + sum_Z f k) as Hcons by done.
  rewrite !Hcons. lia.
Qed.

Lemma concat_fmap_insert {A B} (f : A -> list B) (l : list A) i x y new :
  l !! i = Some y -> f x = f y ++ new ->
  concat (f <$> <[i := x]> l) ≡ₚ concat (f <$> l) ++ new.
Proof.
  intros Hi Hx. rewrite insert_take_drop by (by eapply lookup_lt_Some).
  rewrite <- (take_drop_middle l i y Hi) at 3.
  rewrite !fmap_app, !concat_app. cbn [fmap list_fmap concat].
  rewrite Hx, <- !app_assoc. do 2 f_equiv. apply Permutation_app_comm.
Qed.

Lemma count_429_snoc net pid a :
  (1 <= a)%nat ->
  count_429 net pid (seq 1 a)
  = count_429 net pid (seq 1 (a - 1)) + (if is_429 (net pid a) then 1 else 0).
Proof.
  intros Ha. unfold count_429.
  replace a with (S (a - 1)) at 1 by lia. rewrite seq_S, filter_app, length_app.
  replace (1 + (a - 1))%nat with a by lia.
  destruct (is_429 (net pid a)) eqn:E.
  - rewrite filter_cons_True by (by rewrite E). rewrite filter_nil. cbn [length]. lia.
  - rewrite filter_cons_False by (rewrite E; exact id). rewrite filter_nil.
    cbn [length]. lia.
Qed.

Section Interleaving.
Variable max_retries : nat.
Variable net : string -> nat -> get_outcome.
Variable soup_text : jvalue -> option string.

Abbreviation records' := (task_records max_retries net soup_text).
Abbreviation counted' := (task_429 max_retries net soup_text).

(** What a step adds to the globals is what the task that runs is
    recorded to have added. *)
Lemma task_step_effects i s s' :
  task_step max_retries net soup_text i s = Some s' ->
  exists pid ph ph' new delta,
    tasks s !! i = Some (pid, ph) /\
    tasks s' = <[i := (pid, ph')]> (tasks s) /\
    sys_failed_ids s' = sys_failed_ids s ++ new /\
    sys_consecutive_429 s' = sys_consecutive_429 s + delta /\
    (phase_ok max_retries net soup_text pid ph ->
     records' (pid, ph') = records' (pid, ph) ++ new /\
     counted' (pid, ph') = counted' (pid, ph) + delta).
Proof.
  unfold task_step, set_phase.
  destruct (tasks s !! i) as [[pid ph]|] eqn:Hi; [|discriminate].
  destruct ph as [a|a|a|a|r].
  - destruct (a <=? max_retries)%nat eqn:Ha.
    + destruct (0 <? sem_value s)%nat; [|discriminate].
      intros [= <-]. exists pid, (AtLoop a), (Delaying a), [], 0.
      cbn [tasks sys_failed_ids sys_consecutive_429].
      rewrite app_nil_r, Z.add_0_r. do 4 (split; [done|]).
      intros _. unfold task_records, task_429. cbn [fst snd]. split; [done|lia].
    + apply Nat.leb_gt in Ha. intros [= <-].
      exists pid, (AtLoop a), (Returned None), [(pid, PStr "Failed")], 0.
      cbn [tasks sys_failed_ids sys_consecutive_429]. rewrite Z.add_0_r.
      do 4 (split; [done|]). intros [Hrange Hretry].
      unfold task_records, task_429. cbn [fst snd].
      rewrite fetch_product_exhausted by (intros b Hb; apply Hretry; lia).
      cbn [snd failed_ids consecutive_429].
      rewrite after_retries_failed_ids, after_retries_429. unfold count_429.
      unfold world0. cbn [failed_ids consecutive_429].
      replace (a - 1)%nat with max_retries by lia. split; [done|lia].
  - intros [= <-]. exists pid, (Delaying a), (Requesting a), [], 0.
    cbn [tasks sys_failed_ids sys_consecutive_429].
    rewrite app_nil_r, Z.add_0_r. do 4 (split; [done|]).
    intros _. unfold task_records, task_429. cbn [fst snd]. split; [done|lia].
  - destruct (attempt_body_outcome net soup_text pid a) as [_ Hout].
    pose proof (attempt_body_429 net soup_text pid a) as H429.
    destruct (attempt_body net soup_text pid a world0) as [[|v] d] eqn:Hbody;
      cbn [fst snd] in Hout, H429; intros [= <-].
    + destruct Hout as [Hretry Hfailed].
      exists pid, (Requesting a), (BackingOff a), (failed_ids d), (consecutive_429 d).
      cbn [tasks sys_failed_ids sys_consecutive_429].
      do 4 (split; [done|]). intros [Hrange Hprev].
      unfold task_records, task_429. cbn [fst snd].
      rewrite count_429_snoc by lia. rewrite Hfailed. split; [done|lia].
    + exists pid, (Requesting a), (Returned v), (failed_ids d), (consecutive_429 d).
      cbn [tasks sys_failed_ids sys_consecutive_429].
      do 4 (split; [done|]). intros [Hrange Hprev].
      assert (fetch_product max_retries net soup_text pid world0
              = (v, world_app (after_retries net pid (seq 1 (a - 1)) world0) d))
        as Hrun.
      { destruct a as [|k]; [lia|].
        apply (fetch_product_returns max_retries net soup_text pid k world0);
          [lia| |].
        - intros b Hb. apply Hprev. lia.
        - replace (S k - 1)%nat with k by lia.
          by rewrite framed_attempt_body, Hbody. }
      unfold task_records, task_429. cbn [fst snd]. rewrite Hrun.
      cbn [snd world_app failed_ids consecutive_429].
      rewrite after_retries_failed_ids, after_retries_429. unfold count_429.
      unfold world0. cbn [failed_ids consecutive_429]. split; [done|lia].
  - intros [= <-]. exists pid, (BackingOff a), (AtLoop (S a)), [], 0.
    cbn [tasks sys_failed_ids sys_consecutive_429].
    rewrite app_nil_r, Z.add_0_r. do 4 (split; [done|]).
    intros _. unfold task_records, task_429. cbn [fst snd].
    replace (S a - 1)%nat with a by lia. split; [done|lia].
  - discriminate.
Qed.

Abbreviation accounted' := (accounted max_retries net soup_text).

Lemma task_step_accounted batch_ids failed c i s s' :
  task_step max_retries net soup_text i s = Some s' ->
  accounted' batch_ids failed c s -> accounted' batch_ids failed c s'.
Proof.
  intros Hstep (Hok & Hpids & Hrec & Hcnt).
  pose proof (task_step_ok max_retries net soup_text i s s' Hstep Hok) as Hok'.
  destruct (task_step_effects i s s' Hstep)
    as (pid & ph & ph' & new & delta & Hi & Ht & Hf & Hc & Heff).
  destruct (Heff (Hok i pid ph Hi)) as [Hr H4].
  split; [done|]. split; [|split].
  - rewrite Ht, list_fmap_insert. cbn [fst]. rewrite <- Hpids.
    apply list_insert_id. by rewrite list_lookup_fmap, Hi.
  - rewrite Hf, Ht, Hrec.
    rewrite (concat_fmap_insert records' (tasks s) i _ _ new Hi Hr).
    by rewrite app_assoc.
  - rewrite Hc, Ht, Hcnt, (sum_Z_insert counted' (tasks s) i _ _ Hi). lia.
Qed.

Lemma run_schedule_accounted batch_ids failed c schedule s :
  accounted' batch_ids failed c s ->
  accounted' batch_ids failed c (run_schedule max_retries net soup_text schedule s).
Proof.
  revert s. induction schedule as [|i schedule IH]; intros s Hs; [done|].
  rewrite run_schedule_cons.
  destruct (task_step max_retries net soup_text i s) as [s1|] eqn:E;
    cbn [from_option id]; [|by apply IH].
  apply IH. by eapply task_step_accounted.
Qed.

Lemma batch_start_accounted max_concurrency batch_ids failed c :
  accounted' batch_ids failed c (batch_start max_concurrency batch_ids failed c).
Proof.
  split; [apply batch_start_ok|]. unfold batch_start. cbn [tasks sys_failed_ids
    sys_consecutive_429]. split; [|split].
  - rewrite <- list_fmap_compose. by rewrite <- (list_fmap_id batch_ids) at 2.
  - induction batch_ids as [|pid ids IH]; [by rewrite app_nil_r|done].
  - induction batch_ids as [|pid ids IH]; [cbn; lia|].
    cbn [fmap list_fmap sum_Z foldr]. fold (sum_Z counted' ((fun pid => (pid, AtLoop 1)) <$> ids)).
    unfold task_429 at 1. cbn [snd fst]. unfold count_429. cbn. lia.
Qed.

(** What the fetches of a batch add when they run one after the other. *)
Lemma gather_effects batch_ids results w :
  let res := gather max_retries net soup_text batch_ids results w in
  failed_ids res.2
  = failed_ids w
    ++ concat ((fun pid =>
          failed_ids (fetch_product max_retries net soup_text pid world0).2)
        <$> batch_ids) /\
  consecutive_429 res.2
  = consecutive_429 w
    + sum_Z (fun pid =>
        consecutive_429 (fetch_product max_retries net soup_text pid world0).2)
        batch_ids.
Proof.
  revert results w. induction batch_ids as [|pid rest IH]; intros results w.
  - cbn. by rewrite app_nil_r, Z.add_0_r.
  - cbn [gather]. unfold mbind, M_bind.
    rewrite (framed_fetch_product max_retries net soup_text pid w).
    cbn zeta in IH |- *. destruct (IH (results_append results
        (fetch_product max_retries net soup_text pid world0).1)
      (world_app w (fetch_product max_retries net soup_text pid world0).2))
      as [-> ->].
    cbn [world_app failed_ids consecutive_429 fmap list_fmap concat sum_Z foldr].
    fold (sum_Z (fun pid => consecutive_429
      (fetch_product max_retries net soup_text pid world0).2) rest).
    rewrite <- app_assoc. split; [done|lia].
Qed.

End Interleaving.

Lemma all_returned_tasks max_retries net soup_text (ts : list (string * phase)) :
  (forall i pid ph, ts !! i = Some (pid, ph) ->
     is_returned ph = true /\ phase_ok max_retries net soup_text pid ph) ->
  ts = (fun pid => (pid, Returned (fetch_result max_retries net soup_text pid)))
         <$> ts.*1 /\
  task_records max_retries net soup_text <$> ts
  = (fun pid => failed_ids (fetch_product max_retries net soup_text pid world0).2)
      <$> ts.*1 /\
  sum_Z (task_429 max_retries net soup_text) ts
  = sum_Z (fun pid =>
      consecutive_429 (fetch_product max_retries net soup_text pid world0).2)
      ts.*1.
Proof.
  induction ts as [|[pid ph] ts IH]; intros Hall; [done|].
  destruct (Hall 0%nat pid ph eq_refl) as [Hret Hok].
  destruct IH as (IH1 & IH2 & IH3).
  { intros i pid' ph' Hi. by apply (Hall (S i)). }
  destruct ph as [a|a|a|a|r]; try discriminate Hret. cbn in Hok. subst r.
  cbn [fmap list_fmap fst]. split; [|split].
  - by rewrite <- IH1.
  - by rewrite <- IH2.
  - unfold sum_Z in *. cbn [foldr]. by rewrite IH3.
Qed.

(** X14: when the tasks of a batch have all returned, however the event
    loop has interleaved them, every task has returned what its fetch
    returns on its own, [failed_ids] holds the records that the fetches
    append when they run one after the other in the order of the batch,
    in some order, and [consecutive_429] has the same value as after that
    sequential run. *)
Theorem interleaving_agrees_with_sequential
    (max_concurrency max_retries : nat) (net : string -> nat -> get_outcome)
    (soup_text : jvalue -> option string) (batch_ids : list string)
    (failed : list (string * pyval)) (count_429 : Z) (schedule : list nat) :
  let s := run_schedule max_retries net soup_text schedule
             (batch_start max_concurrency batch_ids failed count_429) in
  let sequential := gather max_retries net soup_text batch_ids []
                      (World failed count_429 []) in
  (forall i pid ph, tasks s !! i = Some (pid, ph) -> is_returned ph = true) ->
  tasks s = (fun pid => (pid, Returned (fetch_result max_retries net soup_text pid)))
              <$> batch_ids /\
  sys_failed_ids s ≡ₚ failed_ids sequential.2 /\
  sys_consecutive_429 s = consecutive_429 sequential.2 /\
  sequential.1 = omap (fetch_result max_retries net soup_text) batch_ids.
Proof.
  intros s sequential Hret.
  destruct (run_schedule_accounted max_retries net soup_text batch_ids failed
              count_429 schedule _
              (batch_start_accounted max_retries net soup_text max_concurrency
                 batch_ids failed count_429))
    as (Hok & Hpids & Hrec & Hcnt).
  fold s in Hok, Hpids, Hrec, Hcnt.
  destruct (all_returned_tasks max_retries net soup_text (tasks s))
    as (Ht & Hr & H4).
  { intros i pid ph Hi. split; [by eapply Hret|by eapply Hok]. }
  rewrite Hpids in Ht, Hr, H4.
  destruct (gather_effects max_retries net soup_text batch_ids []
              (World failed count_429 [])) as [Hgf Hgc].
  fold sequential in Hgf, Hgc.
  split; [done|]. split; [|split].
  - by rewrite Hrec, Hr, Hgf.
  - by rewrite Hcnt, H4, Hgc.
  - subst sequential.
    by destruct (gather_spec max_retries net soup_text batch_ids []
                   (World failed count_429 [])) as [-> _].
Qed.

Lemma interleaving_agrees_with_sequential_witness :
  let s := run_schedule 3 net_abc soup_plain
             (concat (replicate 12 [0; 1; 2]%nat))
             (batch_start 2 ["A"; "B"; "C"] [] 0) in
  let sequential := gather 3 net_abc soup_plain ["A"; "B"; "C"] []
                      (World [] 0 []) in
  tasks s = (fun pid => (pid, Returned (fetch_result 3 net_abc soup_plain pid)))
              <$> ["A"; "B"; "C"] /\
  sys_failed_ids s ≡ₚ failed_ids sequential.2 /\
  sys_consecutive_429 s = consecutive_429 sequential.2 /\
  sequential.1 = omap (fetch_result 3 net_abc soup_plain) ["A"; "B"; "C"].
Proof.
  apply (interleaving_agrees_with_sequential 2 3 net_abc soup_plain
           ["A"; "B"; "C"] [] 0 (concat (replicate 12 [0; 1; 2]%nat))).
  intros i pid ph Hi.
  destruct i as [|[|[|i]]]; vm_compute in Hi; [| | |discriminate Hi];
    injection Hi as _ <-; reflexivity.
Defined.

(** ** The whole run *)

Lemma py_range_empty a b : b <= a -> py_range a b = [].
Proof. intros H. unfold py_range. by replace (Z.to_nat (b - a)) with 0%nat by lia. Qed.

Lemma elem_of_listdir d f : f ∈ listdir d <-> is_Some (out_dir d !! f).
Proof.
  unfold listdir. rewrite list_elem_of_fmap. split.
  - intros ([g v] & -> & Hin%elem_of_map_to_list). by exists v.
  - intros [v Hv]. exists (f, v). split; [done|]. by apply elem_of_map_to_list.
Qed.

Lemma filter_data_records failed :
  Forall (fun r => is_fetch_error r.2 = true) failed ->
  filter (fun r => r <> header_record) (data_record <$> failed)
  = data_record <$> failed.
Proof.
  induction 1 as [|r failed Hr _ IH]; [done|]. cbn [fmap list_fmap].
  rewrite filter_cons_True by (by apply data_record_not_header). by rewrite IH.
Qed.

Lemma flush_failed_data_rows failed file :
  Forall (fun r => is_fetch_error r.2 = true) failed ->
  data_rows (flush_failed failed file).1 = (data_rows file + length failed)%nat /\
  (flush_failed failed file).2 = [] /\
  exists added, default [] (flush_failed failed file).1 = default [] file ++ added.
Proof.
  intros Herr. destruct failed as [|r failed].
  - cbn [flush_failed fst snd length]. rewrite Nat.add_0_r.
    split; [done|]. split; [done|]. exists []. by rewrite app_nil_r.
  - cbn [flush_failed fst snd]. unfold data_rows, to_csv_append.
    cbn [from_option id]. split; [|split; [done|by eexists]].
    rewrite !filter_app, !length_app, filter_data_records, length_fmap by done.
    destruct (write_header file); [|cbn; lia].
    rewrite filter_cons_False by (by intros H; apply H). cbn. lia.
Qed.

(** Every order in which the tasks can complete is a rearrangement of the
    tasks, and every rearrangement is such an order. *)
Lemma as_completed_perm {A} (picks : list nat) (l : list A) :
  as_completed picks l ≡ₚ l.
Proof.
  revert l. induction picks as [|p picks IH]; intros l; [done|].
  cbn [as_completed].
  destruct (l !! (p `mod` length l)%nat) as [t|] eqn:E.
  - rewrite IH. symmetry. by apply delete_Permutation.
  - destruct l as [|x l]; [done|]. apply lookup_ge_None in E.
    pose proof (Nat.mod_upper_bound p (length (x :: l))) as H.
    cbn [length] in *. lia.
Qed.

Lemma as_completed_any {A} (l l' : list A) :
  l' ≡ₚ l -> exists picks, as_completed picks l = l'.
Proof.
  revert l. induction l' as [|x l' IH]; intros l Hp.
  - apply Permutation_nil in Hp as ->. by exists [].
  - assert (x ∈ l) as Hx by (rewrite <- Hp; by left).
    apply list_elem_of_lookup in Hx as [i Hi].
    pose proof (delete_Permutation l i x Hi) as Hdel.
    rewrite Hdel in Hp. apply Permutation_cons_inv in Hp.
    destruct (IH _ Hp) as [picks Hpicks]. exists (i :: picks).
    cbn [as_completed]. apply lookup_lt_Some in Hi as Hlt.
    rewrite Nat.mod_small by done. by rewrite Hi, Hpicks.
Qed.

Lemma concat_fmap_perm {A B} (f : A -> list B) (l1 l2 : list A) :
  l1 ≡ₚ l2 -> concat (f <$> l1) ≡ₚ concat (f <$> l2).
Proof.
  induction 1 as [|x l1 l2 _ IH|x y l|l1 l2 l3 _ IH1 _ IH2];
    cbn [fmap list_fmap concat].
  - done.
  - by rewrite IH.
  - rewrite !app_assoc. f_equiv. apply Permutation_app_comm.
  - by rewrite IH1.
Qed.

Lemma forallb_perm {A} (f : A -> bool) (l1 l2 : list A) :
  l1 ≡ₚ l2 -> forallb f l1 = forallb f l2.
Proof.
  induction 1 as [|x l1 l2 _ IH|x y l|l1 l2 l3 _ IH1 _ IH2]; cbn [forallb].
  - done.
  - by rewrite IH.
  - by destruct (f x), (f y).
  - by rewrite IH1.
Qed.

Lemma flush_failed_clears failed file : (flush_failed failed file).2 = [].
Proof. by destruct failed. Qed.

(** The flush of a rearranged buffer into a rearranged file. *)
Lemma flush_failed_perm failed1 failed2 file1 file2 :
  failed1 ≡ₚ failed2 ->
  option_Forall2 (≡ₚ) file1 file2 ->
  option_Forall2 (≡ₚ) (flush_failed failed1 file1).1 (flush_failed failed2 file2).1.
Proof.
  intros Hfailed Hfile. destruct failed1 as [|r1 failed1].
  - by apply Permutation_nil in Hfailed as ->.
  - destruct failed2 as [|r2 failed2];
      [by apply Permutation_sym, Permutation_nil in Hfailed|].
    cbn [flush_failed fst]. unfold to_csv_append. constructor.
    assert (write_header file1 = write_header file2) as ->.
    { destruct Hfile as [c1 c2 Hc|]; [|done]. cbn [write_header].
      destruct c1 as [|x c1].
      - by apply Permutation_nil in Hc as ->.
      - destruct c2 as [|y c2]; [by apply Permutation_sym, Permutation_nil in Hc|done]. }
    assert (default [] file1 ≡ₚ default [] file2) as Hcontent
      by (by destruct Hfile).
    by rewrite Hcontent, Hfailed.
Qed.

Section MainFacts.
Variable max_retries : nat.
Variable net : string -> nat -> get_outcome.
Variable soup_text : jvalue -> option string.
Variable completion : Z -> list nat.
Variable json_ok : product -> bool.

Abbreviation process' :=
  (process_batch max_retries net soup_text completion json_ok).
Abbreviation run' := (run_batches max_retries net soup_text completion json_ok).
Abbreviation result' := (fetch_result max_retries net soup_text).
Abbreviation records' :=
  (fun pid => failed_ids (fetch_product max_retries net soup_text pid world0).2).
Abbreviation order' :=
  (fun ids i => as_completed (completion i) (batch_ids_of ids i)).

(** The records of the fetches of [order]: one for each that returns
    [None], each with the error of a fetch. *)
Lemma batch_records (order : list string) :
  Forall (fun r => is_fetch_error r.2 = true) (concat (records' <$> order)) /\
  (concat (records' <$> order)).*1
  = filter (fun pid => result' pid = None) order.
Proof.
  destruct (gather_spec max_retries net soup_text order [] world0)
    as [_ (fails & Hf & Hpids & Herr)].
  destruct (gather_effects max_retries net soup_text order [] world0) as [Hf' _].
  rewrite Hf' in Hf. change (failed_ids world0) with (@nil (string * pyval)) in Hf.
  cbn [app] in Hf. by rewrite Hf.
Qed.

(** What one turn of the loop over the batches does. *)
Lemma process_batch_spec ids i st :
  failed_ids (run_world st) = [] ->
  if forallb json_ok (omap result' (order' ids i)) then
    exists st',
      process' ids i st = Some st' /\
      run_disk st'
      = Disk (<[batch_file_name i := omap result' (order' ids i)]>
                (out_dir (run_disk st)))
             (flush_failed (concat (records' <$> order' ids i))
                (failed_file (run_disk st))).1 /\
      total_successful_count st'
      = total_successful_count st
        + Z.of_nat (length (omap result' (order' ids i))) /\
      failed_ids (run_world st') = []
  else process' ids i st = None.
Proof.
  intros Hempty. unfold process_batch. cbv zeta.
  destruct (gather_spec max_retries net soup_text (order' ids i) []
              (run_world st)) as [Hres _].
  destruct (gather_effects max_retries net soup_text (order' ids i) []
              (run_world st)) as [Hf _].
  destruct (gather max_retries net soup_text (order' ids i) []
              (run_world st)) as [results w]. cbn [fst snd] in Hres, Hf.
  rewrite Hempty in Hf. cbn [app] in Hres, Hf. subst results. rewrite Hf.
  destruct (forallb json_ok (omap result' (order' ids i))); [|done].
  pose proof (flush_failed_clears (concat (records' <$> order' ids i))
                (failed_file (run_disk st))) as Hclear.
  destruct (flush_failed _ _) as [file failed]. cbn [fst snd] in *. subst failed.
  by eexists.
Qed.

Lemma process_batch_Some ids i st st' :
  failed_ids (run_world st) = [] ->
  process' ids i st = Some st' ->
  forallb json_ok (omap result' (order' ids i)) = true /\
  run_disk st'
  = Disk (<[batch_file_name i := omap result' (order' ids i)]>
            (out_dir (run_disk st)))
         (flush_failed (concat (records' <$> order' ids i))
            (failed_file (run_disk st))).1 /\
  total_successful_count st'
  = total_successful_count st
    + Z.of_nat (length (omap result' (order' ids i))) /\
  failed_ids (run_world st') = [].
Proof.
  intros Hempty Hrun. pose proof (process_batch_spec ids i st Hempty) as Hspec.
  cbv beta in Hspec. destruct (forallb json_ok (omap result' (order' ids i))); [|congruence].
  destruct Hspec as (st1 & Hst1 & Hrest). rewrite Hrun in Hst1.
  injection Hst1 as <-. done.
Qed.

Lemma process_batch_is_Some ids i st :
  failed_ids (run_world st) = [] ->
  forallb json_ok (omap result' (order' ids i)) = true ->
  is_Some (process' ids i st).
Proof.
  intros Hempty Hok. pose proof (process_batch_spec ids i st Hempty) as Hspec.
  cbv beta in Hspec. rewrite Hok in Hspec. destruct Hspec as (st1 & -> & _). done.
Qed.

(** A turn of the loop, read without the order of completion. *)
Lemma process_batch_accounts ids i st st' :
  failed_ids (run_world st) = [] ->
  process' ids i st = Some st' ->
  let batch_ids := batch_ids_of ids i in
  (exists results,
     out_dir (run_disk st')
     = <[batch_file_name i := results]> (out_dir (run_disk st)) /\
     results ≡ₚ omap result' batch_ids) /\
  total_successful_count st'
  = total_successful_count st + Z.of_nat (length (omap result' batch_ids)) /\
  failed_ids (run_world st') = [] /\
  data_rows (failed_file (run_disk st'))
  = (data_rows (failed_file (run_disk st))
     + length (filter (fun pid => result' pid = None) batch_ids))%nat /\
  (log_ok (failed_file (run_disk st)) -> log_ok (failed_file (run_disk st'))) /\
  exists added,
    default [] (failed_file (run_disk st'))
    = default [] (failed_file (run_disk st)) ++ added.
Proof.
  intros Hempty Hrun. cbn zeta.
  destruct (process_batch_Some ids i st st' Hempty Hrun)
    as (_ & Hdisk & Hcount & Hclear).
  pose proof (as_completed_perm (completion i) (batch_ids_of ids i)) as Hperm.
  destruct (batch_records (order' ids i)) as [Herr Hpids].
  destruct (flush_failed_data_rows (concat (records' <$> order' ids i))
              (failed_file (run_disk st)) Herr) as (Hrows & _ & Hadded).
  pose proof (flush_failed_ok (concat (records' <$> order' ids i))
                (failed_file (run_disk st)) Herr) as Hok.
  rewrite Hdisk. cbn [out_dir failed_file].
  split; [eexists; split; [done|by rewrite Hperm]|].
  split; [by rewrite Hcount, Hperm|]. split; [done|].
  split; [|done].
  rewrite Hrows. f_equal. rewrite <- (length_fmap fst), Hpids.
  by rewrite Hperm.
Qed.

Lemma run_batches_app ids l1 l2 st :
  run' ids (l1 ++ l2) st = st' ← run' ids l1 st; run' ids l2 st'.
Proof.
  revert st. induction l1 as [|i l1 IH]; intros st; [done|].
  cbn [app run_batches]. destruct (process' ids i st) as [st1|]; [|done].
  cbn [mbind option_bind]. apply IH.
Qed.

(** The names the batches of [l] are saved under. *)
Lemma run_batches_other ids l st st' name :
  run' ids l st = Some st' ->
  (forall i, i ∈ l -> name <> batch_file_name i) ->
  failed_ids (run_world st) = [] ->
  out_dir (run_disk st') !! name = out_dir (run_disk st) !! name.
Proof.
  revert st. induction l as [|i l IH]; intros st Hrun Hname Hempty;
    [by injection Hrun as <-|].
  cbn [run_batches] in Hrun.
  destruct (process' ids i st) as [st1|] eqn:Hst1; [|done].
  cbn [mbind option_bind] in Hrun.
  destruct (process_batch_Some ids i st st1 Hempty Hst1) as (_ & Hdisk & _ & He).
  rewrite (IH st1 Hrun); [|intros j Hj; apply Hname; by right|done].
  rewrite Hdisk. cbn [out_dir]. apply lookup_insert_ne.
  intros E. eapply Hname; [by left|done].
Qed.

Lemma run_batches_written ids l st st' i :
  run' ids l st = Some st' ->
  i ∈ l -> failed_ids (run_world st) = [] ->
  out_dir (run_disk st') !! batch_file_name i
  = Some (omap result' (order' ids i)).
Proof.
  revert st. induction l as [|j l IH]; intros st Hrun Hi Hempty;
    [by apply elem_of_nil in Hi|].
  cbn [run_batches] in Hrun.
  destruct (process' ids j st) as [st1|] eqn:Hst1; [|done].
  cbn [mbind option_bind] in Hrun.
  destruct (process_batch_Some ids j st st1 Hempty Hst1) as (_ & Hdisk & _ & He).
  destruct (decide (i ∈ l)) as [Hin|Hnotin]; [by apply (IH st1)|].
  apply elem_of_cons in Hi as [->|Hi]; [|done].
  rewrite (run_batches_other ids l st1 st' _ Hrun);
    [|intros k Hk E; apply batch_file_name_inj in E; by subst k|done].
  rewrite Hdisk. cbn [out_dir]. apply lookup_insert_eq.
Qed.

(** The counters and the failure log over the batches of [l]. *)
Lemma run_batches_accounts ids l st st' :
  run' ids l st = Some st' ->
  failed_ids (run_world st) = [] ->
  let processed := concat (batch_ids_of ids <$> l) in
  failed_ids (run_world st') = [] /\
  total_successful_count st'
  = total_successful_count st + Z.of_nat (length (omap result' processed)) /\
  data_rows (failed_file (run_disk st'))
  = (data_rows (failed_file (run_disk st))
     + length (filter (fun pid => result' pid = None) processed))%nat /\
  (log_ok (failed_file (run_disk st)) -> log_ok (failed_file (run_disk st'))) /\
  exists added,
    default [] (failed_file (run_disk st'))
    = default [] (failed_file (run_disk st)) ++ added.
Proof.
  revert st. induction l as [|i l IH]; intros st Hrun Hempty.
  - injection Hrun as <-. cbn. rewrite Z.add_0_r, Nat.add_0_r.
    repeat split; try done. exists []. by rewrite app_nil_r.
  - cbn [run_batches] in Hrun.
    destruct (process' ids i st) as [st1|] eqn:Hst1; [|done].
    cbn [mbind option_bind] in Hrun. cbn [fmap list_fmap concat].
    destruct (process_batch_accounts ids i st st1 Hempty Hst1)
      as (_ & Hcount & He & Hrows & Hok & added1 & Hadd1).
    destruct (IH st1 Hrun He) as (He' & Hcount' & Hrows' & Hok' & added2 & Hadd2).
    cbn zeta. split; [done|]. split; [|split; [|split]].
    + rewrite Hcount', Hcount, omap_app, length_app. lia.
    + rewrite Hrows', Hrows, filter_app, length_app. lia.
    + intros H. by apply Hok', Hok.
    + exists (added1 ++ added2). by rewrite Hadd2, Hadd1, app_assoc.
Qed.

End MainFacts.

(** After the batches from [start] on have been saved, the scan finds
    nothing left to do. *)
Lemma scan_after_run ids d start (st : run_state) :
  start_batch (listdir d) = Some start ->
  (forall i, start <= i <= total_batches ids ->
     is_Some (out_dir (run_disk st) !! batch_file_name i)) ->
  (forall name, (forall i, start <= i <= total_batches ids ->
                           name <> batch_file_name i) ->
     out_dir (run_disk st) !! name = out_dir d !! name) ->
  exists start',
    start_batch (listdir (run_disk st)) = Some start' /\
    total_batches ids < start'.
Proof.
  intros Hstart Hwritten Hother.
  assert (forall f, f ∈ listdir (run_disk st) ->
            (exists i, start <= i <= total_batches ids /\ f = batch_file_name i) \/
            f ∈ listdir d) as Hfrom.
  { intros f Hf.
    destruct (decide (Exists (fun i => f = batch_file_name i)
                        (py_range start (total_batches ids + 1)))) as [Hex|Hno].
    - left. apply Exists_exists in Hex as (i & Hi%elem_of_py_range & ->).
      exists i. split; [lia|done].
    - right. apply elem_of_listdir. rewrite <- Hother; [by apply elem_of_listdir|].
      intros i Hi ->. apply Hno, Exists_exists. exists i.
      split; [apply elem_of_py_range; lia|done]. }
  assert (exists done, done_batches (listdir d) = Some done) as [done0 Hdone0].
  { unfold start_batch in Hstart. destruct (done_batches (listdir d)); [eauto|done]. }
  destruct (done_batches_cases (listdir (run_disk st)))
    as [(f & Hf & Hb & Hidx)|(done' & Hdone' & Hmem)].
  { destruct (Hfrom f Hf) as [(i & _ & ->)|Hold].
    - by rewrite batch_index_of_name_all in Hidx.
    - by rewrite (done_batches_unreadable (listdir d) f) in Hdone0. }
  destruct (decide (start <= total_batches ids)) as [Hsome|Hnone].
  - pose proof (set_max_spec done') as Hmax.
    assert (total_batches ids ∈ done') as Hin.
    { apply Hmem. exists (batch_file_name (total_batches ids)).
      split; [apply elem_of_listdir, Hwritten; lia|].
      split; [apply is_batch_file_name|apply batch_index_of_name_all]. }
    destruct (set_max done') as [m|] eqn:E.
    + destruct Hmax as [_ Hle]. specialize (Hle _ Hin).
      exists (m + 1). split; [|lia].
      unfold start_batch. rewrite Hdone'. cbn [mbind option_bind]. by rewrite E.
    + rewrite Hmax in Hin. by apply not_elem_of_empty in Hin.
  - exists start. split; [|lia]. rewrite <- Hstart. unfold start_batch.
    f_equal. apply done_batches_ext. intros f Hb.
    rewrite !elem_of_listdir, Hother; [done|]. intros i Hi. lia.
Qed.

(** X15: a run that gets through saves, for every batch from its start to
    the last, the results of the identifiers of that batch, in some order,
    under the name of the batch, and leaves every other file of OUTPUT_DIR
    as it was, the artifacts of the batches done before among them.  A
    second run right after it finds no batch left: it goes through no
    batch and changes nothing.  This holds for every order in which the
    tasks complete. *)
Theorem complete_run_leaves_nothing_to_do
    (max_retries : nat) (net : string -> nat -> get_outcome)
    (soup_text : jvalue -> option string) (completion : Z -> list nat)
    (json_ok : product -> bool) (ids : list string) (d : disk)
    (st : run_state) :
  main max_retries net soup_text completion json_ok ids d = Some st ->
  exists start,
    start_batch (listdir d) = Some start /\
    (forall i, start <= i <= total_batches ids ->
       exists results,
         out_dir (run_disk st) !! batch_file_name i = Some results /\
         results
         ≡ₚ omap (fetch_result max_retries net soup_text) (batch_ids_of ids i)) /\
    (forall name, (forall i, start <= i <= total_batches ids ->
                             name <> batch_file_name i) ->
       out_dir (run_disk st) !! name = out_dir d !! name) /\
    batches_of_run (listdir (run_disk st)) ids = Some [] /\
    main max_retries net soup_text completion json_ok ids (run_disk st)
    = Some (RunState world0 (run_disk st) 0).
Proof.
  unfold main. destruct (start_batch (listdir d)) as [start|] eqn:Hstart;
    [|discriminate].
  cbn [mbind option_bind]. intros Hrun. exists start. split; [done|].
  assert (forall i, start <= i <= total_batches ids ->
            out_dir (run_disk st) !! batch_file_name i
            = Some (omap (fetch_result max_retries net soup_text)
                      (as_completed (completion i) (batch_ids_of ids i))))
    as Hwritten.
  { intros i Hi.
    apply (run_batches_written _ _ _ _ _ _ _ _ _ _ Hrun); [|done].
    apply elem_of_py_range. lia. }
  assert (forall name, (forall i, start <= i <= total_batches ids ->
                                  name <> batch_file_name i) ->
            out_dir (run_disk st) !! name = out_dir d !! name) as Hother.
  { intros name Hname.
    rewrite (run_batches_other _ _ _ _ _ _ _ _ _ _ Hrun); [done| |done].
    intros i Hi%elem_of_py_range. apply Hname. lia. }
  destruct (scan_after_run ids d start st Hstart) as (start' & Hstart' & Hlt);
    [|done|].
  { intros i Hi. by rewrite Hwritten. }
  split.
  { intros i Hi. eexists. split; [by apply Hwritten|].
    by rewrite as_completed_perm. }
  split; [done|]. unfold batches_of_run. rewrite Hstart'.
  cbn [mbind option_bind]. by rewrite py_range_empty by lia.
Qed.

Lemma complete_run_leaves_nothing_to_do_witness :
  exists start,
    start_batch (listdir disk_empty) = Some start /\
    (forall i, start <= i <= total_batches ["A"; "B"; "C"] ->
       exists results,
         out_dir (run_disk run_abc) !! batch_file_name i = Some results /\
         results
         ≡ₚ omap (fetch_result 3 net_abc soup_plain)
              (batch_ids_of ["A"; "B"; "C"] i)) /\
    (forall name, (forall i, start <= i <= total_batches ["A"; "B"; "C"] ->
                             name <> batch_file_name i) ->
       out_dir (run_disk run_abc) !! name = out_dir disk_empty !! name) /\
    batches_of_run (listdir (run_disk run_abc)) ["A"; "B"; "C"] = Some [] /\
    main 3 net_abc soup_plain completion_abc json_any ["A"; "B"; "C"]
      (run_disk run_abc)
    = Some (RunState world0 (run_disk run_abc) 0).
Proof.
  apply (complete_run_leaves_nothing_to_do 3 net_abc soup_plain completion_abc
           json_any ["A"; "B"; "C"] disk_empty run_abc).
  vm_compute. reflexivity.
Defined.

(** X16: [main] keeps the failure log in order.  If the log is absent,
    empty or has its header once when the run starts, it is so when the
    run ends; what was in the file stays in front of what the run adds; and
    the buffer [failed_ids] is empty at the end, every record having been
    written at the end of its batch. *)
Theorem main_keeps_failure_log
    (max_retries : nat) (net : string -> nat -> get_outcome)
    (soup_text : jvalue -> option string) (completion : Z -> list nat)
    (json_ok : product -> bool) (ids : list string) (d : disk)
    (st : run_state) :
  main max_retries net soup_text completion json_ok ids d = Some st ->
  log_ok (failed_file d) ->
  log_ok (failed_file (run_disk st)) /\
  failed_ids (run_world st) = [] /\
  exists added,
    default [] (failed_file (run_disk st)) = default [] (failed_file d) ++ added.
Proof.
  unfold main. destruct (start_batch (listdir d)) as [start|]; [|discriminate].
  cbn [mbind option_bind]. intros Hrun Hok.
  destruct (run_batches_accounts _ _ _ _ _ _ _ _ _ Hrun)
    as (Hempty & _ & _ & Hlog & Hadded); [done|].
  split; [by apply Hlog|]. split; [done|]. exact Hadded.
Qed.

Lemma main_keeps_failure_log_witness :
  log_ok (failed_file (run_disk run_abc)) /\
  failed_ids (run_world run_abc) = [] /\
  exists added,
    default [] (failed_file (run_disk run_abc))
    = default [] (failed_file disk_empty) ++ added.
Proof.
  apply (main_keeps_failure_log 3 net_abc soup_plain completion_abc json_any
           ["A"; "B"; "C"] disk_empty run_abc).
  - vm_compute. reflexivity.
  - exact I.
Defined.

(** X17: a run accounts for every identifier of the batches it goes
    through exactly once: [total_successful_count] is the number of those
    whose fetch returns a result, the failure log grows by one row for each
    of the others, and the two numbers add up to the number of identifiers
    in these batches; for a run that starts at batch 1 that is the whole
    list. *)
Theorem main_accounts_for_every_identifier
    (max_retries : nat) (net : string -> nat -> get_outcome)
    (soup_text : jvalue -> option string) (completion : Z -> list nat)
    (json_ok : product -> bool) (ids : list string) (d : disk)
    (st : run_state) :
  main max_retries net soup_text completion json_ok ids d = Some st ->
  exists start,
    start_batch (listdir d) = Some start /\
    let processed :=
      concat (batch_ids_of ids <$> py_range start (total_batches ids + 1)) in
    let successes :=
      length (omap (fetch_result max_retries net soup_text) processed) in
    let failures :=
      length (filter (fun pid => fetch_result max_retries net soup_text pid = None)
                processed) in
    total_successful_count st = Z.of_nat successes /\
    data_rows (failed_file (run_disk st))
    = (data_rows (failed_file d) + failures)%nat /\
    (successes + failures = length processed)%nat /\
    (start = 1 -> processed = ids).
Proof.
  unfold main. destruct (start_batch (listdir d)) as [start|]; [|discriminate].
  cbn [mbind option_bind]. intros Hrun. exists start. split; [done|].
  destruct (run_batches_accounts _ _ _ _ _ _ _ _ _ Hrun)
    as (_ & Hcount & Hrows & _); [done|].
  cbn zeta in *. cbn [total_successful_count run_disk failed_file] in Hcount, Hrows.
  split; [by rewrite Hcount|]. split; [done|]. split.
  - generalize (concat (batch_ids_of ids <$> py_range start (total_batches ids + 1))).
    intros l. induction l as [|pid l IH]; [done|]. cbn [omap list_omap length].
    destruct (fetch_result max_retries net soup_text pid) eqn:E.
    + rewrite filter_cons_False by (by rewrite E). cbn [length]. lia.
    + rewrite filter_cons_True by done. cbn [length]. lia.
  - intros ->. apply (batches_partition_pieces ids).
Qed.

Lemma main_accounts_for_every_identifier_witness :
  exists start,
    start_batch (listdir disk_empty) = Some start /\
    let processed :=
      concat (batch_ids_of ["A"; "B"; "C"]
                <$> py_range start (total_batches ["A"; "B"; "C"] + 1)) in
    let successes :=
      length (omap (fetch_result 3 net_abc soup_plain) processed) in
    let failures :=
      length (filter (fun pid => fetch_result 3 net_abc soup_plain pid = None)
                processed) in
    total_successful_count run_abc = Z.of_nat successes /\
    data_rows (failed_file (run_disk run_abc))
    = (data_rows (failed_file disk_empty) + failures)%nat /\
    (successes + failures = length processed)%nat /\
    (start = 1 -> processed = ["A"; "B"; "C"]).
Proof.
  apply (main_accounts_for_every_identifier 3 net_abc soup_plain completion_abc
           json_any ["A"; "B"; "C"] disk_empty run_abc).
  vm_compute. reflexivity.
Defined.

(** * check_duplicate.py *)

(** ** Removing duplicates *)

Lemma duplicated_ext seen1 seen2 ids :
  (forall x, x ∈ seen1 <-> x ∈ seen2) ->
  duplicated seen1 ids = duplicated seen2 ids.
Proof.
  revert seen1 seen2. induction ids as [|y ids IH]; intros seen1 seen2 H; [done|].
  cbn [duplicated]. f_equal.
  - apply bool_decide_ext, H.
  - apply IH. intros x. rewrite !elem_of_cons, H. done.
Qed.

Section Dedup.
Context {Other : Type}.
Implicit Types df : list (string * Other).

Lemma drop_duplicates_spec seen df :
  let out := drop_duplicates seen df in
  NoDup out.*1 /\
  (forall x, x ∈ out.*1 <-> x ∈ df.*1 /\ x ∉ seen) /\
  out `sublist_of` df /\
  (forall r, r ∈ out ->
     exists l1 l2, df = l1 ++ r :: l2 /\ (r.1 ∉ l1.*1) /\ (r.1 ∉ seen)) /\
  length df
  = (length out
     + length (filter (fun b => b = true) (duplicated seen df.*1)))%nat.
Proof.
  revert seen. induction df as [|r df IH]; intros seen; cbn zeta.
  - cbn [drop_duplicates fmap list_fmap duplicated].
    split; [constructor|]. split; [|split; [done|split; [|done]]].
    + intros x. split; [intros Hx|intros [Hx _]]; by apply elem_of_nil in Hx.
    + intros r Hr. by apply elem_of_nil in Hr.
  - cbn [drop_duplicates fmap list_fmap duplicated].
    destruct (decide (r.1 ∈ seen)) as [Hseen|Hnew].
    + destruct (IH seen) as (Hnd & Hmem & Hsub & Hfirst & Hlen).
      rewrite bool_decide_eq_true_2 by done.
      rewrite (duplicated_ext (r.1 :: seen) seen)
        by (intros x; rewrite elem_of_cons; split; [by intros [->|?]|tauto]).
      rewrite filter_cons_True by done. cbn [length].
      split; [done|]. split; [|split; [|split]].
      * intros x. rewrite Hmem, elem_of_cons. split; [tauto|].
        intros [[->|Hx] Hns]; [done|tauto].
      * by apply sublist_cons.
      * intros r' Hr'. destruct (Hfirst r' Hr') as (l1 & l2 & -> & Hl1 & Hns).
        exists (r :: l1), l2. split; [done|]. split; [|done].
        cbn [fmap list_fmap]. rewrite elem_of_cons. intros [E|Hin]; [|done].
        apply Hns. by rewrite E.
      * lia.
    + destruct (IH (r.1 :: seen)) as (Hnd & Hmem & Hsub & Hfirst & Hlen).
      rewrite bool_decide_eq_false_2 by done.
      rewrite filter_cons_False by (by intros ?). cbn [length fmap list_fmap].
      split; [|split; [|split; [|split]]].
      * constructor; [|done]. rewrite Hmem, elem_of_cons. tauto.
      * intros x. rewrite !elem_of_cons, Hmem, elem_of_cons. split.
        -- intros [->|[Hx Hns]]; [tauto|]. split; [tauto|]. tauto.
        -- intros [[->|Hx] Hns]; [tauto|].
           destruct (decide (x = r.1)) as [->|Hne]; [tauto|]. right. tauto.
      * by apply sublist_skip.
      * intros r' [->|Hr']%elem_of_cons.
        -- exists [], df. split; [done|]. split; [|done].
           intros Hin. by apply elem_of_nil in Hin.
        -- destruct (Hfirst r' Hr') as (l1 & l2 & -> & Hl1 & Hns).
           rewrite elem_of_cons in Hns.
           exists (r :: l1), l2. split; [done|]. split; [|tauto].
           cbn [fmap list_fmap]. rewrite elem_of_cons. tauto.
      * lia.
Qed.

Lemma drop_duplicates_none seen df :
  length (filter (fun b => b = true) (duplicated seen df.*1)) = 0%nat ->
  drop_duplicates seen df = df.
Proof.
  revert seen. induction df as [|r df IH]; intros seen; [done|].
  cbn [drop_duplicates fmap list_fmap duplicated].
  destruct (decide (r.1 ∈ seen)) as [Hseen|Hnew].
  - rewrite bool_decide_eq_true_2 by done. by rewrite filter_cons_True by done.
  - rewrite bool_decide_eq_false_2 by done.
    rewrite filter_cons_False by (by intros ?). intros H. by rewrite IH.
Qed.

Lemma deduplicated_drop df : deduplicated df = drop_duplicates [] df.
Proof.
  unfold deduplicated, dup. case_decide as H; [|done].
  by rewrite drop_duplicates_none.
Qed.

End Dedup.

Lemma deduplicated_keeps_first_rows_aux {Other : Type}
    (df : list (string * Other)) :
  NoDup (deduplicated df).*1 /\
  (forall x, x ∈ (deduplicated df).*1 <-> x ∈ df.*1).
Proof.
  rewrite deduplicated_drop.
  destruct (drop_duplicates_spec [] df) as (Hnd & Hmem & _).
  split; [done|]. intros x. rewrite Hmem. split; [tauto|]. intros Hx.
  split; [done|apply not_elem_of_nil].
Qed.

(** X18: after the check the frame has every id once.  The rows kept are
    rows of the frame, in their order and unchanged, one for each id that
    occurs, namely the first row with that id; the number of rows removed
    is the number of duplicates counted, and when that number is 0 the
    frame is left as it is. *)
Theorem deduplicated_keeps_first_rows {Other : Type} (df : list (string * Other)) :
  let out := deduplicated df in
  NoDup out.*1 /\
  (forall x, x ∈ out.*1 <-> x ∈ df.*1) /\
  out `sublist_of` df /\
  (forall r, r ∈ out -> exists l1 l2, df = l1 ++ r :: l2 /\ (r.1 ∉ l1.*1)) /\
  length df = (length out + dup df)%nat /\
  (dup df = 0%nat <-> NoDup df.*1) /\
  (dup df = 0%nat -> out = df).
Proof.
  cbn zeta. rewrite deduplicated_drop.
  destruct (drop_duplicates_spec [] df) as (Hnd & Hmem & Hsub & Hfirst & Hlen).
  split; [done|]. split; [|split; [done|split; [|split; [done|split]]]].
  - intros x. rewrite Hmem. split; [tauto|]. intros Hx. split; [done|].
    apply not_elem_of_nil.
  - intros r Hr. destruct (Hfirst r Hr) as (l1 & l2 & E & Hl1 & _). eauto.
  - unfold dup. split.
    + intros Hz. rewrite <- (drop_duplicates_none [] df Hz). exact Hnd.
    + intros Hdf. unfold dup in Hlen.
      assert (length (drop_duplicates [] df) = length df) as Hsame; [|lia].
      rewrite <- !(length_fmap fst). apply Permutation_length.
      apply NoDup_Permutation; [done..|]. intros x. rewrite Hmem.
      split; [tauto|]. intros Hx. split; [done|apply not_elem_of_nil].
  - intros Hz. by apply drop_duplicates_none.
Qed.

(** ** Cutting the frame into chunks *)

Lemma CHUNK_SIZE_pos : 0 < CHUNK_SIZE.
Proof. done. Qed.

Lemma py_slice_take_drop {A} (l : list A) a b :
  0 <= a <= b ->
  py_slice l a b = take (Z.to_nat (b - a)) (drop (Z.to_nat a) l).
Proof.
  intros Hab. unfold py_slice. set (len := Z.of_nat (length l)).
  assert (0 <= len) as Hlen by (subst len; lia).
  rewrite !(proj2 (Z.ltb_ge _ 0)) by lia.
  destruct (decide (len <= a)) as [Hout|Hin].
  - rewrite !drop_ge by lia. by rewrite !take_nil.
  - rewrite (Z.min_l a len) by lia.
    destruct (decide (b <= len)) as [Hfull|Hlast].
    + by rewrite Z.min_l by lia.
    + rewrite Z.min_r by lia. rewrite !take_ge; [done|rewrite length_drop; lia..].
Qed.

Lemma py_str_int_inj n m : py_str_int n = py_str_int m -> n = m.
Proof.
  intros E. pose proof (py_int_str_all n) as H.
  rewrite E, py_int_str_all in H. by injection H.
Qed.

Lemma chunk_file_at (k : nat) :
  chunk_file (0 + Z.of_nat k * CHUNK_SIZE)
  = OUT_DIR +:+ "/id_tiki_part_" +:+ py_str_int (Z.of_nat k + 1) +:+ ".csv".
Proof.
  unfold chunk_file. do 3 f_equal. pose proof CHUNK_SIZE_pos.
  rewrite Z.add_0_l, Z.div_mul by lia. done.
Qed.

Lemma chunk_name_inj n m :
  OUT_DIR +:+ "/id_tiki_part_" +:+ py_str_int n +:+ ".csv"
  = OUT_DIR +:+ "/id_tiki_part_" +:+ py_str_int m +:+ ".csv" ->
  n = m.
Proof.
  unfold OUT_DIR. rewrite !app_String, !app_EmptyString. intros [= E].
  apply py_str_int_inj.
  assert (py_split "." (py_str_int n +:+ ".csv")
          = py_split "." (py_str_int m +:+ ".csv")) as Hs by (by rewrite E).
  rewrite !py_split_lacks in Hs by (by apply py_str_int_lacks).
  change (py_split "." ".csv") with [""; "csv"] in Hs. cbv iota in Hs.
  rewrite !app_EmptyString_r in Hs. by injection Hs.
Qed.

Section Chunks.
Context {Other : Type}.
Implicit Types df : list (string * Other).

(** The chunks, one by one. *)
Lemma chunks_pieces df :
  chunks df
  = (fun k : nat =>
       (OUT_DIR +:+ "/id_tiki_part_" +:+ py_str_int (Z.of_nat k + 1) +:+ ".csv",
        take (Z.to_nat CHUNK_SIZE) (drop (k * Z.to_nat CHUNK_SIZE) df)))
      <$> seq 0 (Z.to_nat ((Z.of_nat (length df) + CHUNK_SIZE - 1) `div` CHUNK_SIZE)).
Proof.
  pose proof CHUNK_SIZE_pos as Hc.
  unfold chunks, py_range_step. rewrite <- list_fmap_compose, Z.sub_0_r.
  apply list_fmap_ext. intros _ k _. cbn [compose].
  rewrite chunk_file_at. f_equal.
  rewrite py_slice_take_drop by nia. f_equal; [f_equal; lia|f_equal; nia].
Qed.

End Chunks.

Lemma chunks_concat {Other : Type} (df : list (string * Other)) :
  concat (chunks df).*2 = df.
Proof.
  pose proof CHUNK_SIZE_pos as Hc.
  pose proof (Z.div_mod (Z.of_nat (length df) + CHUNK_SIZE - 1) CHUNK_SIZE
                ltac:(lia)) as Hdm.
  pose proof (Z.mod_pos_bound (Z.of_nat (length df) + CHUNK_SIZE - 1)
                CHUNK_SIZE Hc) as Hmod.
  assert (0 <= (Z.of_nat (length df) + CHUNK_SIZE - 1) `div` CHUNK_SIZE) as Hnn
    by (apply Z.div_pos; lia).
  rewrite chunks_pieces, <- list_fmap_compose.
  etrans; [|apply (concat_pieces (Z.to_nat CHUNK_SIZE)
                     (Z.to_nat ((Z.of_nat (length df) + CHUNK_SIZE - 1)
                                `div` CHUNK_SIZE)) df); nia].
  done.
Qed.

(** X19: the chunks cut the frame into consecutive pieces of CHUNK_SIZE
    rows, the last one shorter when the number of rows is no multiple of
    CHUNK_SIZE and none of them empty; glued in order they give back the
    frame.  Chunk number k, from 1 on, goes to ./id_tiki_part_k.csv, so no
    two chunks go to one file, and there is no chunk exactly when the frame
    has no row. *)
Theorem chunks_partition_frame {Other : Type} (df : list (string * Other)) :
  let cs := chunks df in
  let size := Z.to_nat CHUNK_SIZE in
  concat cs.*2 = df /\
  (forall (k : nat) c, cs !! k = Some c ->
     c.1 = OUT_DIR +:+ "/id_tiki_part_" +:+ py_str_int (Z.of_nat k + 1) +:+ ".csv" /\
     c.2 = take size (drop (k * size) df) /\
     (1 <= length c.2 <= size)%nat /\
     ((S k < length cs)%nat -> length c.2 = size)) /\
  NoDup cs.*1 /\
  (cs = [] <-> df = []) /\
  Z.of_nat (length cs) = (Z.of_nat (length df) + CHUNK_SIZE - 1) `div` CHUNK_SIZE.
Proof.
  intros cs size. pose proof CHUNK_SIZE_pos as Hc.
  set (n := Z.of_nat (length df)).
  set (m := Z.to_nat ((n + CHUNK_SIZE - 1) `div` CHUNK_SIZE)).
  assert (cs = (fun k : nat =>
       (OUT_DIR +:+ "/id_tiki_part_" +:+ py_str_int (Z.of_nat k + 1) +:+ ".csv",
        take size (drop (k * size) df))) <$> seq 0 m) as Hcs
    by apply chunks_pieces.
  pose proof (Z.div_mod (n + CHUNK_SIZE - 1) CHUNK_SIZE ltac:(lia)) as Hdm.
  pose proof (Z.mod_pos_bound (n + CHUNK_SIZE - 1) CHUNK_SIZE Hc) as Hmod.
  assert (0 <= (n + CHUNK_SIZE - 1) `div` CHUNK_SIZE) as Hnn
    by (apply Z.div_pos; lia).
  assert (CHUNK_SIZE * (Z.of_nat m - 1) < n <= CHUNK_SIZE * Z.of_nat m)
    as Hbounds by (subst m; rewrite Z2Nat.id by done; lia).
  assert (length cs = m) as Hlen by (by rewrite Hcs, length_fmap, length_seq).
  split; [|split; [|split; [|split]]].
  - rewrite Hcs, <- list_fmap_compose.
    etrans; [|apply (concat_pieces size m df); subst size n; nia]. done.
  - intros k c Hk. rewrite Hcs, list_lookup_fmap in Hk.
    destruct (seq 0 m !! k) as [k'|] eqn:Hseq; [|done].
    apply lookup_seq in Hseq as [-> Hkm]. cbn in Hk. injection Hk as <-.
    cbn [fst snd]. split; [done|]. split; [done|].
    rewrite length_take, length_drop, Hlen. subst size n. split; [nia|].
    intros Hlast. nia.
  - rewrite Hcs, <- list_fmap_compose. apply NoDup_fmap_2; [|apply NoDup_seq].
    intros k1 k2 E. cbn in E. apply chunk_name_inj in E. lia.
  - rewrite <- !length_zero_iff_nil, Hlen. subst n. split; intros Hz; nia.
  - rewrite Hlen. subst m. by rewrite Z2Nat.id.
Qed.

(** X20: the script as a whole, on a frame whose ids are made of ASCII
    characters.  Every id that is not missing appears, stripped of the
    blanks around it, in exactly one row of exactly one chunk, and nothing
    else does: the ids of the chunks taken together are free of
    repetitions and are the stripped ids of the rows that have one.  What
    [strip] takes off an id with other characters is not modelled. *)
Theorem check_duplicate_puts_each_id_once {Cell Other : Type}
    (notna : Cell -> bool) (astype_str : Cell -> string)
    (df : list (Cell * Other)) :
  (forall r, r ∈ df -> notna r.1 = true -> all_ascii (astype_str r.1) = true) ->
  let rows := concat (check_duplicate notna astype_str df).*2 in
  NoDup rows.*1 /\
  (forall x, x ∈ rows.*1 <->
     exists r, r ∈ df /\ notna r.1 = true /\ x = py_strip (astype_str r.1)) /\
  rows = deduplicated (clean notna astype_str df).
Proof.
  intros _. cbn zeta. unfold check_duplicate.
  rewrite chunks_concat.
  destruct (deduplicated_keeps_first_rows_aux (clean notna astype_str df))
    as (Hnd & Hmem). split; [done|]. split; [|done].
  intros x. rewrite Hmem. unfold clean. rewrite <- list_fmap_compose.
  rewrite list_elem_of_fmap. split.
  - intros (r & -> & [Hna Hr]%list_elem_of_filter). exists r.
    split; [done|]. split; [by destruct (notna r.1)|done].
  - intros (r & Hr & Hna & ->). exists r. split; [done|].
    apply list_elem_of_filter. split; [by rewrite Hna|done].
Qed.

Lemma check_duplicate_puts_each_id_once_witness :
  let rows := concat (check_duplicate notna_opt astype_str_opt frame_abc).*2 in
  NoDup rows.*1 /\
  (forall x, x ∈ rows.*1 <->
     exists r, r ∈ frame_abc /\ notna_opt r.1 = true /\
               x = py_strip (astype_str_opt r.1)) /\
  rows = deduplicated (clean notna_opt astype_str_opt frame_abc).
Proof.
  apply (check_duplicate_puts_each_id_once notna_opt astype_str_opt frame_abc).
  intros r Hr _. apply list_elem_of_In in Hr.
  destruct Hr as [<- | [<- | [<- | []]]]; reflexivity.
Defined.

(** ** Stripped ids *)

Lemma py_lstrip_head s :
  py_lstrip s = "" \/
  exists c t, py_lstrip s = String c t /\ py_isspace c = false.
Proof.
  induction s as [|c s IH]; [by left|]. cbn [py_lstrip].
  destruct (py_isspace c) eqn:E; [done|]. right. by exists c, s.
Qed.

Lemma py_rstrip_idemp s : py_rstrip (py_rstrip s) = py_rstrip s.
Proof.
  induction s as [|c s IH]; [done|]. cbn [py_rstrip].
  destruct (py_rstrip s) as [|c' t] eqn:E.
  - destruct (py_isspace c) eqn:Hc; [done|]. cbn [py_rstrip]. by rewrite Hc.
  - cbn [py_rstrip]. fold py_rstrip. cbn [py_rstrip] in IH. by rewrite IH.
Qed.

Lemma py_rstrip_head c t :
  py_isspace c = false -> exists t', py_rstrip (String c t) = String c t'.
Proof.
  intros Hc. cbn [py_rstrip]. destruct (py_rstrip t); [|by eexists].
  rewrite Hc. by eexists.
Qed.

Lemma py_strip_idemp s :
  py_lstrip (py_strip s) = py_strip s /\ py_rstrip (py_strip s) = py_strip s.
Proof.
  unfold py_strip. split; [|apply py_rstrip_idemp].
  destruct (py_lstrip_head s) as [->|(c & t & -> & Hc)]; [done|].
  destruct (py_rstrip_head c t Hc) as [t' ->]. cbn [py_lstrip]. by rewrite Hc.
Qed.

(** X21: no id that reaches a chunk starts or ends with a blank: stripping
    it again, on the left or on the right, changes nothing. *)
Theorem chunk_ids_are_stripped {Cell Other : Type}
    (notna : Cell -> bool) (astype_str : Cell -> string)
    (df : list (Cell * Other)) (x : string) :
  x ∈ (concat (check_duplicate notna astype_str df).*2).*1 ->
  py_lstrip x = x /\ py_rstrip x = x /\ py_strip x = x.
Proof.
  unfold check_duplicate. rewrite chunks_concat.
  intros Hx. apply (deduplicated_keeps_first_rows_aux
                      (clean notna astype_str df)) in Hx.
  unfold clean in Hx. rewrite <- list_fmap_compose in Hx.
  apply list_elem_of_fmap in Hx as (r & -> & _). cbn [compose fst].
  destruct (py_strip_idemp (astype_str r.1)) as [Hl Hr].
  split; [done|]. split; [done|]. unfold py_strip at 1. by rewrite Hl.
Qed.

(** ** Stopping between two batches and starting again *)

Lemma py_range_app a b c :
  a <= b <= c -> py_range a c = py_range a b ++ py_range b c.
Proof.
  intros H. unfold py_range.
  replace (Z.to_nat (c - a)) with (Z.to_nat (b - a) + Z.to_nat (c - b))%nat by lia.
  rewrite seq_app, fmap_app. f_equal. cbn [Nat.add].
  replace (seq (Z.to_nat (b - a)) (Z.to_nat (c - b)))
    with (Nat.add (Z.to_nat (b - a)) <$> seq 0 (Z.to_nat (c - b)))
    by (rewrite fmap_add_seq; f_equal; lia).
  rewrite <- list_fmap_compose.
  apply list_fmap_ext. intros _ k _. cbn. lia.
Qed.

(** Every batch found done lies before the batch at which the run starts. *)
Lemma start_batch_above listing start :
  start_batch listing = Some start ->
  exists done, done_batches listing = Some done /\ forall x, x ∈ done -> x < start.
Proof.
  unfold start_batch. destruct (done_batches listing) as [done0|]; [|discriminate].
  cbn [mbind option_bind]. pose proof (set_max_spec done0) as Hmax.
  destruct (set_max done0) as [m|]; intros [= <-]; exists done0; (split; [done|]).
  - destruct Hmax as [_ Hle]. intros x Hx. specialize (Hle x Hx). lia.
  - subst done0. intros x Hx. by apply not_elem_of_empty in Hx.
Qed.

(** The scan after the batches [start .. j] have been saved. *)
Lemma scan_after_batches (d : disk) start j (st : run_state) :
  start_batch (listdir d) = Some start ->
  start <= j ->
  (forall i, start <= i <= j -> is_Some (out_dir (run_disk st) !! batch_file_name i)) ->
  (forall name, (forall i, start <= i <= j -> name <> batch_file_name i) ->
     out_dir (run_disk st) !! name = out_dir d !! name) ->
  start_batch (listdir (run_disk st)) = Some (j + 1).
Proof.
  intros Hstart Hj Hwritten Hother.
  destruct (start_batch_above _ _ Hstart) as (done0 & Hdone0 & Hbelow).
  assert (forall f, f ∈ listdir (run_disk st) ->
            (exists i, start <= i <= j /\ f = batch_file_name i) \/
            f ∈ listdir d) as Hfrom.
  { intros f Hf.
    destruct (decide (Exists (fun i => f = batch_file_name i)
                        (py_range start (j + 1)))) as [Hex|Hno].
    - left. apply Exists_exists in Hex as (i & Hi%elem_of_py_range & ->).
      exists i. split; [lia|done].
    - right. apply elem_of_listdir. rewrite <- Hother; [by apply elem_of_listdir|].
      intros i Hi ->. apply Hno, Exists_exists. exists i.
      split; [apply elem_of_py_range; lia|done]. }
  destruct (done_batches_cases (listdir d))
    as [(f & Hf & Hb & Hidx)|(done1 & Hdone1 & Hmem0)].
  { by rewrite (done_batches_unreadable (listdir d) f) in Hdone0. }
  rewrite Hdone0 in Hdone1. injection Hdone1 as <-.
  destruct (done_batches_cases (listdir (run_disk st)))
    as [(f & Hf & Hb & Hidx)|(done' & Hdone' & Hmem)].
  { destruct (Hfrom f Hf) as [(i & _ & ->)|Hold].
    - by rewrite batch_index_of_name_all in Hidx.
    - by rewrite (done_batches_unreadable (listdir d) f) in Hdone0. }
  unfold start_batch. rewrite Hdone'. cbn [mbind option_bind].
  rewrite (set_max_is done' j); [done| |].
  - apply Hmem. exists (batch_file_name j).
    split; [apply elem_of_listdir, Hwritten; lia|].
    split; [apply is_batch_file_name|apply batch_index_of_name_all].
  - intros x (f & Hf & Hb & Hidx)%Hmem.
    destruct (Hfrom f Hf) as [(i & Hi & ->)|Hold].
    + rewrite batch_index_of_name_all in Hidx. injection Hidx as <-. lia.
    + assert (x ∈ done0) as Hx by (apply Hmem0; by exists f).
      specialize (Hbelow x Hx). lia.
Qed.

Section Resume.
Variable max_retries : nat.
Variable net : string -> nat -> get_outcome.
Variable soup_text : jvalue -> option string.
Variable json_ok : product -> bool.
(** The orders of completion in two runs. *)
Variable completion1 completion2 : Z -> list nat.

Abbreviation process1 :=
  (process_batch max_retries net soup_text completion1 json_ok).
Abbreviation process2 :=
  (process_batch max_retries net soup_text completion2 json_ok).
Abbreviation run1 := (run_batches max_retries net soup_text completion1 json_ok).
Abbreviation run2 := (run_batches max_retries net soup_text completion2 json_ok).

(** A turn of the loop in two runs whose files hold the same, each with
    its own order of completion: the second gets through when the first
    does, and the files hold the same again. *)
Lemma process_batch_same_files ids i st1 st2 st1' :
  failed_ids (run_world st1) = [] -> failed_ids (run_world st2) = [] ->
  same_files (run_disk st1) (run_disk st2) ->
  process1 ids i st1 = Some st1' ->
  exists st2',
    process2 ids i st2 = Some st2' /\
    same_files (run_disk st1') (run_disk st2') /\
    total_successful_count st1' - total_successful_count st1
    = total_successful_count st2' - total_successful_count st2 /\
    failed_ids (run_world st1') = [] /\ failed_ids (run_world st2') = [].
Proof.
  intros H1 H2 [Hout Hlog] Hrun.
  destruct (process_batch_Some _ _ _ _ _ _ _ _ _ H1 Hrun)
    as (Hok1 & Hdisk1 & Hcount1 & He1).
  assert (as_completed (completion1 i) (batch_ids_of ids i)
          ≡ₚ as_completed (completion2 i) (batch_ids_of ids i)) as Hperm
    by (by rewrite !as_completed_perm).
  destruct (process_batch_is_Some max_retries net soup_text completion2 json_ok
              ids i st2 H2) as [st2' Hrun2].
  { by rewrite <- (forallb_perm _ _ _ (omap_Permutation _ _ _ Hperm)). }
  destruct (process_batch_Some _ _ _ _ _ _ _ _ _ H2 Hrun2)
    as (_ & Hdisk2 & Hcount2 & He2).
  exists st2'. split; [done|]. split; [|split; [|done]].
  - rewrite Hdisk1, Hdisk2. split; cbn [out_dir failed_file].
    + intros name. destruct (decide (name = batch_file_name i)) as [->|Hne].
      * rewrite !lookup_insert_eq. constructor. by rewrite Hperm.
      * rewrite !lookup_insert_ne by done. apply Hout.
    + apply flush_failed_perm; [|done]. by apply concat_fmap_perm.
  - rewrite Hcount1, Hcount2, Hperm. lia.
Qed.

Lemma run_batches_same_files ids l st1 st2 st1' :
  failed_ids (run_world st1) = [] -> failed_ids (run_world st2) = [] ->
  same_files (run_disk st1) (run_disk st2) ->
  run1 ids l st1 = Some st1' ->
  exists st2',
    run2 ids l st2 = Some st2' /\
    same_files (run_disk st1') (run_disk st2') /\
    total_successful_count st1' - total_successful_count st1
    = total_successful_count st2' - total_successful_count st2.
Proof.
  revert st1 st2. induction l as [|i l IH]; intros st1 st2 H1 H2 Hsame Hrun.
  - injection Hrun as <-. exists st2. split; [done|]. split; [done|lia].
  - cbn [run_batches] in *.
    destruct (process1 ids i st1) as [st1m|] eqn:Hm; [|done].
    cbn [mbind option_bind] in Hrun.
    destruct (process_batch_same_files ids i st1 st2 st1m H1 H2 Hsame Hm)
      as (st2m & -> & Hsame' & Hcount & He1 & He2).
    destruct (IH st1m st2m He1 He2 Hsame' Hrun) as (st2' & Hrun2 & Hsame'' & Hcount').
    exists st2'. cbn [mbind option_bind]. split; [done|]. split; [done|lia].
Qed.

End Resume.

Lemma same_files_refl d : same_files d d.
Proof.
  split; [intros name; destruct (out_dir d !! name)|destruct (failed_file d)];
    by constructor.
Qed.

Lemma same_files_sym d1 d2 : same_files d1 d2 -> same_files d2 d1.
Proof.
  intros [Hout Hlog]. split.
  - intros name. destruct (Hout name); by constructor.
  - destruct Hlog; by constructor.
Qed.

(** X22: stopping between two batches loses nothing.  Take a run that gets
    through, and, in place of it, a run that is stopped after it has saved
    batch j and flushed its failures, followed by [main] started again on
    the files it left; the tasks may complete in another order there, the
    network answers as before.  The stopped run gets as far as that, the
    second run starts at batch j + 1 and gets through, and when it is
    through, OUTPUT_DIR holds the same artifacts with the same results and
    the failure log the same records as after the run that was not
    stopped, up to the order of the results in an artifact and of the
    records in the log; the successes counted by the two parts add up to
    those of the whole. *)
Theorem resume_equals_uninterrupted
    (max_retries : nat) (net : string -> nat -> get_outcome)
    (soup_text : jvalue -> option string) (json_ok : product -> bool)
    (completion completion' : Z -> list nat) (ids : list string) (d : disk)
    (start j : Z) (whole : run_state) :
  start_batch (listdir d) = Some start ->
  start <= j <= total_batches ids ->
  main max_retries net soup_text completion json_ok ids d = Some whole ->
  exists stopped resumed,
    run_batches max_retries net soup_text completion' json_ok ids
      (py_range start (j + 1)) (RunState world0 d 0) = Some stopped /\
    start_batch (listdir (run_disk stopped)) = Some (j + 1) /\
    main max_retries net soup_text completion' json_ok ids (run_disk stopped)
    = Some resumed /\
    same_files (run_disk resumed) (run_disk whole) /\
    total_successful_count whole
    = total_successful_count stopped + total_successful_count resumed.
Proof.
  intros Hstart Hj Hmain. unfold main in Hmain. rewrite Hstart in Hmain.
  cbn [mbind option_bind] in Hmain.
  rewrite (py_range_app start (j + 1) (total_batches ids + 1)) in Hmain by lia.
  rewrite run_batches_app in Hmain.
  destruct (run_batches max_retries net soup_text completion json_ok ids
              (py_range start (j + 1)) (RunState world0 d 0))
    as [mid|] eqn:Hmid; [|done].
  cbn [mbind option_bind] in Hmain.
  destruct (run_batches_accounts _ _ _ _ _ _ _ _ _ Hmid) as (Hemid & _); [done|].
  destruct (run_batches_same_files max_retries net soup_text json_ok
              completion completion' ids _ (RunState world0 d 0)
              (RunState world0 d 0) _ eq_refl eq_refl (same_files_refl d) Hmid)
    as (stopped & Hstopped & Hsame & Hcount).
  cbn [total_successful_count] in Hcount.
  destruct (run_batches_accounts _ _ _ _ _ _ _ _ _ Hstopped) as (Hestopped & _);
    [done|].
  assert (start_batch (listdir (run_disk stopped)) = Some (j + 1)) as Hscan.
  { apply (scan_after_batches d start j stopped Hstart); [lia| |].
    - intros i Hi.
      rewrite (run_batches_written _ _ _ _ _ _ _ _ _ _ Hstopped); [done| |done].
      apply elem_of_py_range. lia.
    - intros name Hname.
      rewrite (run_batches_other _ _ _ _ _ _ _ _ _ _ Hstopped); [done| |done].
      intros i Hi%elem_of_py_range. apply Hname. lia. }
  destruct (run_batches_same_files max_retries net soup_text json_ok
              completion completion' ids _ mid
              (RunState world0 (run_disk stopped) 0) _
              Hemid eq_refl Hsame Hmain)
    as (resumed & Hresumed & Hsame' & Hcount').
  cbn [total_successful_count] in Hcount'.
  exists stopped, resumed. split; [done|]. split; [done|]. split.
  - unfold main. rewrite Hscan. done.
  - split; [by apply same_files_sym|lia].
Qed.

Lemma chunk_ids_are_stripped_witness :
  py_lstrip "12" = "12" /\ py_rstrip "12" = "12" /\ py_strip "12" = "12".
Proof.
  apply (chunk_ids_are_stripped notna_opt astype_str_opt frame_abc "12").
  apply list_elem_of_In. vm_compute. tauto.
Defined.

Lemma resume_equals_uninterrupted_witness :
  total_batches ids_two_batches = 2 /\
  exists stopped resumed,
    run_batches 3 net_abc soup_plain completion_second_first json_any
      ids_two_batches (py_range 1 (1 + 1)) (RunState world0 disk_empty 0)
    = Some stopped /\
    start_batch (listdir (run_disk stopped)) = Some (1 + 1) /\
    main 3 net_abc soup_plain completion_second_first json_any ids_two_batches
      (run_disk stopped)
    = Some resumed /\
    same_files (run_disk resumed) (run_disk run_two_batches) /\
    total_successful_count run_two_batches
    = total_successful_count stopped + total_successful_count resumed.
Proof.
  split; [reflexivity|].
  apply (resume_equals_uninterrupted 3 net_abc soup_plain json_any
           completion_in_order completion_second_first ids_two_batches
           disk_empty 1 1 run_two_batches).
  - reflexivity.
  - vm_compute. split; discriminate.
  - vm_compute. reflexivity.
Defined.
